(** * AreaCon: a shallow embedding of [areacon.cpp] and the properties checked on it

    The C++ library computes area-constrained partitions of a convex polygon
    with a power-diagram based gradient scheme.  This development embeds the
    geometric primitives ([Point]), the polygon class ([Poly]), the queries of
    the density field ([Density]) and the controller steps of [Partition], and
    states the properties of the specification on that embedding, followed by
    further properties of the embedded code: its edge cases, the invariants it
    keeps and what its numerical routines compute in exact arithmetic.

    Numbers.  Every quantity of the program is a C++ [double].  The embedding
    is written once, over an interface [DoubleOps] of the operations the code
    applies to doubles, and is used at two instances:

    - [float_ops]: IEEE-754 binary64 (the kernel's primitive floats), what the
      compiled program computes with; every definition runs under [vm_compute]
      at this instance;
    - [ereal_ops]: exact real arithmetic extended with the special values
      [+inf], [-inf] and [NaN]: the idealisation in which rounding and overflow
      are absent but the sentinels of the code ([INFINITY], [isinf]) keep their
      meaning.  Geometric facts are proved at this instance.

    Integers ([int]) are embedded as [Z]; overflow of [int] is not modelled.
    A read or write of a [std::vector] outside its bounds is undefined in C++;
    the embedding reads a fixed default and ignores the write. *)

From Stdlib Require Import ZArith List String Bool Lia Reals Lra Floats.
Import ListNotations.

Set Implicit Arguments.

Close Scope float_scope.
Close Scope R_scope.

(** ** Results of fallible code *)

(** A call returns normally, throws [std::runtime_error] with a message, or
    (for the one loop of the program whose trip count is computed in floating
    point) exhausts the fuel of the embedding. *)
Inductive outcome (A : Type) : Type :=
| Ok (a : A)
| Throw (msg : string)
| OutOfFuel.

Arguments Ok {A} a.
Arguments Throw {A} msg.
Arguments OutOfFuel {A}.

Definition bind {A B : Type} (m : outcome A) (k : A -> outcome B) : outcome B :=
  match m with
  | Ok a => k a
  | Throw msg => Throw msg
  | OutOfFuel => OutOfFuel
  end.

Notation "x <- m ;; k" := (bind m (fun x => k))
  (at level 61, m at next level, right associativity).

(** [for (int i = 0; i < n; i++) body], threading the loop state [s]. *)
Fixpoint for_loop {S : Type} (n : nat) (i : Z) (body : Z -> S -> outcome S) (s : S)
  : outcome S :=
  match n with
  | O => Ok s
  | Datatypes.S n' => s' <- body i s ;; for_loop n' (i + 1) body s'
  end.

(** [v[i]] and [v[i] = a] on a [std::vector]. *)
Definition vec_get {A : Type} (dflt : A) (v : list A) (i : Z) : A :=
  if (i <? 0)%Z then dflt else nth (Z.to_nat i) v dflt.

Fixpoint list_set {A : Type} (v : list A) (n : nat) (a : A) : list A :=
  match v, n with
  | [], _ => []
  | _ :: t, O => a :: t
  | h :: t, Datatypes.S n' => h :: list_set t n' a
  end.

Definition vec_set {A : Type} (v : list A) (i : Z) (a : A) : list A :=
  if (i <? 0)%Z then v else list_set v (Z.to_nat i) a.

(** ** The operations on [double] *)

Class DoubleOps (D : Type) : Type := {
  d_add : D -> D -> D;
  d_sub : D -> D -> D;
  d_mul : D -> D -> D;
  d_div : D -> D -> D;
  d_neg : D -> D;                (* unary minus *)
  d_fabs : D -> D;               (* fabs, std::abs *)
  d_sqrt : D -> D;               (* sqrt *)
  d_ltb : D -> D -> bool;        (* a < b;  a > b is [d_ltb b a] *)
  d_leb : D -> D -> bool;        (* a <= b; a >= b is [d_leb b a] *)
  d_eqb : D -> D -> bool;        (* a == b; a != b is its negation *)
  isinf : D -> bool;
  INFINITY : D;
  of_int : Z -> D;               (* the conversion int -> double *)
  to_int : D -> Z                (* the cast (int) of a double *)
}.

Declare Scope double_scope.
Delimit Scope double_scope with dbl.
Infix "+" := d_add : double_scope.
Infix "-" := d_sub : double_scope.
Infix "*" := d_mul : double_scope.
Infix "/" := d_div : double_scope.
Notation "- a" := (d_neg a) : double_scope.
Infix "<?" := d_ltb (at level 70, no associativity) : double_scope.
Infix "<=?" := d_leb (at level 70, no associativity) : double_scope.
Infix "==?" := d_eqb (at level 70, no associativity) : double_scope.
Notation "a >? b" := (d_ltb b a) (at level 70, no associativity) : double_scope.
Notation "a >=? b" := (d_leb b a) (at level 70, no associativity) : double_scope.
Notation "a !=? b" := (negb (d_eqb a b)) (at level 70, no associativity) : double_scope.

(** *** IEEE binary64 *)

(** [(int) f]: truncation toward zero; the cast of a NaN or an infinity is
    undefined in C++ and gives the "integer indefinite" value of x86-64. *)
Definition INT_MIN : Z := (-2147483648)%Z.

Definition float_to_int (f : float) : Z :=
  match Prim2SF f with
  | S754_zero _ => 0%Z
  | S754_finite s m e =>
      let v := if (0 <=? e)%Z then (Zpos m * 2 ^ e)%Z else (Zpos m / 2 ^ (- e))%Z in
      if s then (- v)%Z else v
  | _ => INT_MIN
  end.

Definition float_of_int (z : Z) : float :=
  if (z <? 0)%Z then PrimFloat.opp (PrimFloat.of_uint63 (Uint63.of_Z (- z)))
  else PrimFloat.of_uint63 (Uint63.of_Z z).

#[export] Instance float_ops : DoubleOps float := {|
  d_add := PrimFloat.add;
  d_sub := PrimFloat.sub;
  d_mul := PrimFloat.mul;
  d_div := PrimFloat.div;
  d_neg := PrimFloat.opp;
  d_fabs := PrimFloat.abs;
  d_sqrt := PrimFloat.sqrt;
  d_ltb := PrimFloat.ltb;
  d_leb := PrimFloat.leb;
  d_eqb := PrimFloat.eqb;
  isinf := PrimFloat.is_infinity;
  INFINITY := PrimFloat.infinity;
  of_int := float_of_int;
  to_int := float_to_int
|}.

(** *** Exact reals with the IEEE special values *)

Local Open Scope R_scope.

Inductive ereal : Type :=
| Fin (r : R)
| PInf
| NInf
| NaN.

Definition Rltb (a b : R) : bool := if Rlt_dec a b then true else false.
Definition Rleb (a b : R) : bool := if Rle_dec a b then true else false.
Definition Reqb (a b : R) : bool := if Req_dec_T a b then true else false.

(** The infinity carrying the sign of [r]; [NaN] when [r] is zero. *)
Definition inf_of_sign (r : R) : ereal :=
  if Rltb 0 r then PInf else if Rltb r 0 then NInf else NaN.

Definition e_neg (a : ereal) : ereal :=
  match a with
  | Fin r => Fin (- r)
  | PInf => NInf
  | NInf => PInf
  | NaN => NaN
  end.

Definition e_add (a b : ereal) : ereal :=
  match a, b with
  | Fin r, Fin s => Fin (r + s)
  | NaN, _ | _, NaN => NaN
  | PInf, NInf | NInf, PInf => NaN
  | PInf, _ | _, PInf => PInf
  | NInf, _ | _, NInf => NInf
  end.

Definition e_sub (a b : ereal) : ereal := e_add a (e_neg b).

Definition e_mul (a b : ereal) : ereal :=
  match a, b with
  | Fin r, Fin s => Fin (r * s)
  | NaN, _ | _, NaN => NaN
  | Fin r, PInf | PInf, Fin r => inf_of_sign r
  | Fin r, NInf | NInf, Fin r => inf_of_sign (- r)
  | PInf, PInf | NInf, NInf => PInf
  | PInf, NInf | NInf, PInf => NInf
  end.

(** Zero has no sign here: a finite non-zero value divided by zero is the
    infinity of the sign of the numerator, as for IEEE [+0]. *)
Definition e_div (a b : ereal) : ereal :=
  match a, b with
  | Fin r, Fin s => if Reqb s 0 then inf_of_sign r else Fin (r / s)
  | NaN, _ | _, NaN => NaN
  | Fin _, (PInf | NInf) => Fin 0
  | PInf, Fin s => if Rltb s 0 then NInf else PInf
  | NInf, Fin s => if Rltb s 0 then PInf else NInf
  | (PInf | NInf), (PInf | NInf) => NaN
  end.

Definition e_fabs (a : ereal) : ereal :=
  match a with
  | Fin r => Fin (Rabs r)
  | PInf | NInf => PInf
  | NaN => NaN
  end.

Definition e_sqrt (a : ereal) : ereal :=
  match a with
  | Fin r => if Rltb r 0 then NaN else Fin (R_sqrt.sqrt r)
  | PInf => PInf
  | NInf | NaN => NaN
  end.

Definition e_ltb (a b : ereal) : bool :=
  match a, b with
  | Fin r, Fin s => Rltb r s
  | NaN, _ | _, NaN => false
  | NInf, (Fin _ | PInf) => true
  | Fin _, PInf => true
  | _, _ => false
  end.

Definition e_eqb (a b : ereal) : bool :=
  match a, b with
  | Fin r, Fin s => Reqb r s
  | PInf, PInf | NInf, NInf => true
  | _, _ => false
  end.

Definition e_leb (a b : ereal) : bool := e_ltb a b || e_eqb a b.

Definition e_isinf (a : ereal) : bool :=
  match a with
  | PInf | NInf => true
  | _ => false
  end.

Definition e_to_int (a : ereal) : Z :=
  match a with
  | Fin r => if Rleb 0 r then (up r - 1)%Z else (- (up (- r) - 1))%Z
  | _ => INT_MIN
  end.

#[export] Instance ereal_ops : DoubleOps ereal := {|
  d_add := e_add;
  d_sub := e_sub;
  d_mul := e_mul;
  d_div := e_div;
  d_neg := e_neg;
  d_fabs := e_fabs;
  d_sqrt := e_sqrt;
  d_ltb := e_ltb;
  d_leb := e_leb;
  d_eqb := e_eqb;
  isinf := e_isinf;
  INFINITY := PInf;
  of_int := fun z => Fin (IZR z);
  to_int := e_to_int
|}.

Local Close Scope R_scope.

(** ** class Point *)

Module Point.

Record t (D : Type) : Type := mk { x : D; y : D }.
Arguments mk {D} x y.
Arguments x {D} _.
Arguments y {D} _.

Section WithDouble.
Context {D : Type} `{DoubleOps D}.
Local Open Scope double_scope.

(** [static double Point::Robustness_Constant], process-wide. *)
Variable Robustness_Constant : D.

(** [Point::Point(const double x = INFINITY, const double y = INFINITY)]. *)
Definition default : t D := mk INFINITY INFINITY.

Definition FlipDirection (p : t D) : t D := mk (- x p) (- y p).

Definition Mult (p : t D) (factor : D) : t D := mk (factor * x p) (factor * y p).

Definition IsEqual (Test1 Test2 : t D) : bool :=
  if (x Test1 ==? x Test2) && (y Test1 ==? y Test2) then true else false.

Definition Distance (Test1 Test2 : t D) : D :=
  d_sqrt ((x Test1 - x Test2) * (x Test1 - x Test2)
          + (y Test1 - y Test2) * (y Test1 - y Test2)).

Definition FindPointAlongLine (Test1 Test2 : t D) (distance : D) : t D :=
  mk (x Test1 + (x Test2 - x Test1) * distance)
     (y Test1 + (y Test2 - y Test1) * distance).

Definition Norm (Test : t D) : D :=
  d_sqrt (x Test * x Test + y Test * y Test).

Definition AddPoints (Test1 Test2 : t D) : t D :=
  mk (x Test1 + x Test2) (y Test1 + y Test2).

Definition FindPerpDirection (Test1 Test2 : t D) (Norm : D) : t D :=
  let distance := Distance Test1 Test2 in
  if distance ==? of_int 0 then mk (of_int 0) (of_int 0)
  else mk ((y Test2 - y Test1) / distance * Norm)
          ((x Test1 - x Test2) / distance * Norm).

Definition PerpDistanceToLine (Test1 Test2 Test3 : t D) : D :=
  if d_fabs (y Test2 - y Test1) <? Robustness_Constant then
    d_fabs (y Test3 - y Test2)
  else if d_fabs (x Test2 - x Test1) <? Robustness_Constant then
    d_fabs (x Test3 - x Test2)
  else
    d_fabs ((y Test2 - y Test1) * x Test3 - (x Test2 - x Test1) * y Test3
            + x Test2 * y Test1 - y Test2 * x Test1)
    / Distance Test1 Test2.

(** The maximum of the three pairwise distances, as the two [if]s compute it. *)
Definition max_dist (Test1 Test2 Test3 : t D) : D :=
  let m0 := Distance Test1 Test2 in
  let temp := Distance Test2 Test3 in
  let m1 := if temp >? m0 then temp else m0 in
  let temp := Distance Test1 Test3 in
  if temp >? m1 then temp else m1.

Definition AreCollinear (Test1 Test2 Test3 : t D) : bool :=
  let tolerance := Robustness_Constant in
  if PerpDistanceToLine Test1 Test2 Test3 / max_dist Test1 Test2 Test3 <? tolerance
  then true else false.

Definition AreBetween (Test1 Test2 Test3 : t D) : bool :=
  if negb (AreCollinear Test1 Test2 Test3) then false
  else
    let distance := Distance Test3 Test1 / Distance Test2 Test1 in
    if (distance >? of_int 1) || (distance <? of_int 0) then false
    else if ((x Test3 - x Test1 <=? of_int 0) && (x Test2 - x Test1 <=? of_int 0))
            || ((x Test3 - x Test1 >=? of_int 0) && (x Test2 - x Test1 >=? of_int 0))
    then true
    else false.

(** The end points of the overlap of the segments [p1 p2] and [p3 p4], in the
    order of the [push_back]s. *)
Definition FindCollinearIntersection (p1 p2 p3 p4 : t D) : list (t D) :=
  let tolerance := Robustness_Constant in
  if AreBetween p1 p2 p3 then
    p3 ::
    (if AreBetween p1 p2 p4 then [p4]
     else if AreBetween p3 p4 p1 && (Distance p3 p1 >? tolerance) then [p1]
     else if AreBetween p3 p4 p2 && (Distance p3 p2 >? tolerance) then [p2]
     else [])
  else if AreBetween p1 p2 p4 then
    p4 ::
    (if AreBetween p3 p4 p1 && (Distance p4 p1 >? tolerance) then [p1]
     else if AreBetween p3 p4 p2 && (Distance p2 p4 >? tolerance) then [p2]
     else [])
  else if AreBetween p3 p4 p1 && AreBetween p3 p4 p2 then [p1; p2]
  else [].

End WithDouble.
End Point.

(** ** class Poly *)

Definition is_empty {A : Type} (v : list A) : bool :=
  match v with
  | [] => true
  | _ :: _ => false
  end.

Module Poly.

(** The private member [NPoly] caches [Vertices.size()]: the constructor and
    [SetVertices], the only writers of [Vertices], assign both together, so
    [GetNVertices] is the length of [Vertices] here. *)
Record t (D : Type) : Type := mk {
  minx : D;
  miny : D;
  maxx : D;
  maxy : D;
  Vertices : list (Point.t D)
}.
Arguments mk {D} minx miny maxx maxy Vertices.
Arguments minx {D} _.
Arguments miny {D} _.
Arguments maxx {D} _.
Arguments maxy {D} _.
Arguments Vertices {D} _.

Section WithDouble.
Context {D : Type} `{DoubleOps D}.
Local Open Scope double_scope.

Variable Robustness_Constant : D.

Definition GetVertices (p : t D) : list (Point.t D) := Vertices p.

Definition GetNVertices (p : t D) : Z := Z.of_nat (List.length (Vertices p)).

Definition GetExtrema (p : t D) : D * D * D * D :=
  (minx p, miny p, maxx p, maxy p).

(** One step of the parity count of [pnpoly] on the edge [Test_1 -> Test_2]. *)
Definition crossing (Test_1 Test_2 Test : Point.t D) (value : bool) : bool :=
  if (((Point.y Test_1 <? Point.y Test) && (Point.y Test <=? Point.y Test_2))
      || ((Point.y Test <=? Point.y Test_1) && (Point.y Test_2 <? Point.y Test)))
     && ((Point.x Test_1 <=? Point.x Test) || (Point.x Test_2 <=? Point.x Test))
  then
    if Point.x Test_1
       + (Point.y Test - Point.y Test_1) * (Point.x Test_2 - Point.x Test_1)
         / (Point.y Test_2 - Point.y Test_1)
       <? Point.x Test
    then negb value
    else value
  else value.

(** The loop of [pnpoly] over the vertices still to visit; [break] leaves it
    with [value = true]. *)
Fixpoint pnpoly_loop (Test Test_1 : Point.t D) (vs : list (Point.t D)) (value : bool)
  : bool :=
  match vs with
  | [] => value
  | Test_2 :: rest =>
      if Point.AreBetween Robustness_Constant Test_1 Test_2 Test then true
      else pnpoly_loop Test Test_2 rest (crossing Test_1 Test_2 Test value)
  end.

Definition pnpoly (p : t D) (Test : Point.t D) : outcome bool :=
  if is_empty (Vertices p) then Throw "Polygon vertices have not been initialized"
  else
    let Test_1 := last (Vertices p) Point.default in
    Ok (pnpoly_loop Test Test_1 (Vertices p) false).

(** The loop of [InitializePoly] over the vertices from index [ii] on: the
    check for an infinite coordinate, the update of the extrema, and the inner
    loop comparing [Vertices[ii]] with every later vertex. *)
Fixpoint InitializePoly_loop (vs : list (Point.t D)) (ext : D * D * D * D)
  : outcome (D * D * D * D) :=
  match vs with
  | [] => Ok ext
  | v :: rest =>
      if isinf (Point.x v) || isinf (Point.y v) then
        Throw "Polygon vertices cannot be infinite"
      else
        let '(minx, miny, maxx, maxy) := ext in
        let minx := if Point.x v <? minx then Point.x v else minx in
        let maxx := if Point.x v >? maxx then Point.x v else maxx in
        let miny := if Point.y v <? miny then Point.y v else miny in
        let maxy := if Point.y v >? maxy then Point.y v else maxy in
        if existsb (Point.IsEqual v) rest then
          Throw "Polygon Vertices must all be distinct"
        else InitializePoly_loop rest (minx, miny, maxx, maxy)
  end.

(** [InitializePoly]: the polygon it leaves behind when it returns.  (When it
    throws, the C++ object keeps the vertices just assigned; no value stands
    for that object here.) *)
Definition InitializePoly (p : t D) : outcome (t D) :=
  let minx := INFINITY in
  let maxx := - INFINITY in
  let miny := minx in
  let maxy := maxx in
  let flag := is_empty (Vertices p) in
  if negb flag && (GetNVertices p <? 3)%Z then
    Throw "List of vertices must contain at least 3 points"
  else if negb flag then
    ext <- InitializePoly_loop (Vertices p) (minx, miny, maxx, maxy) ;;
    let '(minx, miny, maxx, maxy) := ext in
    if (minx ==? maxx) || (miny ==? maxy) then
      Throw "Polygon must have non-zero nominal area"
    else Ok (mk minx miny maxx maxy (Vertices p))
  else Ok (mk minx miny maxx maxy (Vertices p)).

(** [Poly::Poly(std::vector<Point> Vertices = {})]: the extrema are not
    initialised before [InitializePoly] assigns them. *)
Definition make (Vertices : list (Point.t D)) : outcome (t D) :=
  InitializePoly (mk INFINITY INFINITY INFINITY INFINITY Vertices).

Definition SetVertices (p : t D) (Vertices : list (Point.t D)) (GetExtrema : bool)
  : outcome (t D) :=
  let p := mk (minx p) (miny p) (maxx p) (maxy p) Vertices in
  if GetExtrema then InitializePoly p
  else
    let flag := is_empty Vertices in
    if negb flag && (GetNVertices p <? 3)%Z then
      Throw "List of vertices must contain at least 3 points"
    else Ok p.

End WithDouble.
End Poly.

(** ** class Int_Params (the members the embedded code reads) *)

Module Int_Params.

Record t (D : Type) : Type := mk {
  Coefficient_a : list D;
  Coefficient_b : list D;
  Coefficient_c : list D;
  Coefficient_d : list D;
  Int : list D;
  Intx : list D;
  Inty : list D;
  Unweighted_Area : D
}.
Arguments mk {D}.
Arguments Coefficient_a {D} _.
Arguments Coefficient_b {D} _.
Arguments Coefficient_c {D} _.
Arguments Coefficient_d {D} _.
Arguments Int {D} _.
Arguments Intx {D} _.
Arguments Inty {D} _.
Arguments Unweighted_Area {D} _.

(** [Int_Params::CheckParameters], called by the constructor. *)
Definition CheckParameters {D : Type} (p : t D) : outcome unit :=
  let size := List.length (Coefficient_a p) in
  let size2 := List.length (Int p) in
  if negb (size =? List.length (Coefficient_b p))%nat then
    Throw "All integral coefficient vectors must be the same size"
  else if negb (size =? List.length (Coefficient_c p))%nat then
    Throw "All integral coefficient vectors must be the same size"
  else if negb (size =? List.length (Coefficient_d p))%nat then
    Throw "All integral coefficient vectors must be the same size"
  else if negb (size2 =? 0)%nat && negb (size2 =? size)%nat then
    Throw "If itegral vector is specified, it must be the same size as the integral coefficient vectors"
  else if negb (size2 =? List.length (Intx p))%nat then
    Throw "All integral vectors must be the same size"
  else if negb (size2 =? List.length (Inty p))%nat then
    Throw "All integral vectors must be the same size"
  else Ok tt.

End Int_Params.

(** ** class Density *)

Module Density.

Record t (D : Type) : Type := mk {
  Region : Poly.t D;
  Nx : Z;
  Ny : Z;
  dx : D;
  dy : D;
  minx : D;
  miny : D;
  maxx : D;
  maxy : D;
  Volume_Lower_Bound : D;
  Values : list D;
  GridInRegion : list bool;
  Integral : Int_Params.t D
}.
Arguments mk {D}.
Arguments Region {D} _.
Arguments Nx {D} _.
Arguments Ny {D} _.
Arguments dx {D} _.
Arguments dy {D} _.
Arguments minx {D} _.
Arguments miny {D} _.
Arguments maxx {D} _.
Arguments maxy {D} _.
Arguments Volume_Lower_Bound {D} _.
Arguments Values {D} _.
Arguments GridInRegion {D} _.
Arguments Integral {D} _.

Section WithDouble.
Context {D : Type} `{DoubleOps D}.
Local Open Scope double_scope.

Variable Robustness_Constant : D.

Definition GetRegion (d : t D) : Poly.t D := Region d.

Definition GetGridInRegion (d : t D) : list bool := GridInRegion d.

Definition SetVolumeLowerBound (d : t D) (VolumeLowerBound : D) : t D :=
  mk (Region d) (Nx d) (Ny d) (dx d) (dy d) (minx d) (miny d) (maxx d) (maxy d)
     VolumeLowerBound (Values d) (GridInRegion d) (Integral d).

Definition GetVolumeLowerBound (d : t D) : D := Volume_Lower_Bound d.

(** [ii / Ny] and [ii % Ny] on [int] truncate toward zero. *)
Definition ConvertIndextoWorld (d : t D) (ii : Z) : Point.t D :=
  let Index_x := Z.quot ii (Ny d) in
  let Index_y := Z.rem ii (Ny d) in
  Point.mk (minx d + of_int Index_x * dx d) (miny d + of_int Index_y * dy d).

(** *** Construction: [SetNewRegion], [SetParameters], [PreprocessIntegral] *)

Definition set_grid (d : t D) (Nx Ny : Z) (Values : list D) : t D :=
  mk (Region d) Nx Ny (dx d) (dy d) (minx d) (miny d) (maxx d) (maxy d)
     (Volume_Lower_Bound d) Values (GridInRegion d) (Integral d).

Definition set_dxy (d : t D) (dx dy : D) : t D :=
  mk (Region d) (Nx d) (Ny d) dx dy (minx d) (miny d) (maxx d) (maxy d)
     (Volume_Lower_Bound d) (Values d) (GridInRegion d) (Integral d).

Definition set_Values (d : t D) (Values : list D) : t D :=
  mk (Region d) (Nx d) (Ny d) (dx d) (dy d) (minx d) (miny d) (maxx d) (maxy d)
     (Volume_Lower_Bound d) Values (GridInRegion d) (Integral d).

Definition set_Integral (d : t D) (g : list bool) (Integ : Int_Params.t D) : t D :=
  mk (Region d) (Nx d) (Ny d) (dx d) (dy d) (minx d) (miny d) (maxx d) (maxy d)
     (Volume_Lower_Bound d) (Values d) g Integ.

Definition CheckParameterSizes (d : t D) : outcome (t D) :=
  let npoly := Poly.GetNVertices (Region d) in
  if (npoly =? 0)%Z then Ok (set_grid d 0 0 [])
  else if (Nx d =? 0)%Z || (Ny d =? 0)%Z then Ok (set_grid d 0 0 [])
  else if negb (Nx d * Ny d =? Z.of_nat (List.length (Values d)))%Z then
    Throw "The size of Values must be equal to Nx*Ny"
  else Ok d.

Definition Setdxy (d : t D) : t D :=
  let '(minx, miny, maxx, maxy) := Poly.GetExtrema (Region d) in
  if negb (Nx d =? 0)%Z && negb (Ny d =? 0)%Z then
    set_dxy d ((maxx - minx) / of_int (Nx d - 1)) ((maxy - miny) / of_int (Ny d - 1))
  else set_dxy d (of_int 0) (of_int 0).

(** [Values[k]]. *)
Definition Val (d : t D) (k : Z) : D := vec_get (of_int 0) (Values d) k.

(** The body of the inner loop of [CreateIntegralCoefficients]; the state is
    [(GridInRegion, Integral, yval)]. *)
Definition Coefficients_cell (d : t D) (xval : D) (ii jj : Z)
  (st : list bool * Int_Params.t D * D) : outcome (list bool * Int_Params.t D * D) :=
  let '(Grid, Integ, yval) := st in
  b <- Poly.pnpoly Robustness_Constant (Region d) (ConvertIndextoWorld d (ii * Ny d + jj)) ;;
  let Grid := Grid ++ [b] in
  let gamma :=
    - (of_int 1 / (dx d * dy d))
    * (Val d (ii * Ny d + jj) + Val d ((ii + 1) * Ny d + jj)
       - Val d (ii * Ny d + jj) - Val d ((ii + 1) * Ny d + jj + 1)) in
  let eta := (Val d ((ii + 1) * Ny d + jj) - Val d (ii * Ny d + jj)) / dx d in
  let xi := - (Val d (ii * Ny d + jj) - Val d (ii * Ny d + jj + 1)) / dy d in
  let a := - gamma * yval + eta in
  let b := - gamma * xval + xi in
  let c := gamma in
  let d' := xval * yval * gamma - yval * xi - xval * eta + Val d (ii * Ny d + jj) in
  let Integ :=
    Int_Params.mk
      (Int_Params.Coefficient_a Integ ++ [a]) (Int_Params.Coefficient_b Integ ++ [b])
      (Int_Params.Coefficient_c Integ ++ [c]) (Int_Params.Coefficient_d Integ ++ [d'])
      (Int_Params.Int Integ) (Int_Params.Intx Integ) (Int_Params.Inty Integ)
      (Int_Params.Unweighted_Area Integ) in
  if (jj =? Ny d - 2)%Z then
    b' <- Poly.pnpoly Robustness_Constant (Region d)
            (ConvertIndextoWorld d (ii * Ny d + jj + 1)) ;;
    Ok (Grid ++ [b'], Integ, yval)
  else Ok (Grid, Integ, yval + dy d).

(** The body of its outer loop; the state is [(GridInRegion, Integral, yval, xval)]. *)
Definition Coefficients_column (d : t D) (ii : Z)
  (st : list bool * Int_Params.t D * D * D)
  : outcome (list bool * Int_Params.t D * D * D) :=
  let '(Grid, Integ, yval, xval) := st in
  let yval := miny d in
  st <- for_loop (Z.to_nat (Ny d - 1)) 0 (Coefficients_cell d xval ii) (Grid, Integ, yval) ;;
  let '(Grid, Integ, yval) := st in
  if (ii =? Nx d - 2)%Z then
    let yval := miny d in
    st <- for_loop (Z.to_nat (Ny d)) 0
            (fun jj '(Grid, yval) =>
               b <- Poly.pnpoly Robustness_Constant (Region d)
                      (ConvertIndextoWorld d ((ii + 1) * Ny d + jj)) ;;
               Ok (Grid ++ [b], yval + dy d))
            (Grid, yval) ;;
    let '(Grid, yval) := st in
    Ok (Grid, Integ, yval, xval)
  else Ok (Grid, Integ, yval, xval + dx d).

Definition CreateIntegralCoefficients (d : t D) : outcome (t D) :=
  let New := Int_Params.mk [] [] [] [] [] [] [] (of_int 0) in
  st <- for_loop (Z.to_nat (Nx d - 1)) 0 (Coefficients_column d)
          ([], New, miny d, minx d) ;;
  let '(Grid, Integ, _, _) := st in
  Ok (set_Integral d Grid Integ).

(** The body of the inner loop of [CreateIntegralVector]; the state is
    [(Integral, total, index, yval1)]. *)
Definition IntegralVector_cell (d : t D) (xval xval1 : D) (ii jj : Z)
  (st : Int_Params.t D * D * Z * D) : outcome (Int_Params.t D * D * Z * D) :=
  let '(Integ, total, index, yval1) := st in
  let yval := yval1 in
  let yval1 := yval + dy d in
  let ca := vec_get (of_int 0) (Int_Params.Coefficient_a Integ) index in
  let cb := vec_get (of_int 0) (Int_Params.Coefficient_b Integ) index in
  let cc := vec_get (of_int 0) (Int_Params.Coefficient_c Integ) index in
  let cd := vec_get (of_int 0) (Int_Params.Coefficient_d Integ) index in
  let x2 := xval1 * xval1 - xval * xval in
  let y2 := yval1 * yval1 - yval * yval in
  let x3 := xval1 * xval1 * xval1 - xval * xval * xval in
  let y3 := yval1 * yval1 * yval1 - yval * yval * yval in
  let result :=
    dy d * dx d * cd + dy d * x2 / of_int 2 * ca + dx d * y2 / of_int 2 * cb
    + y2 * x2 / of_int 4 * cc in
  let resultx :=
    dy d * x2 * cd / of_int 2 + dy d * x3 * ca / of_int 3 + x2 * y2 / of_int 4 * cb
    + y2 * x3 / of_int 6 * cc in
  let resulty :=
    y2 * dx d * cd / of_int 2 + y2 * x2 / of_int 4 * ca + dx d * y3 / of_int 3 * cb
    + y3 * x2 / of_int 6 * cc in
  let Integ :=
    Int_Params.mk
      (Int_Params.Coefficient_a Integ) (Int_Params.Coefficient_b Integ)
      (Int_Params.Coefficient_c Integ) (Int_Params.Coefficient_d Integ)
      (Int_Params.Int Integ ++ [result]) (Int_Params.Intx Integ ++ [resultx])
      (Int_Params.Inty Integ ++ [resulty]) (Int_Params.Unweighted_Area Integ) in
  b00 <- Poly.pnpoly Robustness_Constant (Region d) (ConvertIndextoWorld d (ii * Ny d + jj)) ;;
  st' <-
    (if b00 then
       b10 <- Poly.pnpoly Robustness_Constant (Region d)
                (ConvertIndextoWorld d ((ii + 1) * Ny d + jj)) ;;
       if b10 then
         b01 <- Poly.pnpoly Robustness_Constant (Region d)
                  (ConvertIndextoWorld d (ii * Ny d + jj + 1)) ;;
         if b01 then
           b11 <- Poly.pnpoly Robustness_Constant (Region d)
                    (ConvertIndextoWorld d ((ii + 1) * Ny d + jj + 1)) ;;
           if b11 then
             Ok (Int_Params.mk
                   (Int_Params.Coefficient_a Integ) (Int_Params.Coefficient_b Integ)
                   (Int_Params.Coefficient_c Integ) (Int_Params.Coefficient_d Integ)
                   (Int_Params.Int Integ) (Int_Params.Intx Integ) (Int_Params.Inty Integ)
                   (Int_Params.Unweighted_Area Integ + dx d * dy d),
                 total + result)
           else Ok (Integ, total)
         else Ok (Integ, total)
       else Ok (Integ, total)
     else Ok (Integ, total)) ;;
  let '(Integ, total) := st' in
  Ok (Integ, total, (index + 1)%Z, yval1).

(** [CreateIntegralVector]: the field, and the returned [total]. *)
Definition CreateIntegralVector (d : t D) : outcome (t D * D) :=
  let Integ0 := Integral d in
  let Integ0 :=
    Int_Params.mk
      (Int_Params.Coefficient_a Integ0) (Int_Params.Coefficient_b Integ0)
      (Int_Params.Coefficient_c Integ0) (Int_Params.Coefficient_d Integ0)
      (Int_Params.Int Integ0) (Int_Params.Intx Integ0) (Int_Params.Inty Integ0) (of_int 0) in
  st <- for_loop (Z.to_nat (Nx d - 1)) 0
          (fun ii '(Integ, total, index, xval1) =>
             let xval := xval1 in
             let xval1 := xval + dx d in
             let yval1 := miny d in
             st <- for_loop (Z.to_nat (Ny d - 1)) 0
                     (IntegralVector_cell d xval xval1 ii) (Integ, total, index, yval1) ;;
             let '(Integ, total, index, _) := st in
             Ok (Integ, total, index, xval1))
          (Integ0, of_int 0, 0%Z, minx d) ;;
  let '(Integ, total, _, _) := st in
  Ok (set_Integral d (GridInRegion d) Integ, total).

(** [SetParameters], [PreprocessIntegral] and [NormalizeIntegralVector] call
    one another; [fuel] bounds the depth of that recursion.  The result is
    the field and the lines written to [std::cout].  In
    [if (!Values.empty())] the name [Values] is the parameter, which hides
    the member that [CheckParameterSizes] may have cleared; in
    [NormalizeIntegralVector] the call [SetParameters(Nx, Ny, Values)] passes
    the members. *)
Fixpoint SetParameters (fuel : nat) (d : t D) (Nx Ny : Z) (Values : list D)
  : outcome (t D * list string) :=
  d <- CheckParameterSizes (set_grid d Nx Ny Values) ;;
  let d := Setdxy d in
  if negb (is_empty Values) then
    (* PreprocessIntegral *)
    d <- CreateIntegralCoefficients d ;;
    r <- CreateIntegralVector d ;;
    let '(d, Total) := r in
    (* NormalizeIntegralVector *)
    if Total ==? of_int 0 then
      match fuel with
      | O => OutOfFuel
      | S fuel' =>
          let out :=
            "Warning: Density values do not have sufficient support. Treated as Uniform"%string in
          let u := of_int 1 / Int_Params.Unweighted_Area (Integral d) in
          let Values :=
            fold_left (fun v ii => vec_set v ii u)
              (map Z.of_nat (seq 0 (Z.to_nat (Density.Nx d * Density.Ny d))))
              (Density.Values d) in
          let d := set_Values d Values in
          r <- SetParameters fuel' d (Density.Nx d) (Density.Ny d) Values ;;
          let '(d, out') := r in
          Ok (d, out :: out')
      end
    else
      let n := Z.to_nat ((Density.Nx d - 1) * (Density.Ny d - 1)) in
      let Integ := Integral d in
      let scale (v : list D) :=
        fold_left (fun v ii => vec_set v ii (vec_get (of_int 0) v ii / Total))
          (map Z.of_nat (seq 0 n)) v in
      Ok (set_Integral d (GridInRegion d)
            (Int_Params.mk
               (Int_Params.Coefficient_a Integ) (Int_Params.Coefficient_b Integ)
               (Int_Params.Coefficient_c Integ) (Int_Params.Coefficient_d Integ)
               (scale (Int_Params.Int Integ)) (scale (Int_Params.Intx Integ))
               (scale (Int_Params.Inty Integ)) (Int_Params.Unweighted_Area Integ)),
          [])
  else Ok (d, []).

(** [Density::Density(Region, Nx, Ny, Values)]: [Volume_Lower_Bound(0)], then
    [SetNewRegion]; the members not yet assigned are written as [0] and
    empty. *)
Definition make (fuel : nat) (Region : Poly.t D) (Nx Ny : Z) (Values : list D)
  : outcome (t D * list string) :=
  let '(minx, miny, maxx, maxy) := Poly.GetExtrema Region in
  let d := mk Region 0%Z 0%Z (of_int 0) (of_int 0) minx miny maxx maxy (of_int 0) [] []
              (Int_Params.mk [] [] [] [] [] [] [] (of_int 0)) in
  SetParameters fuel d Nx Ny Values.

Definition InterpolateValue (d : t D) (Test : Point.t D) : D :=
  let i := to_int ((Point.x Test - minx d) / dx d) in
  let j := to_int ((Point.y Test - miny d) / dy d) in
  let p := ConvertIndextoWorld d (i * Ny d + j) in
  let '(xr, i1) :=
    if (i =? Nx d - 1)%Z then (of_int 0, i)
    else ((Point.x Test - Point.x p) / dx d, (i + 1)%Z) in
  let '(ys, j1) :=
    if (j =? Ny d - 1)%Z then (of_int 0, j)
    else ((Point.y Test - Point.y p) / dy d, (j + 1)%Z) in
  let val00 := vec_get (of_int 0) (Values d) (Ny d * i + j) in
  let val10 := vec_get (of_int 0) (Values d) (Ny d * i1 + j) in
  let val01 := vec_get (of_int 0) (Values d) (Ny d * i + j1) in
  let val11 := vec_get (of_int 0) (Values d) (Ny d * i1 + j1) in
  let val0s := val00 + (val01 - val00) * ys in
  let valr1 := val01 + (val11 - val01) * xr in
  let val1s := val10 + (val11 - val10) * ys in
  let valr0 := val00 + (val10 - val00) * xr in
  (val0s + valr0 - val00)
  + xr * (val00 + val1s - val0s - val10)
  + ys * (val00 + valr0 - val01 - valr1)
  + xr * ys * (val01 + val10 - val00 - val11).

(** [for (double ii = 0; ii < 1 - spacing; ii += spacing)]: the trip count is
    decided by floating-point comparisons, so the loop runs on fuel. *)
Fixpoint LineIntegral_loop (d : t D) (spacing : D) (p1 p2 : Point.t D)
  (fuel : nat) (ii sum previous : D) : outcome D :=
  if ii <? of_int 1 - spacing then
    match fuel with
    | O => OutOfFuel
    | S fuel' =>
        let Test :=
          Point.mk (Point.x p1 + (Point.x p2 - Point.x p1) * (ii + spacing))
                   (Point.y p1 + (Point.y p2 - Point.y p1) * (ii + spacing)) in
        let previous2 := InterpolateValue d Test in
        LineIntegral_loop d spacing p1 p2 fuel'
          (ii + spacing) (sum + (previous + previous2)) previous2
    end
  else Ok sum.

Definition LineIntegral (fuel : nat) (d : t D) (spacing : D) (p1 p2 : Point.t D)
  : outcome D :=
  if is_empty (Values d) then Throw "Values have not been set!"
  else if (spacing <=? of_int 0) || (spacing >? of_int 1) then
    Throw "Spacing cannot be less than or equal to 0 or greater than 1"
  else
    let previous := InterpolateValue d p1 in
    sum <- LineIntegral_loop d spacing p1 p2 fuel (of_int 0) (of_int 0) previous ;;
    Ok (sum * spacing * Point.Distance p1 p2 / of_int 2).

(** *** CalculateWeightedArea *)

(** The body of the inner loop over [jj] in a column the polygon's bounding
    box meets; the state is [(GridInPolyTemp, sum, y0)]. *)
Definition WeightedArea_cell (d : t D) (Test : Poly.t D)
  (miny1 maxy1 x0 : D) (ii jj : Z) (st : list bool * D * D)
  : outcome (list bool * D * D) :=
  let '(GridInPolyTemp, sum, y0) := st in
  let sizex := (Ny d - 1)%Z in
  st2 <-
    (if (y0 <? miny1) || (y0 >? maxy1) then
       Ok (vec_set GridInPolyTemp (ii * Ny d + jj) false, sum)
     else
       inside <- Poly.pnpoly Robustness_Constant Test (Point.mk x0 y0) ;;
       if inside then
         let GridInPolyTemp := vec_set GridInPolyTemp (ii * Ny d + jj) true in
         if (ii >? 0)%Z && (jj >? 0)%Z then
           if vec_get false GridInPolyTemp (ii * Ny d + jj)
              && vec_get false GridInPolyTemp ((ii - 1) * Ny d + jj)
              && vec_get false GridInPolyTemp ((ii - 1) * Ny d + jj - 1)
              && vec_get false GridInPolyTemp (ii * Ny d + jj - 1)
           then
             let index := (sizex * (ii - 1) + jj - 1)%Z in
             Ok (GridInPolyTemp,
                 sum + vec_get (of_int 0) (Int_Params.Int (Integral d)) index)
           else Ok (GridInPolyTemp, sum)
         else Ok (GridInPolyTemp, sum)
       else Ok (vec_set GridInPolyTemp (ii * Ny d + jj) false, sum)) ;;
  let '(GridInPolyTemp, sum) := st2 in
  Ok (GridInPolyTemp, sum, y0 + dy d).

(** The body of the outer loop over [ii]; the state is
    [(GridInPolyTemp, sum, y0, x0)]. *)
Definition WeightedArea_column (d : t D) (Test : Poly.t D)
  (minx1 miny1 maxx1 maxy1 : D) (ii : Z) (st : list bool * D * D * D)
  : outcome (list bool * D * D * D) :=
  let '(GridInPolyTemp, sum, y0, x0) := st in
  st' <-
    (if (x0 <? minx1) || (x0 >? maxx1) then
       for_loop (Z.to_nat (Ny d)) 0
         (fun jj '(GridInPolyTemp, sum, y0) =>
            Ok (vec_set GridInPolyTemp (ii * Ny d + jj) false, sum, y0))
         (GridInPolyTemp, sum, y0)
     else
       let y0 := miny d in
       for_loop (Z.to_nat (Ny d)) 0
         (WeightedArea_cell d Test miny1 maxy1 x0 ii)
         (GridInPolyTemp, sum, y0)) ;;
  let '(GridInPolyTemp, sum, y0) := st' in
  Ok (GridInPolyTemp, sum, y0, x0 + dx d).

(** The value of [sum] when the loops over the grid are left. *)
Definition WeightedArea_sum (d : t D) (Test : Poly.t D) : outcome D :=
  let sum := of_int 0 in
  let y0 := miny d in
  let x0 := minx d in
  let GridInPolyTemp := GetGridInRegion d in
  let '(minx1, miny1, maxx1, maxy1) := Poly.GetExtrema Test in
  st <- for_loop (Z.to_nat (Nx d)) 0
          (WeightedArea_column d Test minx1 miny1 maxx1 maxy1)
          (GridInPolyTemp, sum, y0, x0) ;;
  let '(_, sum, _, _) := st in
  Ok sum.

Definition CalculateWeightedArea (d : t D) (Test : Poly.t D) : outcome D :=
  if is_empty (Values d) then Throw "Values have not been set!"
  else
    let size := Poly.GetNVertices Test in
    if (size =? 0)%Z then Ok (Volume_Lower_Bound d)
    else
      sum <- WeightedArea_sum d Test ;;
      if sum >=? Volume_Lower_Bound d then Ok sum
      else Ok (Volume_Lower_Bound d).

(** *** CalculateCentroid *)

Definition Centroid_cell (d : t D) (Test : Poly.t D)
  (miny1 maxy1 x0 : D) (ii jj : Z) (st : list bool * D * D * D)
  : outcome (list bool * D * D * D) :=
  let '(GridInPolyTemp, sumx, sumy, y0) := st in
  let sizex := (Ny d - 1)%Z in
  st2 <-
    (if (y0 <? miny1) || (y0 >? maxy1) then
       Ok (vec_set GridInPolyTemp (ii * Ny d + jj) false, sumx, sumy)
     else
       inside <- Poly.pnpoly Robustness_Constant Test (Point.mk x0 y0) ;;
       if inside then
         let GridInPolyTemp := vec_set GridInPolyTemp (ii * Ny d + jj) true in
         if (ii >? 0)%Z && (jj >? 0)%Z then
           if vec_get false GridInPolyTemp (ii * Ny d + jj)
              && vec_get false GridInPolyTemp ((ii - 1) * Ny d + jj)
              && vec_get false GridInPolyTemp ((ii - 1) * Ny d + jj - 1)
              && vec_get false GridInPolyTemp (ii * Ny d + jj - 1)
           then
             let index := (sizex * (ii - 1) + jj - 1)%Z in
             Ok (GridInPolyTemp,
                 sumx + vec_get (of_int 0) (Int_Params.Intx (Integral d)) index,
                 sumy + vec_get (of_int 0) (Int_Params.Inty (Integral d)) index)
           else Ok (GridInPolyTemp, sumx, sumy)
         else Ok (GridInPolyTemp, sumx, sumy)
       else Ok (vec_set GridInPolyTemp (ii * Ny d + jj) false, sumx, sumy)) ;;
  let '(GridInPolyTemp, sumx, sumy) := st2 in
  Ok (GridInPolyTemp, sumx, sumy, y0 + dy d).

Definition Centroid_column (d : t D) (Test : Poly.t D)
  (minx1 miny1 maxx1 maxy1 : D) (ii : Z) (st : list bool * D * D * D * D)
  : outcome (list bool * D * D * D * D) :=
  let '(GridInPolyTemp, sumx, sumy, y0, x0) := st in
  st' <-
    (if (x0 <? minx1) || (x0 >? maxx1) then
       for_loop (Z.to_nat (Ny d)) 0
         (fun jj '(GridInPolyTemp, sumx, sumy, y0) =>
            Ok (vec_set GridInPolyTemp (ii * Ny d + jj) false, sumx, sumy, y0))
         (GridInPolyTemp, sumx, sumy, y0)
     else
       let y0 := miny d in
       for_loop (Z.to_nat (Ny d)) 0
         (Centroid_cell d Test miny1 maxy1 x0 ii)
         (GridInPolyTemp, sumx, sumy, y0)) ;;
  let '(GridInPolyTemp, sumx, sumy, y0) := st' in
  Ok (GridInPolyTemp, sumx, sumy, y0, x0 + dx d).

(** The values of [sumx] and [sumy] when the loops over the grid are left. *)
Definition Centroid_sums (d : t D) (Test : Poly.t D) : outcome (D * D) :=
  let sumx := of_int 0 in
  let sumy := of_int 0 in
  let y0 := miny d in
  let x0 := minx d in
  let GridInPolyTemp := GetGridInRegion d in
  let '(minx1, miny1, maxx1, maxy1) := Poly.GetExtrema Test in
  st <- for_loop (Z.to_nat (Nx d)) 0
          (Centroid_column d Test minx1 miny1 maxx1 maxy1)
          (GridInPolyTemp, sumx, sumy, y0, x0) ;;
  let '(_, sumx, sumy, _, _) := st in
  Ok (sumx, sumy).

Definition CalculateCentroid (d : t D) (Test : Poly.t D) (Volume : D)
  : outcome (Point.t D) :=
  if is_empty (Values d) then Throw "Values have not been set!"
  else
    let size := Poly.GetNVertices Test in
    if (size =? 0)%Z then Ok Point.default
    else
      let '(minx1, miny1, maxx1, maxy1) := Poly.GetExtrema Test in
      sums <- Centroid_sums d Test ;;
      let '(sumx, sumy) := sums in
      if Volume <=? Volume_Lower_Bound d then Ok (Point.mk minx1 miny1)
      else Ok (Point.mk (sumx / Volume) (sumy / Volume)).

End WithDouble.
End Density.

(** ** class Parameters *)

Module Parameters.

Record t (D : Type) : Type := mk {
  line_int_step : D;
  weights_step : D;
  centers_step : D;
  volume_tolerance : D;
  convergence_criterion : D;
  max_iterations_volume : Z;
  max_iterations_centers : Z;
  Volume_Lower_Bound : D;
  Robustness_Constant : D
}.
Arguments mk {D}.
Arguments line_int_step {D} _.
Arguments weights_step {D} _.
Arguments centers_step {D} _.
Arguments volume_tolerance {D} _.
Arguments convergence_criterion {D} _.
Arguments max_iterations_volume {D} _.
Arguments max_iterations_centers {D} _.
Arguments Volume_Lower_Bound {D} _.
Arguments Robustness_Constant {D} _.

Section WithDouble.
Context {D : Type} `{DoubleOps D}.
Local Open Scope double_scope.

Definition CheckParameters (p : t D) : outcome unit :=
  if line_int_step p <=? of_int 0 then
    Throw "line_int_step must be greater than 0"
  else if weights_step p <=? of_int 0 then
    Throw "weights_step must be greater than 0"
  else if (centers_step p <=? of_int 0) || (centers_step p >? of_int 1) then
    Throw "centers_step must be greater than 0 and less than or equal to 1"
  else if volume_tolerance p <=? of_int 0 then
    Throw "volume_tolerance must be greater than 0"
  else if convergence_criterion p <=? of_int 0 then
    Throw "convergence_criterion must be greater than 0"
  else if (max_iterations_volume p <=? 0)%Z then
    Throw "max_iterations_volume must be greater than 0"
  else if (max_iterations_centers p <=? 0)%Z then
    Throw "max_iterations_centers must be greater than 0"
  else if (Volume_Lower_Bound p <=? of_int 0) || (Volume_Lower_Bound p >=? of_int 1) then
    Throw "Volume_Lower_Bound must be between 0 and 1"
  else if Robustness_Constant p <=? of_int 0 then
    Throw "Robustness_Constant must be greater than 0"
  else Ok tt.

End WithDouble.
End Parameters.

(** ** class Mult_Array and class DelaunayGraph *)

(** [double **Array]: an [N] x [N] block of cells read and written by index.
    [new double[N]] leaves the cells uninitialised, so a fresh array is any
    function. *)
Definition Mult_Array (D : Type) : Type := Z -> Z -> D.

Definition Array_set {D : Type} (a : Mult_Array D) (i j : Z) (v : D) : Mult_Array D :=
  fun i' j' => if (i' =? i)%Z && (j' =? j)%Z then v else a i' j'.

Module DelaunayGraph.

(** [Point ***Graph]: entry [(i, j)] holds the two end points [Graph[i][j][0]]
    and [Graph[i][j][1]]. *)
Record t (D : Type) : Type := mk {
  Graph : Z -> Z -> Point.t D * Point.t D;
  NRegions : Z
}.
Arguments mk {D}.
Arguments Graph {D} _.
Arguments NRegions {D} _.

(** [DelaunayGraph(NRegions)]: every [new Point[2]] holds two points
    [Point()]. *)
Definition make {D : Type} `{DoubleOps D} (NRegions : Z) : t D :=
  mk (fun _ _ => (Point.default, Point.default)) NRegions.

(** [Graph[i][j][0] = a; Graph[i][j][1] = b]. *)
Definition set_entry {D : Type} (g : Z -> Z -> Point.t D * Point.t D) (i j : Z)
  (v : Point.t D * Point.t D) : Z -> Z -> Point.t D * Point.t D :=
  fun i' j' => if (i' =? i)%Z && (j' =? j)%Z then v else g i' j'.

(** The four assignments that write an entry and then copy it to the
    mirrored one: [Graph[jj][ii][k] = Graph[ii][jj][k]]. *)
Definition set_pair {D : Type} (g : Z -> Z -> Point.t D * Point.t D) (ii jj : Z)
  (v : Point.t D * Point.t D) : Z -> Z -> Point.t D * Point.t D :=
  let g := set_entry g ii jj v in
  set_entry g jj ii (g ii jj).

End DelaunayGraph.

(** ** class Partition *)

Module Partition.

Record t (D : Type) : Type := mk {
  Centers : list (Point.t D);
  Covering : list (Poly.t D);
  Weights : list D;
  Alg_Params : Parameters.t D;
  desired_area : list D;
  Prior : Density.t D;
  NRegions : Z
}.
Arguments mk {D}.
Arguments Centers {D} _.
Arguments Covering {D} _.
Arguments Weights {D} _.
Arguments Alg_Params {D} _.
Arguments desired_area {D} _.
Arguments Prior {D} _.
Arguments NRegions {D} _.

Section WithDouble.
Context {D : Type} `{DoubleOps D}.
Local Open Scope double_scope.

(** [Point::Robustness_Constant]: the constructor of [Partition] assigns it
    from [Alg_Params]; the methods read the global. *)
Variable Robustness_Constant : D.

Definition set_desired_area (p : t D) (da : list D) (prior : Density.t D) : t D :=
  mk (Centers p) (Covering p) (Weights p) (Alg_Params p) da prior (NRegions p).

Definition set_Centers (p : t D) (cs : list (Point.t D)) : t D :=
  mk cs (Covering p) (Weights p) (Alg_Params p) (desired_area p) (Prior p) (NRegions p).

Definition set_Weights (p : t D) (ws : list D) : t D :=
  mk (Centers p) (Covering p) ws (Alg_Params p) (desired_area p) (Prior p) (NRegions p).

(** *** CheckParams *)

(** The first loop of [CheckParams]: rejects an entry at most the bound, and
    accumulates the entries into [sum]. *)
Fixpoint CheckParams_sum (VLB : D) (da : list D) (sum : D) : outcome D :=
  match da with
  | [] => Ok sum
  | a :: rest =>
      if a <=? VLB then
        Throw "Entries of desired_area must be greater than Alg_Params.Volume_Lower_Bound"
      else CheckParams_sum VLB rest (sum + a)
  end.

(** The second loop: divides each entry by [sum], rejecting a quotient below
    the bound. *)
Fixpoint CheckParams_normalize (VLB : D) (sum : D) (da : list D) : outcome (list D) :=
  match da with
  | [] => Ok []
  | a :: rest =>
      let a' := a / sum in
      if a' <? VLB then
        Throw "Normalized areas too small. Decrease the number of regions, increase desired areas, or decrease Alg_Params.Volume_Lower_Bound"
      else
        rest' <- CheckParams_normalize VLB sum rest ;;
        Ok (a' :: rest')
  end.

(** [CheckParams]: what it writes to [std::cout], and the partition it leaves
    when it returns.  ([std::vector<double> temp(NRegions, v)] with a negative
    count throws [std::length_error].) *)
Definition CheckParams (p : t D) : list string * outcome (t D) :=
  let VLB := Parameters.Volume_Lower_Bound (Alg_Params p) in
  let prior := Density.SetVolumeLowerBound (Prior p) VLB in
  let sum := of_int 0 in
  if negb (NRegions p =? 0)%Z && is_empty (desired_area p) then
    if VLB <=? of_int 1 / of_int (NRegions p) then
      if (NRegions p <? 0)%Z then
        ([], Throw "cannot create std::vector larger than max_size()")
      else
        let temp := repeat (of_int 1 / of_int (NRegions p)) (Z.to_nat (NRegions p)) in
        ([], Ok (set_desired_area p temp prior))
    else
      ([], Throw "Volume_Lower_Bound is too large for the number of regions. Try making Volume_Lower_Bound smaller or decreasing the number of regions")
  else if negb (Z.of_nat (List.length (desired_area p)) =? NRegions p)%Z then
    ([], Throw "The size of desired_area must equal NRegions")
  else
    match CheckParams_sum VLB (desired_area p) sum with
    | Ok sum =>
        if sum !=? of_int 1 then
          let out :=
            ["Warning: desired_areas not normalized; will be normalized automatically"%string] in
          (out,
           da <- CheckParams_normalize VLB sum (desired_area p) ;;
           Ok (set_desired_area p da prior))
        else ([], Ok (set_desired_area p (desired_area p) prior))
    | Throw msg => ([], Throw msg)
    | OutOfFuel => ([], OutOfFuel)
    end.

(** *** GradientStepCenter *)

(** The body of the loop; the state is [(Centers, Err)], [Error] written [Err]. *)
Definition GradientStepCenter_body (p : t D) (volumes : list D) (ii : Z)
  (st : list (Point.t D) * D) : outcome (list (Point.t D) * D) :=
  let '(Centers, Err) := st in
  let Center_ii := vec_get Point.default Centers ii in
  let Center_ii := Point.FlipDirection Center_ii in
  Center <- Density.CalculateCentroid Robustness_Constant (Prior p)
              (vec_get (Poly.mk INFINITY INFINITY INFINITY INFINITY []) (Covering p) ii)
              (vec_get (of_int 0) volumes ii) ;;
  let Errorxy := Point.AddPoints Center Center_ii in
  let Err := Err + Point.Norm Errorxy in
  let Errorxy := Point.Mult Errorxy (Parameters.centers_step (Alg_Params p)) in
  let Centers :=
    vec_set Centers ii (Point.AddPoints (vec_get Point.default Centers ii) Errorxy) in
  Ok (Centers, Err).

(** [double GradientStepCenter(volumes)]: the partition with its centers
    moved, and the returned [Error]. *)
Definition GradientStepCenter (p : t D) (volumes : list D) : outcome (t D * D) :=
  let Err := of_int 0 in
  st <- for_loop (Z.to_nat (NRegions p)) 0 (GradientStepCenter_body p volumes)
          (Centers p, Err) ;;
  let '(Centers, Err) := st in
  Ok (set_Centers p Centers, Err).

(** *** GradientStepWeights *)

(** The local state of [GradientStepWeights]. *)
Record gsw_state : Type := mk_gsw {
  totals : list D;
  integrals : Mult_Array D;
  dist : Mult_Array D;
  InvAreaDist : Mult_Array D;
  gsw_Weights : list D
}.

(** The body of the first inner loop ([jj] from [ii + 1]). *)
Definition GradientStepWeights_upper (fuel : nat) (p : t D) (volumes : list D)
  (SharedEdges : DelaunayGraph.t D) (ii jj : Z) (st : gsw_state) : outcome gsw_state :=
  let dist := Array_set (dist st) ii jj
                (Point.Distance (vec_get Point.default (Centers p) ii)
                                (vec_get Point.default (Centers p) jj)) in
  let dist := Array_set dist jj ii (dist ii jj) in
  let InvAreaDist := Array_set (InvAreaDist st) ii jj
                       (vec_get (of_int 0) (desired_area p) jj / vec_get (of_int 0) volumes jj
                        - vec_get (of_int 0) (desired_area p) ii / vec_get (of_int 0) volumes ii) in
  let InvAreaDist := Array_set InvAreaDist jj ii (- InvAreaDist ii jj) in
  v <- (if negb (isinf (Point.x (snd (DelaunayGraph.Graph SharedEdges ii jj)))) then
          Density.LineIntegral fuel (Prior p)
            (Parameters.line_int_step (Alg_Params p))
            (fst (DelaunayGraph.Graph SharedEdges ii jj))
            (snd (DelaunayGraph.Graph SharedEdges ii jj))
        else Ok (of_int 0)) ;;
  let integrals := Array_set (integrals st) ii jj v in
  let integrals := Array_set integrals jj ii (integrals ii jj) in
  let totals :=
    vec_set (totals st) ii
      (vec_get (of_int 0) (totals st) ii
       + InvAreaDist ii jj * (of_int 1 / dist ii jj) * integrals ii jj) in
  Ok (mk_gsw totals integrals dist InvAreaDist (gsw_Weights st)).

(** The body of the second inner loop ([jj] below [ii]). *)
Definition GradientStepWeights_lower (ii jj : Z) (st : gsw_state) : outcome gsw_state :=
  let totals :=
    vec_set (totals st) ii
      (vec_get (of_int 0) (totals st) ii
       + InvAreaDist st ii jj * (of_int 1 / dist st ii jj) * integrals st ii jj) in
  Ok (mk_gsw totals (integrals st) (dist st) (InvAreaDist st) (gsw_Weights st)).

(** The body of the outer loop. *)
Definition GradientStepWeights_body (fuel : nat) (p : t D) (volumes : list D)
  (SharedEdges : DelaunayGraph.t D) (ii : Z) (st : gsw_state) : outcome gsw_state :=
  let st := mk_gsw (vec_set (totals st) ii (of_int 0))
                   (Array_set (integrals st) ii ii (of_int 0))
                   (Array_set (dist st) ii ii (of_int 0))
                   (Array_set (InvAreaDist st) ii ii (of_int 0))
                   (gsw_Weights st) in
  st <- for_loop (Z.to_nat (NRegions p - (ii + 1))) (ii + 1)
          (GradientStepWeights_upper fuel p volumes SharedEdges ii) st ;;
  st <- for_loop (Z.to_nat ii) 0 (GradientStepWeights_lower ii) st ;;
  let W := gsw_Weights st in
  let W :=
    if (Poly.GetNVertices
          (vec_get (Poly.mk INFINITY INFINITY INFINITY INFINITY []) (Covering p) ii) =? 0)%Z
    then
      vec_set W ii (vec_get (of_int 0) W ii
                    + Parameters.weights_step (Alg_Params p) * of_int 2)
    else
      vec_set W ii (vec_get (of_int 0) W ii
                    + - vec_get (of_int 0) (totals st) ii
                      * Parameters.weights_step (Alg_Params p)) in
  Ok (mk_gsw (totals st) (integrals st) (dist st) (InvAreaDist st) W).

(** [GradientStepWeights(volumes, SharedEdges)].  [garbage] is the content of
    the freshly allocated arrays. *)
Definition GradientStepWeights (fuel : nat) (garbage : Mult_Array D) (p : t D)
  (volumes : list D) (SharedEdges : DelaunayGraph.t D) : outcome (t D) :=
  let totals := repeat (of_int 0) (Z.to_nat (NRegions p)) in
  st <- for_loop (Z.to_nat (NRegions p)) 0
          (GradientStepWeights_body fuel p volumes SharedEdges)
          (mk_gsw totals garbage garbage garbage (Weights p)) ;;
  Ok (set_Weights p (gsw_Weights st)).

(** *** The constructor and SetPartitionVariables *)

(** [Partition::Partition(NRegions, Prior, desired_area, Alg_Params)]: the new
    value of [Point::Robustness_Constant], what [CheckParams] writes to
    [std::cout], and the partition.  The other members are empty vectors. *)
Definition make (NRegions : Z) (Prior : Density.t D) (desired_area : list D)
  (Alg_Params : Parameters.t D) : D * (list string * outcome (t D)) :=
  (Parameters.Robustness_Constant Alg_Params,
   CheckParams (mk [] [] [] Alg_Params desired_area Prior NRegions)).

Definition SetPartitionVariables (p : t D) (NRegions : Z) (Prior : Density.t D)
  (desired_area : list D) : list string * outcome (t D) :=
  CheckParams (mk (Centers p) (Covering p) (Weights p) (Alg_Params p) desired_area Prior
                  NRegions).

(** *** CreateDefaultCenters and InitializePartition *)

Definition set_Covering (p : t D) (cov : list (Poly.t D)) : t D :=
  mk (Centers p) cov (Weights p) (Alg_Params p) (desired_area p) (Prior p) (NRegions p).

(** The loop of [CreateDefaultCenters(Region, multiplier)] from index [ii] on,
    [n] iterations left; the result is [Centers] and the returned flag. *)
Fixpoint CreateDefaultCenters_loop (Region : Poly.t D) (p1 p2 perp : Point.t D)
  (spacing : D) (n : nat) (ii : Z) (Centers : list (Point.t D))
  : outcome (list (Point.t D) * bool) :=
  match n with
  | O => Ok (Centers, true)
  | S n' =>
      let c := Point.AddPoints
                 (Point.FindPointAlongLine p1 p2 (spacing * of_int (ii + 1))) perp in
      let Centers := Centers ++ [c] in
      inside <- Poly.pnpoly Robustness_Constant Region c ;;
      if negb inside then Ok (Centers, false)
      else CreateDefaultCenters_loop Region p1 p2 perp spacing n' (ii + 1) Centers
  end.

(** [bool CreateDefaultCenters(Region, multiplier)].  The literal [0.5] is
    [1/2] exactly.  [Vertices[0]] and [Vertices[1]] of a region without
    vertices are undefined in C++; they read as [Point()] here. *)
Definition CreateDefaultCenters (p : t D) (Region : Poly.t D) (multiplier : D)
  : outcome (t D * bool) :=
  let Vertices := Poly.GetVertices Region in
  let p1 := vec_get Point.default Vertices 0 in
  let p2 := vec_get Point.default Vertices 1 in
  let perp := Point.FindPerpDirection p1 p2 multiplier in
  let spacing := of_int 1 / of_int (NRegions p + 1) in
  inside <- Poly.pnpoly Robustness_Constant Region
              (Point.AddPoints (Point.FindPointAlongLine p1 p2 (of_int 1 / of_int 2)) perp) ;;
  let perp := if negb inside then Point.FlipDirection perp else perp in
  r <- CreateDefaultCenters_loop Region p1 p2 perp spacing (Z.to_nat (NRegions p)) 0 [] ;;
  let '(Centers, ok) := r in
  Ok (set_Centers p Centers, ok).

(** The loop of [CreateDefaultCenters(Region, initial_multiplier, max_steps)]
    from index [ii] on, [n] iterations left. *)
Fixpoint CreateDefaultCenters_steps (p : t D) (Region : Poly.t D) (multiplier : D)
  (max_steps : Z) (n : nat) (ii : Z) : outcome (t D) :=
  match n with
  | O => Ok p
  | S n' =>
      r <- CreateDefaultCenters p Region multiplier ;;
      let '(p, ok) := r in
      if ok then Ok p
      else if (ii =? max_steps)%Z then Throw "Unable to Create Default Centers"
      else CreateDefaultCenters_steps p Region (multiplier / of_int 2) max_steps n' (ii + 1)
  end.

Definition CreateDefaultCenters_retry (p : t D) (Region : Poly.t D)
  (initial_multiplier : D) (max_steps : Z) : outcome (t D) :=
  CreateDefaultCenters_steps p Region initial_multiplier max_steps
    (Z.to_nat (max_steps + 1)) 0.

(** The loop of [InitializePartition] over the given centers. *)
Fixpoint InitializePartition_check (Region : Poly.t D) (Centers : list (Point.t D))
  : outcome unit :=
  match Centers with
  | [] => Ok tt
  | c :: rest =>
      inside <- Poly.pnpoly Robustness_Constant Region c ;;
      if negb inside then Throw "Centers must be located inside the region of interest"
      else InitializePartition_check Region rest
  end.

(** [InitializePartition(Centers, Weights)].  [std::vector<Poly> temp(NRegions)]
    holds [NRegions] polygons [Poly()] (a negative count throws
    [std::length_error]); the literal [10e-3] is the double nearest to [1/100],
    which is what the division gives. *)
Definition InitializePartition (p : t D) (Centers : list (Point.t D)) (Weights : list D)
  : outcome (t D) :=
  let Region := Density.GetRegion (Prior p) in
  if (NRegions p <? 0)%Z then Throw "cannot create std::vector larger than max_size()"
  else
    let temp := repeat (Poly.mk INFINITY INFINITY (- INFINITY) (- INFINITY) [])
                  (Z.to_nat (NRegions p)) in
    p <- (if negb (NRegions p =? 0)%Z && is_empty Centers then
            let max_steps := 10%Z in
            let initial_multiplier := of_int 1 / of_int 100 in
            CreateDefaultCenters_retry p Region initial_multiplier max_steps
          else if negb (Z.of_nat (List.length Centers) =? NRegions p)%Z then
            Throw "Centers must be the same size as NRegions!"
          else
            _ <- InitializePartition_check Region Centers ;;
            Ok (set_Centers p Centers)) ;;
    p <- (if negb (NRegions p =? 0)%Z && is_empty Weights then
            Ok (set_Weights p (Partition.Weights p ++ repeat (of_int 0) (Z.to_nat (NRegions p))))
          else if negb (Z.of_nat (List.length Weights) =? NRegions p)%Z then
            Throw "Weights must be the same size as NRegions"
          else Ok (set_Weights p Weights)) ;;
    Ok (set_Covering p temp).

(** *** CreateDelaunayGraph *)

(** [pi1], [pi2] for the index [kk]: a vertex and the next one, the first
    after the last. *)
Definition edge_at (Vert : list (Point.t D)) (NPoly kk : Z) : Point.t D * Point.t D :=
  (vec_get Point.default Vert kk,
   if (kk <? NPoly - 1)%Z then vec_get Point.default Vert (kk + 1)
   else vec_get Point.default Vert 0).

(** The loop over [pp], [n] iterations left; the result is the graph and
    [flag]. *)
Fixpoint CreateDelaunayGraph_pp (pi1 pi2 : Point.t D) (Vert_jj : list (Point.t D))
  (NPoly_jj ii jj : Z) (n : nat) (pp : Z) (G : Z -> Z -> Point.t D * Point.t D)
  : (Z -> Z -> Point.t D * Point.t D) * bool :=
  match n with
  | O => (G, false)
  | S n' =>
      let '(pj1, pj2) := edge_at Vert_jj NPoly_jj pp in
      if Point.AreCollinear Robustness_Constant pi1 pi2 pj1
         && Point.AreCollinear Robustness_Constant pi1 pi2 pj2
      then
        match Point.FindCollinearIntersection Robustness_Constant pi1 pi2 pj1 pj2 with
        | [] =>
            CreateDelaunayGraph_pp pi1 pi2 Vert_jj NPoly_jj ii jj n' (pp + 1)
              (DelaunayGraph.set_pair G ii jj (Point.default, Point.default))
        | [t0] =>
            CreateDelaunayGraph_pp pi1 pi2 Vert_jj NPoly_jj ii jj n' (pp + 1)
              (DelaunayGraph.set_pair G ii jj (t0, Point.default))
        | t0 :: t1 :: _ => (DelaunayGraph.set_pair G ii jj (t0, t1), true)
        end
      else CreateDelaunayGraph_pp pi1 pi2 Vert_jj NPoly_jj ii jj n' (pp + 1) G
  end.

(** The loop over [kk], left as soon as [flag] is set. *)
Fixpoint CreateDelaunayGraph_kk (Vert_ii Vert_jj : list (Point.t D))
  (NPoly_ii NPoly_jj ii jj : Z) (n : nat) (kk : Z)
  (G : Z -> Z -> Point.t D * Point.t D) : Z -> Z -> Point.t D * Point.t D :=
  match n with
  | O => G
  | S n' =>
      let '(pi1, pi2) := edge_at Vert_ii NPoly_ii kk in
      let '(G, flag) :=
        CreateDelaunayGraph_pp pi1 pi2 Vert_jj NPoly_jj ii jj (Z.to_nat NPoly_jj) 0 G in
      if flag then G
      else CreateDelaunayGraph_kk Vert_ii Vert_jj NPoly_ii NPoly_jj ii jj n' (kk + 1) G
  end.

(** The loop over [jj] from [ii + 1]. *)
Fixpoint CreateDelaunayGraph_jj (p : t D) (ii : Z) (n : nat) (jj : Z)
  (G : Z -> Z -> Point.t D * Point.t D) : Z -> Z -> Point.t D * Point.t D :=
  match n with
  | O => G
  | S n' =>
      let Cov_ii := vec_get (Poly.mk INFINITY INFINITY INFINITY INFINITY []) (Covering p) ii in
      let Cov_jj := vec_get (Poly.mk INFINITY INFINITY INFINITY INFINITY []) (Covering p) jj in
      let G :=
        CreateDelaunayGraph_kk (Poly.GetVertices Cov_ii) (Poly.GetVertices Cov_jj)
          (Poly.GetNVertices Cov_ii) (Poly.GetNVertices Cov_jj) ii jj
          (Z.to_nat (Poly.GetNVertices Cov_ii)) 0 G in
      CreateDelaunayGraph_jj p ii n' (jj + 1) G
  end.

(** The loop over [ii]. *)
Fixpoint CreateDelaunayGraph_ii (p : t D) (n : nat) (ii : Z)
  (G : Z -> Z -> Point.t D * Point.t D) : Z -> Z -> Point.t D * Point.t D :=
  match n with
  | O => G
  | S n' =>
      CreateDelaunayGraph_ii p n' (ii + 1)
        (CreateDelaunayGraph_jj p ii (Z.to_nat (NRegions p - (ii + 1))) (ii + 1) G)
  end.

(** [CreateDelaunayGraph(Delaunay)]: the graph it leaves in [Delaunay]. *)
Definition CreateDelaunayGraph (p : t D) (Delaunay : DelaunayGraph.t D)
  : outcome (DelaunayGraph.t D) :=
  if negb (DelaunayGraph.NRegions Delaunay =? NRegions p)%Z then
    Throw "DelaunayGraph has inconsistent sizes"
  else
    Ok (DelaunayGraph.mk
          (CreateDelaunayGraph_ii p (Z.to_nat (NRegions p)) 0 (DelaunayGraph.Graph Delaunay))
          (DelaunayGraph.NRegions Delaunay)).

(** *** GradientStepCenter(temp_step, volumes) *)

Definition GradientStepCenter_temp_step (p : t D) (temp_step : D) (volumes : list D)
  : outcome (t D) :=
  if (temp_step <=? of_int 0) || (temp_step >? of_int 1) then
    Throw "temp_step must be between 0 and 1 (can be equal to 1, but not zero)"
  else
    Centers <- for_loop (Z.to_nat (NRegions p)) 0
                 (fun ii Centers =>
                    Center <- Density.CalculateCentroid Robustness_Constant (Prior p)
                                (vec_get (Poly.mk INFINITY INFINITY INFINITY INFINITY [])
                                   (Covering p) ii)
                                (vec_get (of_int 0) volumes ii) ;;
                    Ok (vec_set Centers ii
                          (Point.FindPointAlongLine (vec_get Point.default Centers ii)
                             Center temp_step)))
                 (Centers p) ;;
    Ok (set_Centers p Centers).

(** *** CalculateError and CalculateVolumes *)

Definition CalculateError (p : t D) (volumes : list D) : D :=
  fold_left
    (fun sum jj =>
       sum + d_fabs (vec_get (of_int 0) volumes jj - vec_get (of_int 0) (desired_area p) jj)
             * d_fabs (vec_get (of_int 0) volumes jj - vec_get (of_int 0) (desired_area p) jj))
    (map Z.of_nat (seq 0 (Z.to_nat (NRegions p)))) (of_int 0).

(** [std::vector<double> result(NRegions)] holds [NRegions] zeros (a negative
    count throws [std::length_error]). *)
Definition CalculateVolumes (p : t D) : outcome (list D) :=
  if (NRegions p <? 0)%Z then Throw "cannot create std::vector larger than max_size()"
  else
    for_loop (Z.to_nat (NRegions p)) 0
      (fun jj result =>
         v <- Density.CalculateWeightedArea Robustness_Constant (Prior p)
                (vec_get (Poly.mk INFINITY INFINITY INFINITY INFINITY []) (Covering p) jj) ;;
         Ok (vec_set result jj v))
      (repeat (of_int 0) (Z.to_nat (NRegions p))).

End WithDouble.
End Partition.

(** ** The data-model invariant of a polygon (specification, section 3) *)

Section PolyInvariant.
Context {D : Type} `{DoubleOps D}.
Local Open Scope double_scope.

(** No vertex is [IsEqual] to a later one. *)
Fixpoint pairwise_distinct (vs : list (Point.t D)) : bool :=
  match vs with
  | [] => true
  | v :: rest => negb (existsb (Point.IsEqual v) rest) && pairwise_distinct rest
  end.

Definition no_infinite_coordinate (v : Point.t D) : bool :=
  negb (isinf (Point.x v)) && negb (isinf (Point.y v)).

(** Empty, or at least three vertices, pairwise distinct, none with an
    infinite coordinate, and a cached bounding box that is not degenerate. *)
Definition data_model_invariant (p : Poly.t D) : bool :=
  is_empty (Poly.Vertices p)
  || ((3 <=? List.length (Poly.Vertices p))%nat
      && pairwise_distinct (Poly.Vertices p)
      && forallb no_infinite_coordinate (Poly.Vertices p)
      && (Poly.minx p !=? Poly.maxx p)
      && (Poly.miny p !=? Poly.maxy p)).

(** The extrema as the loop of [InitializePoly] updates them, vertex by vertex. *)
Definition extrema_step (ext : D * D * D * D) (v : Point.t D) : D * D * D * D :=
  let '(minx, miny, maxx, maxy) := ext in
  (if Point.x v <? minx then Point.x v else minx,
   if Point.y v <? miny then Point.y v else miny,
   if Point.x v >? maxx then Point.x v else maxx,
   if Point.y v >? maxy then Point.y v else maxy).

Definition bounding_box (vs : list (Point.t D)) : D * D * D * D :=
  fold_left extrema_step vs (INFINITY, INFINITY, - INFINITY, - INFINITY).

Definition poly_of_box (ext : D * D * D * D) (vs : list (Point.t D)) : Poly.t D :=
  let '(minx, miny, maxx, maxy) := ext in Poly.mk minx miny maxx maxy vs.

Definition box_degenerate (ext : D * D * D * D) : bool :=
  let '(minx, miny, maxx, maxy) := ext in (minx ==? maxx) || (miny ==? maxy).

(** The pairs [(Test_1, Test_2)] that the loop of [pnpoly] visits: every vertex
    with the vertex before it, the first with the last. *)
Fixpoint edges_from (Test_1 : Point.t D) (vs : list (Point.t D))
  : list (Point.t D * Point.t D) :=
  match vs with
  | [] => []
  | Test_2 :: rest => (Test_1, Test_2) :: edges_from Test_2 rest
  end.

Definition edges (p : Poly.t D) : list (Point.t D * Point.t D) :=
  edges_from (last (Poly.Vertices p) Point.default) (Poly.Vertices p).

(** The documented result of [GradientStepCenter] ("the sum of the squares of
    the Euclidean distance moved by each of the centers"), from the centers
    before and after the step. *)
Definition sum_squared_displacement (before after : list (Point.t D)) : D :=
  fold_left (fun acc '(a, b) => acc + Point.Distance a b * Point.Distance a b)
    (combine before after) (of_int 0).

End PolyInvariant.

(** ** Points with real coordinates *)

Module Ideal.

Definition pt (a b : R) : Point.t ereal := Point.mk (Fin a) (Fin b).

Definition of_pair (v : R * R) : Point.t ereal := pt (fst v) (snd v).

(** The Euclidean distance of [(x1, y1)] and [(x2, y2)]. *)
Definition rdist (x1 y1 x2 y2 : R) : R :=
  R_sqrt.sqrt ((x1 - x2) * (x1 - x2) + (y1 - y2) * (y1 - y2))%R.

(** [Poly] of the unit square. *)
Definition unit_square_vertices : list (R * R) :=
  [(0, 0); (1, 0); (1, 1); (0, 1)]%R.

Definition unit_square : Poly.t ereal :=
  Poly.mk (Fin 0) (Fin 0) (Fin 1) (Fin 1) (map of_pair unit_square_vertices).

Local Open Scope R_scope.

(** The uniform density on the unit square, sampled on a 2 x 2 grid, with
    [Volume_Lower_Bound = 1/8]. *)
Definition uniform_field : Density.t ereal :=
  Density.mk unit_square 2 2 (Fin 1) (Fin 1) (Fin 0) (Fin 0) (Fin 1) (Fin 1) (Fin (/ 8))
    [Fin 1; Fin 1; Fin 1; Fin 1] [true; true; true; true]
    (Int_Params.mk [Fin 0] [Fin 0] [Fin 0] [Fin 1] [Fin 1] [Fin (/ 2)] [Fin (/ 2)] (Fin 1)).

(** The grid and the values of a density on the unit square with the values
    [1], [2], [3], [5] at the corners [(0, 0)], [(0, 1)], [(1, 0)], [(1, 1)];
    the integral vectors, which [InterpolateValue] does not read, are left
    empty. *)
Definition sample_field : Density.t ereal :=
  Density.mk unit_square 2 2 (Fin 1) (Fin 1) (Fin 0) (Fin 0) (Fin 1) (Fin 1) (Fin 0)
    [Fin 1; Fin 2; Fin 3; Fin 5] [true; true; true; true]
    (Int_Params.mk [] [] [] [] [] [] [] (Fin 0)).

(** Algorithm parameters in the documented ranges; [line_int_step = 1/2],
    [weights_step = 1/8]. *)
Definition params : Parameters.t ereal :=
  Parameters.mk (Fin (/ 2)) (Fin (/ 8)) (Fin 1) (Fin (/ 512)) (Fin (/ 64)) 200 500
    (Fin (/ 8)) (Fin (/ 1024)).

(** The two halves of the unit square, left and right of [x = 1/2]. *)
Definition left_half : Poly.t ereal :=
  Poly.mk (Fin 0) (Fin 0) (Fin (/ 2)) (Fin 1)
    (map of_pair [(0, 0); (/ 2, 0); (/ 2, 1); (0, 1)]).

Definition right_half : Poly.t ereal :=
  Poly.mk (Fin (/ 2)) (Fin 0) (Fin 1) (Fin 1)
    (map of_pair [(/ 2, 0); (1, 0); (1, 1); (/ 2, 1)]).

Definition half_centers (i : nat) : R * R :=
  match i with O => (/ 4, / 2) | _ => (3 / 4, / 2) end.

Definition half_areas (i : nat) : R :=
  match i with O => / 4 | _ => 3 / 4 end.

(** The two halves share the segment from [(1/2, 0)] to [(1/2, 1)]. *)
Definition half_graph : DelaunayGraph.t ereal :=
  DelaunayGraph.mk
    (fun i j => if ((i =? 0)%Z && (j =? 1)%Z) || ((i =? 1)%Z && (j =? 0)%Z)
                then (pt (/ 2) 0, pt (/ 2) 1)
                else (Point.default, Point.default))
    2.

(** Two regions, the halves of the unit square, with desired areas [1/4] and
    [3/4] and weights [0]. *)
Definition partition_halves : Partition.t ereal :=
  Partition.mk (map (fun i => of_pair (half_centers i)) (seq 0 2)) [left_half; right_half]
    [Fin 0; Fin 0] params (map (fun i => Fin (half_areas i)) (seq 0 2)) uniform_field 2.

(** The same partition after the second region has lost its polygon. *)
Definition partition_vanished : Partition.t ereal :=
  Partition.mk (map (fun i => of_pair (half_centers i)) (seq 0 2))
    [left_half; Poly.mk PInf PInf NInf NInf []]
    [Fin 0; Fin 0] params (map (fun i => Fin (half_areas i)) (seq 0 2)) uniform_field 2.

(** Two regions with the desired areas [1] and [3], not yet normalised, and
    no centers, weights or covering yet. *)
Definition partition_unnormalised : Partition.t ereal :=
  Partition.mk [] [] [] params [Fin 1; Fin 3] uniform_field 2.

Local Close Scope R_scope.

End Ideal.

(** ** Concrete inputs (binary64) *)

Module Example.

Definition rc : float := 0x1p-23%float.

Definition pt (a b : float) : Point.t float := Point.mk a b.

Definition unit_square_vertices : list (Point.t float) :=
  [pt 0 0; pt 1 0; pt 1 1; pt 0 1]%float.

(** [Poly(unit_square_vertices)]. *)
Definition unit_square : Poly.t float :=
  Poly.mk 0%float 0%float 1%float 1%float unit_square_vertices.

(** [Poly()]. *)
Definition empty_poly : Poly.t float :=
  Poly.mk infinity infinity neg_infinity neg_infinity [].

(** [Density(unit_square, 3, 3, {1, ..., 1})]: the uniform density on a
    3 x 3 grid, as the constructor leaves it. *)
Definition field : Density.t float :=
  Eval vm_compute in
    match Density.make rc 1 unit_square 3 3 (repeat 1%float 9) with
    | Ok (d, _) => d
    | _ => Density.mk empty_poly 0 0 0%float 0%float 0%float 0%float 0%float 0%float
             0%float [] [] (Int_Params.mk [] [] [] [] [] [] [] 0%float)
    end.

(** The same field after [SetVolumeLowerBound(2^-17)]. *)
Definition bounded_field : Density.t float :=
  Density.SetVolumeLowerBound field 0x1p-17%float.

(** Three identical vertices. *)
Definition repeated_vertex : list (Point.t float) :=
  [pt 0 0; pt 0 0; pt 0 0]%float.

(** A triangle with two distinct vertices [2^-30] apart, closer than [rc]. *)
Definition close_triangle : Poly.t float :=
  Poly.mk 0%float 0%float 0%float 0%float [pt 0 0; pt 0x1p-30 0; pt 1 1]%float.

(** The square [0, 8] x [0, 8] and the uniform density on it. *)
Definition big_square : Poly.t float :=
  Poly.mk 0%float 0%float 8%float 8%float [pt 0 0; pt 8 0; pt 8 8; pt 0 8]%float.

Definition big_field : Density.t float :=
  Eval vm_compute in
    match Density.make rc 1 big_square 3 3 (repeat 1%float 9) with
    | Ok (d, _) => Density.SetVolumeLowerBound d 0x1p-17%float
    | _ => field
    end.

(** Algorithm parameters in the documented ranges. *)
Definition params : Parameters.t float :=
  Parameters.mk 0.5%float 0.125%float 1%float 0x1p-9%float 0x1p-6%float 200 500
    0x1p-17%float rc.

(** The same with [Volume_Lower_Bound = 0.5]. *)
Definition params_half : Parameters.t float :=
  Parameters.mk 0.5%float 0.125%float 1%float 0x1p-9%float 0x1p-6%float 200 500
    0.5%float rc.

(** One region covering [big_square], its center at [(1, 0)]. *)
Definition partition_one : Partition.t float :=
  Partition.mk [pt 1 0]%float [big_square] [0%float] params [1%float] big_field 1.

(** Two regions, desired areas [1] and [3] (not yet normalised). *)
Definition partition_two : Partition.t float :=
  Partition.mk [] [] [] params [1; 3]%float big_field 2.

(** Three regions, no desired areas given, [Volume_Lower_Bound = 0.5]. *)
Definition partition_three : Partition.t float :=
  Partition.mk [] [] [] params_half [] big_field 3.

(** The uniform density on the unit square on a 2 x 2 grid, and the two
    halves of the square as the regions of a partition: the binary64 twin of
    [Ideal.partition_halves]. *)
Definition uniform_field : Density.t float :=
  Eval vm_compute in
    match Density.make rc 1 unit_square 2 2 (repeat 1%float 4) with
    | Ok (d, _) => Density.SetVolumeLowerBound d 0.125%float
    | _ => field
    end.

Definition left_half : Poly.t float :=
  Poly.mk 0%float 0%float 0.5%float 1%float [pt 0 0; pt 0.5 0; pt 0.5 1; pt 0 1]%float.

Definition right_half : Poly.t float :=
  Poly.mk 0.5%float 0%float 1%float 1%float [pt 0.5 0; pt 1 0; pt 1 1; pt 0.5 1]%float.

Definition half_graph : DelaunayGraph.t float :=
  DelaunayGraph.mk
    (fun i j => if ((i =? 0)%Z && (j =? 1)%Z) || ((i =? 1)%Z && (j =? 0)%Z)
                then (pt 0.5 0, pt 0.5 1)%float
                else (Point.default, Point.default))
    2.

Definition partition_halves : Partition.t float :=
  Partition.mk [pt 0.25 0.5; pt 0.75 0.5]%float [left_half; right_half] [0; 0]%float
    (Parameters.mk 0.5%float 0.125%float 1%float 0x1p-9%float 0x1p-6%float 200 500
       0.125%float rc)
    [0.25; 0.75]%float uniform_field 2.

(** The partition into the two halves after the second region has lost its
    polygon. *)
Definition partition_vanished : Partition.t float :=
  Partition.mk [pt 0.25 0.5; pt 0.75 0.5]%float [left_half; empty_poly] [0; 0]%float
    (Parameters.mk 0.5%float 0.125%float 1%float 0x1p-9%float 0x1p-6%float 200 500
       0.125%float rc)
    [0.25; 0.75]%float uniform_field 2.

(** A triangle that holds no cell of a 2 x 2 grid on its bounding box. *)
Definition triangle : Poly.t float :=
  Poly.mk 0%float 0%float 1%float 1%float [pt 0 0; pt 1 0; pt 0 1]%float.

End Example.

(** ** Notions of the statements *)

Unset Implicit Arguments.

Section RealNotions.
Local Open Scope R_scope.

(** The numerator of the point-to-line distance. *)
Definition cross (x1 y1 x2 y2 x3 y3 : R) : R :=
  (y2 - y1) * x3 - (x2 - x1) * y3 + x2 * y1 - y2 * x1.

(** The largest of the three pairwise distances. *)
Definition rmax_dist (x1 y1 x2 y2 x3 y3 : R) : R :=
  Rmax (Rmax (Ideal.rdist x1 y1 x2 y2) (Ideal.rdist x2 y2 x3 y3))
       (Ideal.rdist x1 y1 x3 y3).

(** Whether a vertex at height [y] counts for a test point [(tx, ty)] that
    lies to the right of the box. *)
Definition below_right (mxx tx ty y : R) : bool := Rltb mxx tx && Rltb y ty.

(** [sum over j in L of f j]. *)
Definition Rsum (f : nat -> R) (L : list nat) : R := fold_right Rplus 0%R (map f L).

(** The sum of the weight update rule (specification, section 4.6) for region
    [i]: over the regions [j <> i] with a defined shared edge,
    [(a_j / v_j - a_i / v_i) * (1 / |c_i - c_j|) * l_ij], where [a] are the
    desired areas, [v] the volumes, [c] the centers and [l_ij] the line
    integral of the density along the edge shared by [i] and [j]. *)
Definition weight_sum (N : nat) (a v : nat -> R) (c : nat -> R * R)
  (defined : nat -> nat -> bool) (l : nat -> nat -> R) (i : nat) : R :=
  Rsum (fun j =>
          (a j / v j - a i / v i)
          * (1 / Ideal.rdist (fst (c i)) (snd (c i)) (fst (c j)) (snd (c j)))
          * l i j)%R
       (filter (fun j => negb (j =? i)%nat && defined i j) (seq 0 N)).

End RealNotions.

(** *** The values [GradientStepWeights] computes *)

(** The indices [lo, lo + 1, ..., lo + n - 1]. *)
Definition zrange (lo : Z) (n : nat) : list Z := map (fun k => (lo + Z.of_nat k)%Z) (seq 0 n).

Section WeightsStepValues.
Context {D : Type} `{DoubleOps D}.
Local Open Scope double_scope.

Variable p : Partition.t D.
Variable volumes : list D.
Variable SharedEdges : DelaunayGraph.t D.

(** The number of regions, and the value of every line integral the step asks for. *)
Variable N : nat.
Variable li : Z -> Z -> D.

(** The entry of the graph the code reads for the pair of the regions [i] and
    [j]: the one above the diagonal. *)
Definition shared_edge (i j : nat) : Point.t D * Point.t D :=
  DelaunayGraph.Graph SharedEdges (Z.of_nat (Nat.min i j)) (Z.of_nat (Nat.max i j)).

Definition has_shared_edge (i j : nat) : bool :=
  negb (isinf (Point.x (snd (shared_edge i j)))).

(** The edge of the pair [(i, j)], [i < j], is defined. *)
Definition edge_defined (i j : Z) : bool :=
  negb (isinf (Point.x (snd (DelaunayGraph.Graph SharedEdges i j)))).

(** The cells the code fills for a pair [i < j]. *)
Definition cell_dist (i j : Z) : D :=
  Point.Distance (vec_get Point.default (Partition.Centers p) i)
                 (vec_get Point.default (Partition.Centers p) j).

Definition cell_InvAreaDist (i j : Z) : D :=
  vec_get (of_int 0) (Partition.desired_area p) j / vec_get (of_int 0) volumes j
  - vec_get (of_int 0) (Partition.desired_area p) i / vec_get (of_int 0) volumes i.

Definition cell_integral (i j : Z) : D :=
  if edge_defined i j then li i j else of_int 0.

(** The summand of [totals[i]] for a neighbour [j > i], and for [j < i]. *)
Definition term_upper (i j : Z) : D :=
  cell_InvAreaDist i j * (of_int 1 / cell_dist i j) * cell_integral i j.

Definition term_lower (i j : Z) : D :=
  - cell_InvAreaDist j i * (of_int 1 / cell_dist j i) * cell_integral j i.

(** [totals[i]] when the two inner loops are done: first the neighbours above
    [i], then those below, each list in increasing order. *)
Definition total_of (i : Z) : D :=
  fold_left (fun t j => t + term_lower i j) (zrange 0 (Z.to_nat i))
    (fold_left (fun t j => t + term_upper i j)
       (zrange (i + 1) (N - S (Z.to_nat i))) (of_int 0)).

Definition new_weight (i : Z) : D :=
  if (Poly.GetNVertices
        (vec_get (Poly.mk INFINITY INFINITY INFINITY INFINITY []) (Partition.Covering p) i)
      =? 0)%Z
  then vec_get (of_int 0) (Partition.Weights p) i
       + Parameters.weights_step (Partition.Alg_Params p) * of_int 2
  else vec_get (of_int 0) (Partition.Weights p) i
       + - total_of i * Parameters.weights_step (Partition.Alg_Params p).

(** The cells of the rows below [ii], and of row [ii] up to column [jj], hold
    the values of their pairs, on both sides of the diagonal. *)
Definition cells_filled (ii jj : Z) (st : Partition.gsw_state) : Prop :=
  forall a b, (0 <= a < b)%Z -> (b < Z.of_nat N)%Z ->
    (a < ii \/ (a = ii /\ b < jj))%Z ->
    Partition.dist st a b = cell_dist a b
    /\ Partition.dist st b a = cell_dist a b
    /\ Partition.InvAreaDist st a b = cell_InvAreaDist a b
    /\ Partition.InvAreaDist st b a = - cell_InvAreaDist a b
    /\ Partition.integrals st a b = cell_integral a b
    /\ Partition.integrals st b a = cell_integral a b.

(** The state after the rows below [ii]: their cells are filled and their
    weights are the new ones; the other weights are still the old ones. *)
Definition rows_done (ii : Z) (st : Partition.gsw_state) : Prop :=
  List.length (Partition.totals st) = N
  /\ List.length (Partition.gsw_Weights st) = N
  /\ cells_filled ii (ii + 1) st
  /\ (forall k, (0 <= k < ii)%Z ->
                vec_get (of_int 0) (Partition.gsw_Weights st) k = new_weight k)
  /\ (forall k, (ii <= k)%Z ->
                vec_get (of_int 0) (Partition.gsw_Weights st) k
                = vec_get (of_int 0) (Partition.Weights p) k).

End WeightsStepValues.

(** *** The grid of a density *)

(** The seven vectors of [Int_Params]: the four coefficient vectors have [n]
    entries, the three integral vectors [m]. *)
Definition Int_Params_sizes {D : Type} (Integ : Int_Params.t D) (n m : nat) : Prop :=
  List.length (Int_Params.Coefficient_a Integ) = n
  /\ List.length (Int_Params.Coefficient_b Integ) = n
  /\ List.length (Int_Params.Coefficient_c Integ) = n
  /\ List.length (Int_Params.Coefficient_d Integ) = n
  /\ List.length (Int_Params.Int Integ) = m
  /\ List.length (Int_Params.Intx Integ) = m
  /\ List.length (Int_Params.Inty Integ) = m.

(** The field [Density(Region, Nx, Ny, Values)] has before [PreprocessIntegral]
    runs, without its values: the grid only. *)
Definition grid_of {D : Type} `{DoubleOps D} (Region : Poly.t D) (Nx Ny : Z) : Density.t D :=
  let '(minx, miny, maxx, maxy) := Poly.GetExtrema Region in
  Density.Setdxy
    (Density.set_grid
       (Density.mk Region 0%Z 0%Z (of_int 0) (of_int 0) minx miny maxx maxy (of_int 0) [] []
          (Int_Params.mk [] [] [] [] [] [] [] (of_int 0)))
       Nx Ny []).

(** No cell of the grid has its four corners in the region, as [pnpoly]
    answers. *)
Definition no_cell_inside {D : Type} `{DoubleOps D} (rc : D) (d : Density.t D) : Prop :=
  forall ii jj, (0 <= ii < Density.Nx d - 1)%Z -> (0 <= jj < Density.Ny d - 1)%Z ->
    ~ (Poly.pnpoly rc (Density.Region d)
         (Density.ConvertIndextoWorld d (ii * Density.Ny d + jj)) = Ok true
       /\ Poly.pnpoly rc (Density.Region d)
            (Density.ConvertIndextoWorld d ((ii + 1) * Density.Ny d + jj)) = Ok true
       /\ Poly.pnpoly rc (Density.Region d)
            (Density.ConvertIndextoWorld d (ii * Density.Ny d + jj + 1)) = Ok true
       /\ Poly.pnpoly rc (Density.Region d)
            (Density.ConvertIndextoWorld d ((ii + 1) * Density.Ny d + jj + 1)) = Ok true).

(** *** The centers [CreateDefaultCenters] places *)

(** The center [CreateDefaultCenters] places for the index [ii]. *)
Definition default_center {D : Type} `{DoubleOps D} (p1 p2 perp : Point.t D) (spacing : D)
  (ii : Z) : Point.t D :=
  Point.AddPoints (Point.FindPointAlongLine p1 p2 (d_mul spacing (of_int (ii + 1)))) perp.

(** Every point of the list is in the region, as [pnpoly] answers. *)
Definition all_inside {D : Type} `{DoubleOps D} (rc : D) (Region : Poly.t D)
  (cs : list (Point.t D)) : Prop :=
  forall c, In c cs -> Poly.pnpoly rc Region c = Ok true.

(** *** The entries [CreateDelaunayGraph] writes *)

(** The entry [CreateDelaunayGraph] writes for the points [temp]: [Point()]
    stands for a missing end point. *)
Definition entry_of {D : Type} `{DoubleOps D} (temp : list (Point.t D))
  : Point.t D * Point.t D :=
  match temp with
  | [] => (Point.default, Point.default)
  | [t0] => (t0, Point.default)
  | t0 :: t1 :: _ => (t0, t1)
  end.

(** The polygon of region [i], and its edge of index [k]. *)
Definition region_poly {D : Type} `{DoubleOps D} (p : Partition.t D) (i : Z) : Poly.t D :=
  vec_get (Poly.mk INFINITY INFINITY INFINITY INFINITY []) (Partition.Covering p) i.

Definition region_edge {D : Type} `{DoubleOps D} (p : Partition.t D) (i k : Z)
  : Point.t D * Point.t D :=
  Partition.edge_at (Poly.GetVertices (region_poly p i)) (Poly.GetNVertices (region_poly p i)) k.

(** The entry for the overlap of edge [kk] of region [ii] and edge [pp] of
    region [jj]. *)
Definition overlap_entry {D : Type} `{DoubleOps D} (rc : D) (p : Partition.t D)
  (ii jj kk pp : Z) : Point.t D * Point.t D :=
  entry_of (Point.FindCollinearIntersection rc
              (fst (region_edge p ii kk)) (snd (region_edge p ii kk))
              (fst (region_edge p jj pp)) (snd (region_edge p jj pp))).

(** *** The comparisons of [Parameters::CheckParameters] *)

(** What the comparisons of [Parameters::CheckParameters] let through: the
    check [v <= b] is false for [v] above [b] and for a NaN, [v > b] is false
    for [v] at most [b] and for a NaN, [v >= b] is false for [v] below [b] and
    for a NaN. *)
Definition passes_above (v : ereal) (b : R) : Prop :=
  match v with
  | Fin r => (b < r)%R
  | PInf | NaN => True
  | NInf => False
  end.

Definition passes_at_most (v : ereal) (b : R) : Prop :=
  match v with
  | Fin r => (r <= b)%R
  | NInf | NaN => True
  | PInf => False
  end.

Definition passes_below (v : ereal) (b : R) : Prop :=
  match v with
  | Fin r => (r < b)%R
  | NInf | NaN => True
  | PInf => False
  end.

(** * Properties *)

(** ** Loops and results *)

Lemma for_loop_total (S : Type) (body : Z -> S -> outcome S) :
  (forall i s, exists s', body i s = Ok s') ->
  forall n i s, exists s', for_loop n i body s = Ok s'.
Proof.
  intros Hbody n; induction n as [|n IH]; intros i s; simpl.
  - now exists s.
  - destruct (Hbody i s) as [s' ->]; simpl. apply IH.
Qed.

Lemma is_empty_false (A : Type) (v : list A) : v <> [] -> is_empty v = false.
Proof. destruct v; [congruence | reflexivity]. Qed.

Lemma is_empty_true (A : Type) (v : list A) : is_empty v = true -> v = [].
Proof. destruct v; [reflexivity | discriminate]. Qed.

Lemma GetNVertices_zero (D : Type) (p : Poly.t D) :
  (Poly.GetNVertices p =? 0)%Z = is_empty (Poly.Vertices p).
Proof.
  unfold Poly.GetNVertices. destruct (Poly.Vertices p); reflexivity.
Qed.

Ltac break_ok :=
  repeat (simpl;
          match goal with
          | |- exists s, Ok ?a = Ok s => eexists; reflexivity
          | |- context [if ?c then _ else _] => destruct c
          | |- context [match ?p with (_, _) => _ end] => destruct p
          end).

Section GenericFacts.
Context {D : Type} `{DoubleOps D}.
Local Open Scope double_scope.

Variable rc : D.

Lemma pnpoly_returns (p : Poly.t D) (Test : Point.t D) :
  Poly.Vertices p <> [] -> exists b, Poly.pnpoly rc p Test = Ok b.
Proof.
  intros Hne. unfold Poly.pnpoly. rewrite (is_empty_false _ _ Hne). eexists; reflexivity.
Qed.

Lemma WeightedArea_cell_total (d : Density.t D) (Test : Poly.t D) miny1 maxy1 x0 ii :
  Poly.Vertices Test <> [] ->
  forall jj st, exists st', Density.WeightedArea_cell rc d Test miny1 maxy1 x0 ii jj st = Ok st'.
Proof.
  intros Hne jj [[g s] y0]. unfold Density.WeightedArea_cell.
  destruct ((y0 <? miny1) || (y0 >? maxy1)); simpl.
  - eexists; reflexivity.
  - destruct (pnpoly_returns Test (Point.mk x0 y0) Hne) as [b ->]. break_ok.
Qed.

Lemma WeightedArea_column_total (d : Density.t D) (Test : Poly.t D) minx1 miny1 maxx1 maxy1 :
  Poly.Vertices Test <> [] ->
  forall ii st, exists st',
    Density.WeightedArea_column rc d Test minx1 miny1 maxx1 maxy1 ii st = Ok st'.
Proof.
  intros Hne ii [[[g s] y0] x0]. unfold Density.WeightedArea_column.
  destruct ((x0 <? minx1) || (x0 >? maxx1)).
  - edestruct (@for_loop_total (list bool * D * D)) as [[[g' s'] y'] ->];
      [|simpl; eexists; reflexivity].
    intros i [[g1 s1] y1]. eexists; reflexivity.
  - edestruct (@for_loop_total (list bool * D * D)) as [[[g' s'] y'] ->];
      [|simpl; eexists; reflexivity].
    apply WeightedArea_cell_total, Hne.
Qed.

Lemma WeightedArea_sum_total (d : Density.t D) (Test : Poly.t D) :
  Poly.Vertices Test <> [] ->
  exists sum, Density.WeightedArea_sum rc d Test = Ok sum.
Proof.
  intros Hne. unfold Density.WeightedArea_sum, Poly.GetExtrema.
  edestruct (@for_loop_total (list bool * D * D * D)) as [[[[g' s'] y'] x'] ->];
    [|simpl; eexists; reflexivity].
  apply WeightedArea_column_total, Hne.
Qed.


Lemma Centroid_cell_total (d : Density.t D) (Test : Poly.t D) miny1 maxy1 x0 ii :
  Poly.Vertices Test <> [] ->
  forall jj st, exists st', Density.Centroid_cell rc d Test miny1 maxy1 x0 ii jj st = Ok st'.
Proof.
  intros Hne jj [[[g sx] sy] y0]. unfold Density.Centroid_cell.
  destruct ((y0 <? miny1) || (y0 >? maxy1)); simpl.
  - eexists; reflexivity.
  - destruct (pnpoly_returns Test (Point.mk x0 y0) Hne) as [b ->]. break_ok.
Qed.

Lemma Centroid_column_total (d : Density.t D) (Test : Poly.t D) minx1 miny1 maxx1 maxy1 :
  Poly.Vertices Test <> [] ->
  forall ii st, exists st',
    Density.Centroid_column rc d Test minx1 miny1 maxx1 maxy1 ii st = Ok st'.
Proof.
  intros Hne ii [[[[g sx] sy] y0] x0]. unfold Density.Centroid_column.
  destruct ((x0 <? minx1) || (x0 >? maxx1)).
  - edestruct (@for_loop_total (list bool * D * D * D)) as [[[[g' sx'] sy'] y'] ->];
      [|simpl; eexists; reflexivity].
    intros i [[[g1 s1] s2] y1]. eexists; reflexivity.
  - edestruct (@for_loop_total (list bool * D * D * D)) as [[[[g' sx'] sy'] y'] ->];
      [|simpl; eexists; reflexivity].
    apply Centroid_cell_total, Hne.
Qed.

Lemma Centroid_sums_total (d : Density.t D) (Test : Poly.t D) :
  Poly.Vertices Test <> [] ->
  exists sums, Density.Centroid_sums rc d Test = Ok sums.
Proof.
  intros Hne. unfold Density.Centroid_sums, Poly.GetExtrema.
  edestruct (@for_loop_total (list bool * D * D * D * D))
    as [[[[[g' sx'] sy'] y'] x'] ->]; [|simpl; eexists; reflexivity].
  apply Centroid_column_total, Hne.
Qed.

(** C4 (amended).  On a field whose sample values are set, [CalculateCentroid]
    returns for the empty polygon the default point [Point()], both of whose
    coordinates are [INFINITY]; for a polygon with vertices and a supplied
    volume at most the volume lower bound it returns the minimum corner
    [(minx, miny)] of the polygon's cached bounding box. *)
Theorem CalculateCentroid_degenerate (d : Density.t D) (Test : Poly.t D) (Volume : D) :
  Density.Values d <> [] ->
  (Poly.Vertices Test = [] ->
   Density.CalculateCentroid rc d Test Volume = Ok (Point.mk INFINITY INFINITY))
  /\ (Poly.Vertices Test <> [] ->
      (Volume <=? Density.Volume_Lower_Bound d) = true ->
      Density.CalculateCentroid rc d Test Volume
      = Ok (Point.mk (Poly.minx Test) (Poly.miny Test))).
Proof.
  intros Hval; split.
  - intros Hv. unfold Density.CalculateCentroid.
    rewrite (is_empty_false _ _ Hval), GetNVertices_zero, Hv. reflexivity.
  - intros Hv Hvol. unfold Density.CalculateCentroid, Poly.GetExtrema.
    rewrite (is_empty_false _ _ Hval), GetNVertices_zero, (is_empty_false _ _ Hv).
    destruct (Centroid_sums_total d Test Hv) as [[sx sy] ->]; simpl.
    now rewrite Hvol.
Qed.

(** *** Polygon initialisation *)

Lemma IsEqual_spec (Test1 Test2 : Point.t D) :
  Point.IsEqual Test1 Test2
  = (Point.x Test1 ==? Point.x Test2) && (Point.y Test1 ==? Point.y Test2).
Proof. unfold Point.IsEqual. now destruct (_ && _). Qed.

Lemma InitializePoly_loop_ok (vs : list (Point.t D)) :
  forall ext ext',
    Poly.InitializePoly_loop vs ext = Ok ext' ->
    pairwise_distinct vs = true
    /\ forallb no_infinite_coordinate vs = true
    /\ ext' = fold_left extrema_step vs ext.
Proof.
  induction vs as [|v vs IH]; intros ext ext' Hrun; simpl in *.
  - inversion Hrun; auto.
  - unfold no_infinite_coordinate at 1.
    destruct (isinf (Point.x v)); [discriminate|].
    destruct (isinf (Point.y v)); [discriminate|]. simpl in *.
    destruct ext as [[[mnx mny] mxx] mxy].
    destruct (existsb (Point.IsEqual v) vs); [discriminate|].
    apply IH in Hrun as (Hd & Hf & ->). simpl. auto.
Qed.

Lemma InitializePoly_loop_accepts (vs : list (Point.t D)) :
  forall ext,
    pairwise_distinct vs = true ->
    forallb no_infinite_coordinate vs = true ->
    Poly.InitializePoly_loop vs ext = Ok (fold_left extrema_step vs ext).
Proof.
  induction vs as [|v vs IH]; intros ext Hd Hf; simpl in *; [reflexivity|].
  apply andb_prop in Hd as [Hv Hd]. apply andb_prop in Hf as [Hi Hf].
  unfold no_infinite_coordinate in Hi. apply andb_prop in Hi as [Hx Hy].
  apply negb_true_iff in Hx, Hy, Hv. rewrite Hx, Hy; simpl.
  destruct ext as [[[mnx mny] mxx] mxy]. rewrite Hv. now apply IH.
Qed.

Lemma InitializePoly_loop_throws (vs : list (Point.t D)) :
  forall ext msg,
    Poly.InitializePoly_loop vs ext = Throw msg ->
    msg = "Polygon vertices cannot be infinite"%string
    \/ (msg = "Polygon Vertices must all be distinct"%string
        /\ pairwise_distinct vs = false).
Proof.
  induction vs as [|v vs IH]; intros ext msg Hrun; simpl in *; [discriminate|].
  destruct (isinf (Point.x v) || isinf (Point.y v)).
  - inversion Hrun; auto.
  - destruct ext as [[[mnx mny] mxx] mxy].
    destruct (existsb (Point.IsEqual v) vs).
    + inversion Hrun; auto.
    + simpl. apply IH in Hrun. exact Hrun.
Qed.

Lemma pairwise_distinct_false (vs : list (Point.t D)) :
  pairwise_distinct vs = false ->
  exists i j, (i < j < List.length vs)%nat
              /\ Point.IsEqual (nth i vs Point.default) (nth j vs Point.default) = true.
Proof.
  induction vs as [|v vs IH]; simpl; [discriminate|]. intros Hd.
  destruct (existsb (Point.IsEqual v) vs) eqn:Hex; simpl in Hd.
  - apply existsb_exists in Hex as (w & Hin & Heq).
    destruct (In_nth _ _ Point.default Hin) as (k & Hk & Hnth).
    exists 0%nat, (S k). split; [lia|]. simpl. now rewrite Hnth.
  - destruct (IH Hd) as (i & j & Hij & Heq).
    exists (S i), (S j). split; [lia | exact Heq].
Qed.

Lemma InitializePoly_result (p : Poly.t D) (q : Poly.t D) :
  Poly.InitializePoly p = Ok q ->
  Poly.Vertices q = Poly.Vertices p /\ data_model_invariant q = true.
Proof.
  unfold Poly.InitializePoly, data_model_invariant. intros Hrun.
  destruct (Poly.Vertices p) as [|v vs] eqn:Hvs.
  - simpl in Hrun. inversion Hrun; subst; simpl. auto.
  - cbn [is_empty negb andb] in Hrun.
    destruct (Poly.GetNVertices p <? 3)%Z eqn:Hn; [discriminate|].
    destruct (Poly.InitializePoly_loop (v :: vs) _) as [ext| |] eqn:Hloop;
      try discriminate.
    cbn [bind] in Hrun. destruct ext as [[[mnx mny] mxx] mxy].
    destruct ((mnx ==? mxx) || (mny ==? mxy)) eqn:Hbox; [discriminate|].
    inversion Hrun; subst; clear Hrun. cbn [Poly.Vertices Poly.minx Poly.maxx Poly.miny Poly.maxy].
    split; [reflexivity|].
    apply InitializePoly_loop_ok in Hloop as (Hd & Hf & _).
    apply orb_false_elim in Hbox as [Hx Hy].
    rewrite Hd, Hf, Hx, Hy.
    apply Z.ltb_ge in Hn. unfold Poly.GetNVertices in Hn. rewrite Hvs in Hn.
    replace (3 <=? List.length (v :: vs))%nat with true; [reflexivity|].
    symmetry. apply Nat.leb_le. lia.
Qed.

(** C5 (amended).  A polygon left by the constructor, or by [SetVertices] with
    the extrema recomputed, satisfies the data-model invariant (with "finite"
    read as the [isinf] test the code applies); [SetVertices] without
    recomputation stores any list that is empty or has three vertices or more,
    and keeps the cached bounding box it had. *)
Theorem Poly_invariant_after_initialisation :
  (forall Vs q, Poly.make Vs = Ok q ->
                Poly.Vertices q = Vs /\ data_model_invariant q = true)
  /\ (forall p Vs q, Poly.SetVertices p Vs true = Ok q ->
                     Poly.Vertices q = Vs /\ data_model_invariant q = true)
  /\ (forall p Vs q, Poly.SetVertices p Vs false = Ok q ->
                     q = Poly.mk (Poly.minx p) (Poly.miny p) (Poly.maxx p) (Poly.maxy p) Vs
                     /\ (Vs = [] \/ (3 <= List.length Vs)%nat)).
Proof.
  split; [|split].
  - intros Vs q Hrun. unfold Poly.make in Hrun.
    now apply InitializePoly_result in Hrun.
  - intros p Vs q Hrun. unfold Poly.SetVertices in Hrun.
    now apply InitializePoly_result in Hrun.
  - intros p Vs q Hrun. unfold Poly.SetVertices in Hrun.
    destruct Vs as [|v vs].
    + inversion Hrun; auto.
    + cbn [is_empty negb andb] in Hrun.
      destruct (Poly.GetNVertices _ <? 3)%Z eqn:Hn; [discriminate|].
      inversion Hrun; split; [reflexivity|]. right.
      apply Z.ltb_ge in Hn. unfold Poly.GetNVertices in Hn. simpl in *. lia.
Qed.

Lemma InitializePoly_accepts (p : Poly.t D) :
  (3 <= List.length (Poly.Vertices p))%nat ->
  forallb no_infinite_coordinate (Poly.Vertices p) = true ->
  pairwise_distinct (Poly.Vertices p) = true ->
  box_degenerate (bounding_box (Poly.Vertices p)) = false ->
  Poly.InitializePoly p
  = Ok (poly_of_box (bounding_box (Poly.Vertices p)) (Poly.Vertices p)).
Proof.
  intros Hlen Hfin Hdist Hbox. unfold Poly.InitializePoly.
  destruct (Poly.Vertices p) as [|v vs] eqn:Hvs; [simpl in Hlen; lia|].
  cbn [is_empty negb andb].
  replace (Poly.GetNVertices p <? 3)%Z with false.
  2:{ symmetry. apply Z.ltb_ge. unfold Poly.GetNVertices. rewrite Hvs. lia. }
  rewrite (InitializePoly_loop_accepts _ _ Hdist Hfin). cbn [bind].
  fold (bounding_box (v :: vs)). unfold box_degenerate in Hbox.
  destruct (bounding_box (v :: vs)) as [[[mnx mny] mxx] mxy].
  rewrite Hbox. reflexivity.
Qed.

(** C9.  [IsEqual] is the conjunction of the two exact comparisons [==] of
    the coordinates, and the robustness constant is no argument of it.
    [InitializePoly] throws its duplicate-vertex error only when two vertices
    are [IsEqual]; and a list of three or more vertices, none infinite and no
    two [IsEqual], is accepted whenever its bounding box is not degenerate,
    also when two of the vertices are closer than the robustness constant
    [rc]. *)
Theorem IsEqual_exact_InitializePoly_duplicates :
  (forall Test1 Test2 : Point.t D,
      Point.IsEqual Test1 Test2 = true
      <-> (Point.x Test1 ==? Point.x Test2) = true
          /\ (Point.y Test1 ==? Point.y Test2) = true)
  /\ (forall p : Poly.t D,
         Poly.InitializePoly p = Throw "Polygon Vertices must all be distinct" ->
         exists i j,
           (i < j < List.length (Poly.Vertices p))%nat
           /\ Point.IsEqual (nth i (Poly.Vertices p) Point.default)
                            (nth j (Poly.Vertices p) Point.default) = true)
  /\ (forall (p : Poly.t D) (i j : nat),
         (3 <= List.length (Poly.Vertices p))%nat ->
         forallb no_infinite_coordinate (Poly.Vertices p) = true ->
         pairwise_distinct (Poly.Vertices p) = true ->
         box_degenerate (bounding_box (Poly.Vertices p)) = false ->
         (i < j < List.length (Poly.Vertices p))%nat ->
         (Point.Distance (nth i (Poly.Vertices p) Point.default)
                         (nth j (Poly.Vertices p) Point.default) <? rc) = true ->
         Poly.InitializePoly p
         = Ok (poly_of_box (bounding_box (Poly.Vertices p)) (Poly.Vertices p))).
Proof.
  split; [|split].
  - intros T1 T2. rewrite IsEqual_spec. apply andb_true_iff.
  - intros p Hrun. apply pairwise_distinct_false.
    unfold Poly.InitializePoly in Hrun.
    destruct (Poly.Vertices p) as [|v vs] eqn:Hvs; [discriminate|].
    cbn [is_empty negb andb] in Hrun.
    destruct (Poly.GetNVertices p <? 3)%Z; [discriminate|].
    destruct (Poly.InitializePoly_loop (v :: vs) _) as [ext|msg|] eqn:Hloop.
    + cbn [bind] in Hrun. destruct ext as [[[mnx mny] mxx] mxy].
      destruct ((mnx ==? mxx) || (mny ==? mxy)); discriminate.
    + cbn [bind] in Hrun. apply InitializePoly_loop_throws in Hloop.
      destruct Hloop as [->|[_ Hd]]; [discriminate | exact Hd].
    + discriminate.
  - intros p i j Hlen Hfin Hdist Hbox _ _. now apply InitializePoly_accepts.
Qed.

(** *** CheckParams *)

Lemma CheckParams_sum_accepts (VLB : D) (da : list D) :
  Forall (fun a => (a <=? VLB) = false) da ->
  forall sum, Partition.CheckParams_sum VLB da sum = Ok (fold_left d_add da sum).
Proof.
  induction 1 as [|a da Ha _ IH]; intros sum; simpl; [reflexivity|].
  rewrite Ha. apply IH.
Qed.

Lemma CheckParams_sum_rejects (VLB : D) (da : list D) :
  Exists (fun a => (a <=? VLB) = true) da ->
  forall sum,
    Partition.CheckParams_sum VLB da sum
    = Throw "Entries of desired_area must be greater than Alg_Params.Volume_Lower_Bound".
Proof.
  induction 1 as [a da Ha|a da _ IH]; intros sum; simpl.
  - now rewrite Ha.
  - destruct (a <=? VLB); [reflexivity | apply IH].
Qed.

Lemma CheckParams_normalize_accepts (VLB sum : D) (da : list D) :
  Forall (fun a => (a / sum <? VLB) = false) da ->
  Partition.CheckParams_normalize VLB sum da = Ok (map (fun a => a / sum) da).
Proof.
  induction 1 as [|a da Ha _ IH]; simpl; [reflexivity|].
  rewrite Ha, IH. reflexivity.
Qed.

Lemma CheckParams_normalize_rejects (VLB sum : D) (da : list D) :
  Exists (fun a => (a / sum <? VLB) = true) da ->
  Partition.CheckParams_normalize VLB sum da
  = Throw "Normalized areas too small. Decrease the number of regions, increase desired areas, or decrease Alg_Params.Volume_Lower_Bound".
Proof.
  induction 1 as [a da Ha|a da _ IH]; simpl.
  - now rewrite Ha.
  - destruct (a / sum <? VLB); [reflexivity|]. now rewrite IH.
Qed.

(** C6 (amended).  [CheckParams] with [NRegions > 0].  An empty desired-area
    vector is filled with [NRegions] entries [1/NRegions] when the volume
    lower bound is at most [1/NRegions], and is an error otherwise.  A
    non-empty vector of another size than [NRegions] is an error; so is one
    with an entry at most the bound.  Otherwise, when the sum of the entries
    is [1] the vector is kept; when it is not, the diagnostic is written and
    every entry is divided by the sum, which is an error as soon as a quotient
    is below the bound. *)
Theorem CheckParams_cases (p : Partition.t D) :
  (0 < Partition.NRegions p)%Z ->
  let N := Partition.NRegions p in
  let VLB := Parameters.Volume_Lower_Bound (Partition.Alg_Params p) in
  let da := Partition.desired_area p in
  let prior := Density.SetVolumeLowerBound (Partition.Prior p) VLB in
  let sum := fold_left d_add da (of_int 0) in
  let warning :=
    ["Warning: desired_areas not normalized; will be normalized automatically"%string] in
  (da = [] -> (VLB <=? of_int 1 / of_int N) = true ->
   Partition.CheckParams p
   = ([], Ok (Partition.set_desired_area p
                (repeat (of_int 1 / of_int N) (Z.to_nat N)) prior)))
  /\ (da = [] -> (VLB <=? of_int 1 / of_int N) = false ->
      Partition.CheckParams p
      = ([], Throw "Volume_Lower_Bound is too large for the number of regions. Try making Volume_Lower_Bound smaller or decreasing the number of regions"))
  /\ (da <> [] -> Z.of_nat (List.length da) <> N ->
      Partition.CheckParams p
      = ([], Throw "The size of desired_area must equal NRegions"))
  /\ (Z.of_nat (List.length da) = N ->
      Exists (fun a => (a <=? VLB) = true) da ->
      Partition.CheckParams p
      = ([], Throw "Entries of desired_area must be greater than Alg_Params.Volume_Lower_Bound"))
  /\ (Z.of_nat (List.length da) = N ->
      Forall (fun a => (a <=? VLB) = false) da ->
      ((sum ==? of_int 1) = true ->
       Partition.CheckParams p = ([], Ok (Partition.set_desired_area p da prior)))
      /\ ((sum ==? of_int 1) = false ->
          Forall (fun a => (a / sum <? VLB) = false) da ->
          Partition.CheckParams p
          = (warning,
             Ok (Partition.set_desired_area p (map (fun a => a / sum) da) prior)))
      /\ ((sum ==? of_int 1) = false ->
          Exists (fun a => (a / sum <? VLB) = true) da ->
          Partition.CheckParams p
          = (warning,
             Throw "Normalized areas too small. Decrease the number of regions, increase desired areas, or decrease Alg_Params.Volume_Lower_Bound"))).
Proof.
  intros HN N VLB da prior sum warning.
  assert (HN0 : (N =? 0)%Z = false) by (apply Z.eqb_neq; subst N; lia).
  assert (HNneg : (N <? 0)%Z = false) by (apply Z.ltb_ge; subst N; lia).
  assert (Hsized : Z.of_nat (List.length da) = N -> da <> []).
  { intros Hlen Hda. rewrite Hda in Hlen. simpl in Hlen. subst N. lia. }
  unfold Partition.CheckParams.
  fold N VLB da prior. rewrite HN0. cbn [negb andb].
  split; [|split; [|split; [|split]]].
  - intros -> Hle. cbn [is_empty]. now rewrite Hle, HNneg.
  - intros -> Hle. cbn [is_empty]. now rewrite Hle.
  - intros Hda Hlen. rewrite (is_empty_false _ _ Hda).
    apply Z.eqb_neq in Hlen. now rewrite Hlen.
  - intros Hlen Hex. rewrite (is_empty_false _ _ (Hsized Hlen)).
    apply Z.eqb_eq in Hlen. rewrite Hlen. cbn [negb].
    now rewrite (CheckParams_sum_rejects _ _ Hex).
  - intros Hlen Hall. rewrite (is_empty_false _ _ (Hsized Hlen)).
    apply Z.eqb_eq in Hlen. rewrite Hlen. cbn [negb].
    rewrite (CheckParams_sum_accepts _ _ Hall). fold sum.
    split; [|split].
    + intros Hone. now rewrite Hone.
    + intros Hone Hnorm. rewrite Hone. cbn [negb].
      now rewrite (CheckParams_normalize_accepts _ _ _ Hnorm).
    + intros Hone Hnorm. rewrite Hone. cbn [negb].
      now rewrite (CheckParams_normalize_rejects _ _ _ Hnorm).
Qed.

End GenericFacts.

(** ** The properties at concrete inputs (binary64) *)

Lemma example_field_constructed :
  Density.make Example.rc 1 Example.unit_square 3 3 (repeat 1%float 9)
  = Ok (Example.field, [])
  /\ Poly.make Example.unit_square_vertices = Ok Example.unit_square.
Proof. split; vm_compute; reflexivity. Qed.

Lemma example_big_field_constructed :
  (exists d, Density.make Example.rc 1 Example.big_square 3 3 (repeat 1%float 9)
             = Ok (d, [])
             /\ Density.SetVolumeLowerBound d 0x1p-17%float = Example.big_field)
  /\ Poly.make (Poly.Vertices Example.big_square) = Ok Example.big_square
  /\ Parameters.CheckParameters Example.params = Ok tt
  /\ Parameters.CheckParameters Example.params_half = Ok tt.
Proof.
  split; [|repeat split; vm_compute; reflexivity].
  eexists; split; vm_compute; reflexivity.
Qed.


(** C4, as stated, fails: for the empty polygon [CalculateCentroid] returns
    the point [(inf, inf)], which is not the origin. *)
Lemma CalculateCentroid_empty_is_not_the_origin :
  Density.CalculateCentroid Example.rc Example.bounded_field Example.empty_poly 1%float
  = Ok (Point.mk infinity infinity)
  /\ Density.CalculateCentroid Example.rc Example.bounded_field Example.empty_poly 1%float
     <> Ok (Point.mk 0%float 0%float).
Proof.
  split; [vm_compute; reflexivity|]. intros Heq.
  apply (f_equal (fun o => match o with
                           | Ok q => PrimFloat.eqb (Point.x q) 0
                           | _ => true
                           end)) in Heq.
  vm_compute in Heq. discriminate.
Qed.

Lemma CalculateCentroid_degenerate_witness :
  Density.CalculateCentroid Example.rc Example.bounded_field Example.empty_poly 1%float
  = Ok (Point.mk infinity infinity)
  /\ Density.CalculateCentroid Example.rc Example.bounded_field Example.unit_square
       0x1p-20%float
     = Ok (Point.mk 0%float 0%float).
Proof.
  assert (Hval : Density.Values Example.bounded_field <> [])
    by (vm_compute; discriminate).
  split.
  - exact (proj1 (CalculateCentroid_degenerate Example.rc Example.bounded_field
                    Example.empty_poly 1%float Hval) eq_refl).
  - refine (proj2 (CalculateCentroid_degenerate Example.rc Example.bounded_field
                     Example.unit_square 0x1p-20%float Hval) _ _).
    + vm_compute; discriminate.
    + vm_compute; reflexivity.
Defined.

(** C5, as stated, fails: [SetVertices] without recomputation of the extrema
    stores three identical vertices. *)
Lemma SetVertices_unchecked_breaks_invariant :
  exists q,
    Poly.SetVertices Example.unit_square Example.repeated_vertex false = Ok q
    /\ data_model_invariant q = false.
Proof. eexists; split; vm_compute; reflexivity. Qed.

Lemma Poly_invariant_after_initialisation_witness :
  data_model_invariant Example.unit_square = true
  /\ (Example.repeated_vertex = [] \/ (3 <= List.length Example.repeated_vertex)%nat).
Proof.
  split.
  - apply (proj1 (@Poly_invariant_after_initialisation float float_ops)
             Example.unit_square_vertices Example.unit_square).
    vm_compute; reflexivity.
  - apply (proj2 (proj2 (@Poly_invariant_after_initialisation float float_ops))
             Example.unit_square Example.repeated_vertex
             (Poly.mk 0%float 0%float 1%float 1%float Example.repeated_vertex)).
    vm_compute; reflexivity.
Defined.

Lemma IsEqual_exact_InitializePoly_duplicates_witness :
  exists q, Poly.InitializePoly Example.close_triangle = Ok q
            /\ Poly.Vertices q = Poly.Vertices Example.close_triangle.
Proof.
  eexists; split.
  - apply (proj2 (proj2 (IsEqual_exact_InitializePoly_duplicates Example.rc))
             Example.close_triangle 0%nat 1%nat); vm_compute; try reflexivity; lia.
  - vm_compute; reflexivity.
Defined.

(** C6, as stated, fails: with three regions, no desired areas and a volume
    lower bound of one half (within its documented range), [CheckParams]
    throws instead of filling the vector. *)
Lemma CheckParams_empty_vector_rejected :
  (0 < Partition.NRegions Example.partition_three)%Z
  /\ Partition.desired_area Example.partition_three = []
  /\ Parameters.CheckParameters (Partition.Alg_Params Example.partition_three) = Ok tt
  /\ Partition.CheckParams Example.partition_three
     = ([], Throw "Volume_Lower_Bound is too large for the number of regions. Try making Volume_Lower_Bound smaller or decreasing the number of regions").
Proof. repeat split; vm_compute; reflexivity. Qed.

Lemma CheckParams_cases_witness :
  Partition.CheckParams Example.partition_two
  = (["Warning: desired_areas not normalized; will be normalized automatically"%string],
     Ok (Partition.set_desired_area Example.partition_two [0.25; 0.75]%float
           Example.big_field)).
Proof.
  assert (HN : (0 < Partition.NRegions Example.partition_two)%Z) by (vm_compute; reflexivity).
  refine (proj1 (proj2 (proj2 (proj2 (proj2 (proj2
            (CheckParams_cases Example.partition_two HN)))) _ _)) _ _).
  - reflexivity.
  - repeat constructor.
  - vm_compute; reflexivity.
  - repeat constructor.
Defined.

(** C2: the code at a concrete input.  One region covers the square
    [0, 8] x [0, 8]; its center moves from [(1, 0)] to the centroid [(4, 4)],
    a distance of [5].  The documented result is the squared distance, [25];
    [GradientStepCenter] returns [5]. *)
Theorem GradientStepCenter_returns_unsquared_norms :
  exists p' Err,
    Partition.GradientStepCenter Example.rc Example.partition_one [1%float] = Ok (p', Err)
    /\ Partition.Centers p' = [Example.pt 4 4]
    /\ Err = 5%float
    /\ sum_squared_displacement (Partition.Centers Example.partition_one)
         (Partition.Centers p') = 25%float.
Proof. do 2 eexists; repeat split; vm_compute; reflexivity. Qed.

(** ** Exact arithmetic: the operations on finite values *)

Section IdealArithmetic.
Local Open Scope R_scope.

Lemma Rltb_true (a b : R) : Rltb a b = true <-> a < b.
Proof. unfold Rltb. destruct (Rlt_dec a b); split; intros; (congruence || lra). Qed.

Lemma Rltb_false (a b : R) : Rltb a b = false <-> b <= a.
Proof. unfold Rltb. destruct (Rlt_dec a b); split; intros; (congruence || lra). Qed.

Lemma Rleb_true (a b : R) : Rleb a b = true <-> a <= b.
Proof. unfold Rleb. destruct (Rle_dec a b); split; intros; (congruence || lra). Qed.

Lemma Rleb_false (a b : R) : Rleb a b = false <-> b < a.
Proof. unfold Rleb. destruct (Rle_dec a b); split; intros; (congruence || lra). Qed.

Lemma Reqb_true (a b : R) : Reqb a b = true <-> a = b.
Proof. unfold Reqb. destruct (Req_dec_T a b); split; intros; (congruence || lra). Qed.

Lemma Reqb_false (a b : R) : Reqb a b = false <-> a <> b.
Proof. unfold Reqb. destruct (Req_dec_T a b); split; intros; (congruence || lra). Qed.

Lemma e_ltb_Fin (a b : R) : e_ltb (Fin a) (Fin b) = true <-> a < b.
Proof. apply Rltb_true. Qed.

Lemma e_ltb_Fin_false (a b : R) : e_ltb (Fin a) (Fin b) = false <-> b <= a.
Proof. apply Rltb_false. Qed.

Lemma e_leb_Fin (a b : R) : e_leb (Fin a) (Fin b) = true <-> a <= b.
Proof.
  unfold e_leb; simpl. rewrite orb_true_iff, Rltb_true, Reqb_true. lra.
Qed.

Lemma e_leb_Fin_false (a b : R) : e_leb (Fin a) (Fin b) = false <-> b < a.
Proof.
  unfold e_leb; simpl. rewrite orb_false_iff, Rltb_false, Reqb_false. lra.
Qed.

Lemma e_div_Fin (a b : R) : b <> 0 -> e_div (Fin a) (Fin b) = Fin (a / b).
Proof. intros Hb. simpl. apply Reqb_false in Hb. now rewrite Hb. Qed.

Lemma e_sqrt_Fin (a : R) : 0 <= a -> e_sqrt (Fin a) = Fin (R_sqrt.sqrt a).
Proof. intros Ha. simpl. apply Rltb_false in Ha. now rewrite Ha. Qed.

Lemma sum_squares_nonneg (a b : R) : 0 <= a * a + b * b.
Proof. nra. Qed.

Lemma sum_squares_zero (a b : R) : a * a + b * b = 0 -> a = 0 /\ b = 0.
Proof. intros Hs. split; nra. Qed.

Lemma rdist_nonneg (x1 y1 x2 y2 : R) : 0 <= Ideal.rdist x1 y1 x2 y2.
Proof. apply sqrt_pos. Qed.

Lemma rdist_zero (x1 y1 x2 y2 : R) :
  Ideal.rdist x1 y1 x2 y2 = 0 <-> x1 = x2 /\ y1 = y2.
Proof.
  unfold Ideal.rdist. split.
  - intros Hs. apply sqrt_eq_0 in Hs; [|apply sum_squares_nonneg].
    apply sum_squares_zero in Hs. lra.
  - intros [-> ->]. replace ((x2 - x2) * (x2 - x2) + (y2 - y2) * (y2 - y2)) with 0 by lra.
    apply sqrt_0.
Qed.

Lemma rdist_sym (x1 y1 x2 y2 : R) : Ideal.rdist x1 y1 x2 y2 = Ideal.rdist x2 y2 x1 y1.
Proof. unfold Ideal.rdist. f_equal. lra. Qed.

Lemma rdist_square (x1 y1 x2 y2 : R) :
  Ideal.rdist x1 y1 x2 y2 * Ideal.rdist x1 y1 x2 y2
  = (x1 - x2) * (x1 - x2) + (y1 - y2) * (y1 - y2).
Proof. unfold Ideal.rdist. apply sqrt_sqrt, sum_squares_nonneg. Qed.

(** A distance known by its square. *)
Lemma rdist_is (x1 y1 x2 y2 d : R) :
  0 <= d -> (x1 - x2) * (x1 - x2) + (y1 - y2) * (y1 - y2) = d * d ->
  Ideal.rdist x1 y1 x2 y2 = d.
Proof. intros Hd Hs. unfold Ideal.rdist. rewrite Hs. now apply sqrt_square. Qed.

Lemma rdist_scale (k x1 y1 x2 y2 : R) :
  0 <= k ->
  Ideal.rdist (k * x1) (k * y1) (k * x2) (k * y2) = k * Ideal.rdist x1 y1 x2 y2.
Proof.
  intros Hk. unfold Ideal.rdist.
  replace ((k * x1 - k * x2) * (k * x1 - k * x2) + (k * y1 - k * y2) * (k * y1 - k * y2))
    with (k * k * ((x1 - x2) * (x1 - x2) + (y1 - y2) * (y1 - y2))) by ring.
  rewrite sqrt_mult; [|nra|apply sum_squares_nonneg].
  now rewrite sqrt_square.
Qed.

Lemma Distance_pt (x1 y1 x2 y2 : R) :
  Point.Distance (Ideal.pt x1 y1) (Ideal.pt x2 y2) = Fin (Ideal.rdist x1 y1 x2 y2).
Proof.
  unfold Point.Distance, Ideal.pt, Ideal.rdist. cbn -[e_sqrt].
  apply e_sqrt_Fin. apply sum_squares_nonneg.
Qed.

Lemma Norm_pt (a b : R) :
  Point.Norm (Ideal.pt a b) = Fin (R_sqrt.sqrt (a * a + b * b)).
Proof.
  unfold Point.Norm, Ideal.pt. cbn -[e_sqrt]. apply e_sqrt_Fin, sum_squares_nonneg.
Qed.

End IdealArithmetic.

(** Decides the comparisons of real numbers in the goal by linear arithmetic. *)
Ltac Rb_decide :=
  repeat (match goal with
          | |- context [Rltb ?a ?b] =>
              first [ replace (Rltb a b) with true by (symmetry; apply Rltb_true; lra)
                    | replace (Rltb a b) with false by (symmetry; apply Rltb_false; lra) ]
          | |- context [Rleb ?a ?b] =>
              first [ replace (Rleb a b) with true by (symmetry; apply Rleb_true; lra)
                    | replace (Rleb a b) with false by (symmetry; apply Rleb_false; lra) ]
          | |- context [Reqb ?a ?b] =>
              first [ replace (Reqb a b) with true by (symmetry; apply Reqb_true; lra)
                    | replace (Reqb a b) with false by (symmetry; apply Reqb_false; lra) ]
          end; cbv beta iota).

(** ** FindPerpDirection *)

Section PerpDirection.
Context {D : Type} `{DoubleOps D}.
Local Open Scope double_scope.

(** Whatever the arithmetic: a distance that compares equal to zero gives the
    zero vector, and no division takes place. *)
Lemma FindPerpDirection_zero_distance (Test1 Test2 : Point.t D) (Norm : D) :
  (Point.Distance Test1 Test2 ==? of_int 0) = true ->
  Point.FindPerpDirection Test1 Test2 Norm = Point.mk (of_int 0) (of_int 0).
Proof. intros Hd. unfold Point.FindPerpDirection. now rewrite Hd. Qed.

End PerpDirection.


(** ** The collinearity and between tests in exact arithmetic *)

Section IdealPredicates.
Local Open Scope R_scope.

Lemma e_leb_Rleb (a b : R) : e_leb (Fin a) (Fin b) = Rleb a b.
Proof.
  destruct (Rleb a b) eqn:E.
  - apply e_leb_Fin. now apply Rleb_true.
  - apply e_leb_Fin_false. now apply Rleb_false.
Qed.

Lemma Rltb_scale (k a b : R) : 0 < k -> Rltb (k * a) (k * b) = Rltb a b.
Proof.
  intros Hk. destruct (Rltb a b) eqn:E.
  - apply Rltb_true in E. apply Rltb_true. nra.
  - apply Rltb_false in E. apply Rltb_false. nra.
Qed.

Lemma Rleb_scale_l (k a : R) : 0 < k -> Rleb (k * a) 0 = Rleb a 0.
Proof.
  intros Hk. destruct (Rleb a 0) eqn:E.
  - apply Rleb_true in E. apply Rleb_true. nra.
  - apply Rleb_false in E. apply Rleb_false. nra.
Qed.

Lemma Rleb_scale_r (k a : R) : 0 < k -> Rleb 0 (k * a) = Rleb 0 a.
Proof.
  intros Hk. destruct (Rleb 0 a) eqn:E.
  - apply Rleb_true in E. apply Rleb_true. nra.
  - apply Rleb_false in E. apply Rleb_false. nra.
Qed.

Lemma if_Rltb_Rmax (a b : R) : (if Rltb a b then b else a) = Rmax a b.
Proof.
  destruct (Rltb a b) eqn:E.
  - apply Rltb_true in E. symmetry. apply Rmax_right. lra.
  - apply Rltb_false in E. symmetry. apply Rmax_left. lra.
Qed.

Lemma max_dist_pt (x1 y1 x2 y2 x3 y3 : R) :
  Point.max_dist (Ideal.pt x1 y1) (Ideal.pt x2 y2) (Ideal.pt x3 y3)
  = Fin (rmax_dist x1 y1 x2 y2 x3 y3).
Proof.
  unfold Point.max_dist, rmax_dist. rewrite !Distance_pt. cbn.
  rewrite <- !if_Rltb_Rmax.
  destruct (Rltb (Ideal.rdist x1 y1 x2 y2) (Ideal.rdist x2 y2 x3 y3)); cbn;
    destruct (Rltb _ (Ideal.rdist x1 y1 x3 y3)); reflexivity.
Qed.

Lemma rmax_dist_lower (x1 y1 x2 y2 x3 y3 : R) :
  Ideal.rdist x1 y1 x2 y2 <= rmax_dist x1 y1 x2 y2 x3 y3.
Proof.
  unfold rmax_dist. eapply Rle_trans; [apply Rmax_l|]. apply Rmax_l.
Qed.

Lemma rmax_dist_scale (k x1 y1 x2 y2 x3 y3 : R) :
  0 <= k ->
  rmax_dist (k * x1) (k * y1) (k * x2) (k * y2) (k * x3) (k * y3)
  = k * rmax_dist x1 y1 x2 y2 x3 y3.
Proof.
  intros Hk. unfold rmax_dist. rewrite !rdist_scale by exact Hk.
  now rewrite !RmaxRmult.
Qed.

Lemma rmax_dist_swap (x1 y1 x2 y2 x3 y3 : R) :
  rmax_dist x2 y2 x1 y1 x3 y3 = rmax_dist x1 y1 x2 y2 x3 y3.
Proof.
  unfold rmax_dist. rewrite (rdist_sym x2 y2 x1 y1).
  rewrite <- !Rmax_assoc. f_equal. apply Rmax_comm.
Qed.

Lemma Rabs_big_nonzero (r a : R) : 0 < r -> r <= Rabs a -> a <> 0.
Proof. intros Hr Ha ->. rewrite Rabs_R0 in Ha. lra. Qed.

(** The point-to-line distance when neither shortcut for a nearly horizontal
    or nearly vertical line applies. *)
Lemma PerpDistanceToLine_general (r x1 y1 x2 y2 x3 y3 : R) :
  0 < r -> r <= Rabs (x2 - x1) -> r <= Rabs (y2 - y1) ->
  Point.PerpDistanceToLine (Fin r) (Ideal.pt x1 y1) (Ideal.pt x2 y2) (Ideal.pt x3 y3)
  = Fin (Rabs (cross x1 y1 x2 y2 x3 y3) / Ideal.rdist x1 y1 x2 y2).
Proof.
  intros Hr Hx Hy. unfold Point.PerpDistanceToLine. rewrite Distance_pt.
  cbn -[e_div].
  replace (Rltb (Rabs (y2 + - y1)) r) with false
    by (symmetry; apply Rltb_false; exact Hy).
  replace (Rltb (Rabs (x2 + - x1)) r) with false
    by (symmetry; apply Rltb_false; exact Hx).
  rewrite e_div_Fin.
  - reflexivity.
  - intros Hd. apply rdist_zero in Hd as [Hd _].
    apply (Rabs_big_nonzero r (x2 - x1)); [exact Hr | exact Hx | lra].
Qed.

Lemma AreCollinear_general (r x1 y1 x2 y2 x3 y3 : R) :
  0 < r -> r <= Rabs (x2 - x1) -> r <= Rabs (y2 - y1) ->
  Point.AreCollinear (Fin r) (Ideal.pt x1 y1) (Ideal.pt x2 y2) (Ideal.pt x3 y3)
  = Rltb (Rabs (cross x1 y1 x2 y2 x3 y3) / Ideal.rdist x1 y1 x2 y2
          / rmax_dist x1 y1 x2 y2 x3 y3) r.
Proof.
  intros Hr Hx Hy. unfold Point.AreCollinear.
  rewrite PerpDistanceToLine_general, max_dist_pt by assumption.
  assert (Hd : Ideal.rdist x1 y1 x2 y2 <> 0).
  { intros Hd. apply rdist_zero in Hd as [Hd _].
    apply (Rabs_big_nonzero r (x2 - x1)); [exact Hr | exact Hx | lra]. }
  assert (Hm : rmax_dist x1 y1 x2 y2 x3 y3 <> 0).
  { pose proof (rmax_dist_lower x1 y1 x2 y2 x3 y3).
    pose proof (rdist_nonneg x1 y1 x2 y2). lra. }
  cbn -[e_div]. rewrite e_div_Fin by exact Hm. cbn.
  now destruct (Rltb _ r).
Qed.

Lemma AreBetween_distinct (rc : ereal) (x1 y1 x2 y2 x3 y3 : R) :
  Ideal.rdist x2 y2 x1 y1 <> 0 ->
  Point.AreBetween rc (Ideal.pt x1 y1) (Ideal.pt x2 y2) (Ideal.pt x3 y3)
  = Point.AreCollinear rc (Ideal.pt x1 y1) (Ideal.pt x2 y2) (Ideal.pt x3 y3)
    && negb (Rltb 1 (Ideal.rdist x3 y3 x1 y1 / Ideal.rdist x2 y2 x1 y1)
             || Rltb (Ideal.rdist x3 y3 x1 y1 / Ideal.rdist x2 y2 x1 y1) 0)
    && ((Rleb (x3 - x1) 0 && Rleb (x2 - x1) 0)
        || (Rleb 0 (x3 - x1) && Rleb 0 (x2 - x1))).
Proof.
  intros Hd. unfold Point.AreBetween. rewrite !Distance_pt.
  rewrite e_div_Fin by exact Hd.
  destruct (Point.AreCollinear _ _ _ _); [|reflexivity].
  cbn -[e_leb]. rewrite !e_leb_Rleb.
  destruct (Rltb 1 _ || Rltb _ 0); [reflexivity|]. cbn.
  now destruct (_ || _).
Qed.

Lemma cross_scale (k x1 y1 x2 y2 x3 y3 : R) :
  cross (k * x1) (k * y1) (k * x2) (k * y2) (k * x3) (k * y3)
  = k * k * cross x1 y1 x2 y2 x3 y3.
Proof. unfold cross. ring. Qed.

Lemma cross_swap (x1 y1 x2 y2 x3 y3 : R) :
  cross x2 y2 x1 y1 x3 y3 = - cross x1 y1 x2 y2 x3 y3.
Proof. unfold cross. ring. Qed.

Lemma Mult_pt (k a b : R) : Point.Mult (Ideal.pt a b) (Fin k) = Ideal.pt (k * a) (k * b).
Proof. reflexivity. Qed.


(** *** Evaluation at concrete points *)

Lemma rdist_le (x1 y1 x2 y2 d : R) :
  0 <= d -> (x1 - x2) * (x1 - x2) + (y1 - y2) * (y1 - y2) <= d * d ->
  Ideal.rdist x1 y1 x2 y2 <= d.
Proof.
  intros Hd Hs. unfold Ideal.rdist. rewrite <- (sqrt_square d) by exact Hd.
  now apply sqrt_le_1_alt.
Qed.

Lemma rdist_gt (x1 y1 x2 y2 d : R) :
  0 <= d -> d * d < (x1 - x2) * (x1 - x2) + (y1 - y2) * (y1 - y2) ->
  d < Ideal.rdist x1 y1 x2 y2.
Proof.
  intros Hd Hs. unfold Ideal.rdist. rewrite <- (sqrt_square d) at 1 by exact Hd.
  now apply sqrt_lt_1_alt; split; [nra|].
Qed.

Lemma PerpDistanceToLine_horizontal (r x1 y1 x2 y2 x3 y3 : R) :
  Rabs (y2 - y1) < r ->
  Point.PerpDistanceToLine (Fin r) (Ideal.pt x1 y1) (Ideal.pt x2 y2) (Ideal.pt x3 y3)
  = Fin (Rabs (y3 - y2)).
Proof.
  intros Hy. unfold Point.PerpDistanceToLine. cbn -[e_div Point.Distance].
  replace (Rltb (Rabs (y2 + - y1)) r) with true
    by (symmetry; apply Rltb_true; exact Hy).
  reflexivity.
Qed.

Lemma PerpDistanceToLine_vertical (r x1 y1 x2 y2 x3 y3 : R) :
  r <= Rabs (y2 - y1) -> Rabs (x2 - x1) < r ->
  Point.PerpDistanceToLine (Fin r) (Ideal.pt x1 y1) (Ideal.pt x2 y2) (Ideal.pt x3 y3)
  = Fin (Rabs (x3 - x2)).
Proof.
  intros Hy Hx. unfold Point.PerpDistanceToLine. cbn -[e_div Point.Distance].
  replace (Rltb (Rabs (y2 + - y1)) r) with false
    by (symmetry; apply Rltb_false; exact Hy).
  replace (Rltb (Rabs (x2 + - x1)) r) with true
    by (symmetry; apply Rltb_true; exact Hx).
  reflexivity.
Qed.

(** [AreCollinear] from the value of the point-to-line distance. *)
Lemma AreCollinear_from_distance (r p x1 y1 x2 y2 x3 y3 : R) :
  Point.PerpDistanceToLine (Fin r) (Ideal.pt x1 y1) (Ideal.pt x2 y2) (Ideal.pt x3 y3)
  = Fin p ->
  rmax_dist x1 y1 x2 y2 x3 y3 <> 0 ->
  Point.AreCollinear (Fin r) (Ideal.pt x1 y1) (Ideal.pt x2 y2) (Ideal.pt x3 y3)
  = Rltb (p / rmax_dist x1 y1 x2 y2 x3 y3) r.
Proof.
  intros Hp Hm. unfold Point.AreCollinear. rewrite Hp, max_dist_pt.
  cbn -[e_div]. rewrite e_div_Fin by exact Hm. cbn. now destruct (Rltb _ r).
Qed.

Lemma Rmax3_is (a b c m : R) :
  a <= m -> b <= m -> c <= m -> (a = m \/ b = m \/ c = m) -> Rmax (Rmax a b) c = m.
Proof.
  intros Ha Hb Hc Hm. unfold Rmax.
  destruct (Rle_dec a b); destruct (Rle_dec _ c); lra.
Qed.

Lemma Rabs_of_nonneg (a b : R) : 0 <= a -> a = b -> Rabs a = b.
Proof. intros Ha <-. now apply Rabs_pos_eq. Qed.

Lemma Rabs_of_neg (a b : R) : a <= 0 -> - a = b -> Rabs a = b.
Proof. intros Ha <-. rewrite <- Rabs_Ropp. apply Rabs_pos_eq. lra. Qed.


End IdealPredicates.

(** ** pnpoly *)

Section PnpolyLoop.
Context {D : Type} `{DoubleOps D}.
Local Open Scope double_scope.

Variable rc : D.

(** The loop stops with [true] at the first edge the point is between. *)
Lemma pnpoly_loop_between (Test : Point.t D) (vs : list (Point.t D)) :
  forall Test_1 value,
    Exists (fun e => Point.AreBetween rc (fst e) (snd e) Test = true)
           (edges_from Test_1 vs) ->
    Poly.pnpoly_loop rc Test Test_1 vs value = true.
Proof.
  induction vs as [|v vs IH]; intros Test_1 value Hex; simpl in *.
  - inversion Hex.
  - destruct (Point.AreBetween rc Test_1 v Test) eqn:Hb; [reflexivity|].
    apply IH. inversion Hex as [e l He|e l Hl]; subst; [|exact Hl].
    simpl in He. congruence.
Qed.

(** Where the point is between no edge, the loop is the parity count. *)
Lemma pnpoly_loop_crossings (Test : Point.t D) (vs : list (Point.t D)) :
  forall Test_1 value,
    Forall (fun e => Point.AreBetween rc (fst e) (snd e) Test = false)
           (edges_from Test_1 vs) ->
    Poly.pnpoly_loop rc Test Test_1 vs value
    = fold_left (fun value e => Poly.crossing (fst e) (snd e) Test value)
                (edges_from Test_1 vs) value.
Proof.
  induction vs as [|v vs IH]; intros Test_1 value Hall; simpl in *; [reflexivity|].
  inversion Hall as [|e l He Hl]; subst. simpl in He. rewrite He. now apply IH.
Qed.

Lemma last_cons (A : Type) (l : list A) :
  forall a d : A, last (a :: l) d = last l a.
Proof.
  induction l as [|b l IH]; intros a d; [reflexivity|].
  change (last (a :: b :: l) d) with (last (b :: l) d).
  now rewrite !IH.
Qed.

(** Every vertex is the second end of an edge whose first end stands at
    another position of the list. *)
Lemma edges_from_into (pre post : list (Point.t D)) (v : Point.t D) :
  forall Test_1, In (last pre Test_1, v) (edges_from Test_1 (pre ++ v :: post)).
Proof.
  induction pre as [|u pre IH]; intros Test_1.
  - now left.
  - rewrite last_cons. right. apply IH.
Qed.

End PnpolyLoop.

(** ** Polygons with real vertices *)

Section IdealPolygon.
Local Open Scope R_scope.

Ltac Rb_cases :=
  repeat match goal with
         | |- context [Rltb ?a ?b] =>
             let E := fresh "E" in
             destruct (Rltb a b) eqn:E;
             [apply Rltb_true in E | apply Rltb_false in E]
         | |- context [Rleb ?a ?b] =>
             let E := fresh "E" in
             destruct (Rleb a b) eqn:E;
             [apply Rleb_true in E | apply Rleb_false in E]
         | |- context [Reqb ?a ?b] =>
             let E := fresh "E" in
             destruct (Reqb a b) eqn:E;
             [apply Reqb_true in E | apply Reqb_false in E]
         end.

Lemma IsEqual_of_pair (u v : R * R) :
  Point.IsEqual (Ideal.of_pair u) (Ideal.of_pair v) = true <-> u = v.
Proof.
  destruct u as [a b], v as [c d]. unfold Point.IsEqual, Ideal.of_pair, Ideal.pt. cbn.
  Rb_cases; cbn; split; intros Heq; try discriminate; try reflexivity;
    try (inversion Heq; lra); congruence.
Qed.

Lemma IsEqual_of_pair_false (u v : R * R) :
  u <> v -> Point.IsEqual (Ideal.of_pair u) (Ideal.of_pair v) = false.
Proof.
  intros Hne. apply Bool.not_true_iff_false. intros Heq.
  now apply IsEqual_of_pair in Heq.
Qed.

Lemma existsb_IsEqual_In (v : R * R) (vs : list (R * R)) :
  existsb (Point.IsEqual (Ideal.of_pair v)) (map Ideal.of_pair vs) = false ->
  ~ In v vs.
Proof.
  intros Hex Hin. apply Bool.not_true_iff_false in Hex. apply Hex.
  apply existsb_exists. exists (Ideal.of_pair v). split.
  - now apply in_map.
  - now apply IsEqual_of_pair.
Qed.

Lemma pairwise_distinct_NoDup (vs : list (R * R)) :
  pairwise_distinct (map Ideal.of_pair vs) = true -> NoDup vs.
Proof.
  induction vs as [|v vs IH]; simpl; intros Hd; constructor.
  - apply andb_prop in Hd as [Hv _]. apply negb_true_iff in Hv.
    now apply existsb_IsEqual_In.
  - apply andb_prop in Hd as [_ Hd]. now apply IH.
Qed.

Lemma extrema_step_Fin (mnx mny mxx mxy a b : R) :
  extrema_step (Fin mnx, Fin mny, Fin mxx, Fin mxy) (Ideal.of_pair (a, b))
  = (Fin (if Rltb a mnx then a else mnx), Fin (if Rltb b mny then b else mny),
     Fin (if Rltb mxx a then a else mxx), Fin (if Rltb mxy b then b else mxy)).
Proof.
  unfold extrema_step, Ideal.of_pair, Ideal.pt. cbn.
  destruct (Rltb a mnx), (Rltb b mny), (Rltb mxx a), (Rltb mxy b); reflexivity.
Qed.

(** The extrema of vertices with real coordinates are real and bound them. *)
Lemma extrema_fold_bounds (vs : list (R * R)) :
  forall mnx mny mxx mxy : R,
  exists mnx' mny' mxx' mxy' : R,
    fold_left extrema_step (map Ideal.of_pair vs) (Fin mnx, Fin mny, Fin mxx, Fin mxy)
    = (Fin mnx', Fin mny', Fin mxx', Fin mxy')
    /\ mnx' <= mnx /\ mny' <= mny /\ mxx <= mxx' /\ mxy <= mxy'
    /\ forall v, In v vs ->
                 mnx' <= fst v <= mxx' /\ mny' <= snd v <= mxy'.
Proof.
  induction vs as [|[a b] vs IH]; intros mnx mny mxx mxy.
  - exists mnx, mny, mxx, mxy. simpl. repeat split; try lra; contradiction.
  - cbn [map fold_left]. rewrite extrema_step_Fin.
    set (r1 := if Rltb a mnx then a else mnx).
    set (r2 := if Rltb b mny then b else mny).
    set (r3 := if Rltb mxx a then a else mxx).
    set (r4 := if Rltb mxy b then b else mxy).
    assert (H1 : r1 <= mnx /\ r1 <= a) by (subst r1; Rb_cases; lra).
    assert (H2 : r2 <= mny /\ r2 <= b) by (subst r2; Rb_cases; lra).
    assert (H3 : mxx <= r3 /\ a <= r3) by (subst r3; Rb_cases; lra).
    assert (H4 : mxy <= r4 /\ b <= r4) by (subst r4; Rb_cases; lra).
    clearbody r1 r2 r3 r4.
    destruct (IH r1 r2 r3 r4) as (m1 & m2 & m3 & m4 & Hf & ? & ? & ? & ? & Hb).
    exists m1, m2, m3, m4. split; [exact Hf|].
    split; [lra|]. split; [lra|]. split; [lra|]. split; [lra|].
    intros v [Hv|Hv].
    + subst v. cbn. lra.
    + apply Hb in Hv. exact Hv.
Qed.

Lemma bounding_box_bounds (vs : list (R * R)) :
  vs <> [] ->
  exists mnx mny mxx mxy : R,
    bounding_box (map Ideal.of_pair vs) = (Fin mnx, Fin mny, Fin mxx, Fin mxy)
    /\ forall v, In v vs -> mnx <= fst v <= mxx /\ mny <= snd v <= mxy.
Proof.
  destruct vs as [|[a b] vs]; [congruence|]. intros _.
  unfold bounding_box. cbn [map fold_left].
  replace (extrema_step (INFINITY, INFINITY, (- INFINITY)%dbl, (- INFINITY)%dbl)
             (Ideal.of_pair (a, b)))
    with (Fin a, Fin b, Fin a, Fin b) by reflexivity.
  destruct (extrema_fold_bounds vs a b a b) as (m1 & m2 & m3 & m4 & Hf & ? & ? & ? & ? & Hb).
  exists m1, m2, m3, m4. split; [exact Hf|].
  intros v [Hv|Hv]; [subst; cbn; lra | now apply Hb].
Qed.

(** What a successful construction tells about a polygon with real vertices. *)
Lemma make_real_polygon (vs : list (R * R)) (p : Poly.t ereal) :
  vs <> [] ->
  Poly.make (map Ideal.of_pair vs) = Ok p ->
  Poly.Vertices p = map Ideal.of_pair vs
  /\ NoDup vs
  /\ (3 <= List.length vs)%nat
  /\ exists mnx mny mxx mxy : R,
       Poly.minx p = Fin mnx /\ Poly.miny p = Fin mny
       /\ Poly.maxx p = Fin mxx /\ Poly.maxy p = Fin mxy
       /\ forall v, In v vs -> mnx <= fst v <= mxx /\ mny <= snd v <= mxy.
Proof.
  intros Hne Hmake. unfold Poly.make, Poly.InitializePoly in Hmake.
  cbn [Poly.Vertices] in Hmake.
  destruct (map Ideal.of_pair vs) as [|w ws] eqn:Hmap.
  { destruct vs; [congruence | discriminate]. }
  cbn [is_empty negb andb] in Hmake.
  destruct (Poly.GetNVertices _ <? 3)%Z eqn:Hn; [discriminate|].
  destruct (Poly.InitializePoly_loop (w :: ws) _) as [ext| |] eqn:Hloop; try discriminate.
  cbn [bind] in Hmake. destruct ext as [[[e1 e2] e3] e4].
  destruct ((e1 ==? e3)%dbl || (e2 ==? e4)%dbl); [discriminate|].
  inversion Hmake; subst p; clear Hmake. cbn [Poly.Vertices Poly.minx Poly.miny Poly.maxx Poly.maxy].
  apply InitializePoly_loop_ok in Hloop as (Hd & _ & Hext).
  rewrite <- Hmap in Hd, Hext. fold (bounding_box (map Ideal.of_pair vs)) in Hext.
  split; [reflexivity|]. split; [now apply pairwise_distinct_NoDup|]. split.
  - apply Z.ltb_ge in Hn. unfold Poly.GetNVertices in Hn. cbn [Poly.Vertices] in Hn.
    rewrite <- Hmap, length_map in Hn. lia.
  - destruct (bounding_box_bounds vs Hne) as (m1 & m2 & m3 & m4 & Hbb & Hb).
    rewrite Hbb in Hext. inversion Hext; subst.
    exists m1, m2, m3, m4. auto.
Qed.

(** A vertex is between the vertex before it and itself. *)
Lemma PerpDistanceToLine_endpoint (r x1 y1 x2 y2 : R) :
  (x1, y1) <> (x2, y2) ->
  Point.PerpDistanceToLine (Fin r) (Ideal.pt x1 y1) (Ideal.pt x2 y2) (Ideal.pt x2 y2)
  = Fin 0.
Proof.
  intros Hne. unfold Point.PerpDistanceToLine. rewrite Distance_pt.
  cbn -[e_div].
  assert (Hd : Ideal.rdist x1 y1 x2 y2 <> 0).
  { intros Hd. apply rdist_zero in Hd as [-> ->]. now apply Hne. }
  destruct (Rltb (Rabs (y2 + - y1)) r).
  - f_equal. rewrite <- Rabs_R0. f_equal. lra.
  - destruct (Rltb (Rabs (x2 + - x1)) r).
    + f_equal. rewrite <- Rabs_R0. f_equal. lra.
    + rewrite e_div_Fin by exact Hd. f_equal.
      replace ((y2 + - y1) * x2 + - ((x2 + - x1) * y2) + x2 * y1 + - (y2 * x1)) with 0 by ring.
      rewrite Rabs_R0. unfold Rdiv. apply Rmult_0_l.
Qed.

Lemma AreBetween_endpoint (r x1 y1 x2 y2 : R) :
  0 < r -> (x1, y1) <> (x2, y2) ->
  Point.AreBetween (Fin r) (Ideal.pt x1 y1) (Ideal.pt x2 y2) (Ideal.pt x2 y2) = true.
Proof.
  intros Hr Hne.
  assert (Hd : Ideal.rdist x2 y2 x1 y1 <> 0).
  { intros Hd. apply rdist_zero in Hd as [-> ->]. now apply Hne. }
  assert (Hm : rmax_dist x1 y1 x2 y2 x2 y2 <> 0).
  { pose proof (rmax_dist_lower x1 y1 x2 y2 x2 y2).
    pose proof (rdist_nonneg x1 y1 x2 y2). rewrite (rdist_sym x1 y1) in *. lra. }
  rewrite AreBetween_distinct by exact Hd.
  rewrite (AreCollinear_from_distance r 0) by (try apply PerpDistanceToLine_endpoint; assumption).
  replace (0 / rmax_dist x1 y1 x2 y2 x2 y2) with 0 by (unfold Rdiv; now rewrite Rmult_0_l).
  replace (Ideal.rdist x2 y2 x1 y1 / Ideal.rdist x2 y2 x1 y1) with 1 by (now field).
  Rb_cases; try lra; reflexivity.
Qed.

(** *** The parity count for a point outside the bounding box *)

Lemma div_unit_interval (a b : R) : 0 <= a <= b -> 0 < b -> 0 <= a / b <= 1.
Proof.
  intros Ha Hb. pose proof (Rinv_0_lt_compat b Hb) as Hi. split.
  - unfold Rdiv. apply Rmult_le_pos; lra.
  - apply Rmult_le_reg_r with b; [exact Hb|].
    unfold Rdiv. rewrite Rmult_assoc, Rinv_l by lra. lra.
Qed.

Lemma crossing_outside (mnx mny mxx mxy tx ty x1 y1 x2 y2 : R) (value : bool) :
  tx < mnx \/ mxx < tx \/ ty < mny \/ mxy < ty ->
  mnx <= x1 <= mxx -> mny <= y1 <= mxy ->
  mnx <= x2 <= mxx -> mny <= y2 <= mxy ->
  Poly.crossing (Ideal.pt x1 y1) (Ideal.pt x2 y2) (Ideal.pt tx ty) value
  = xorb value (xorb (below_right mxx tx ty y1) (below_right mxx tx ty y2)).
Proof.
  intros Hout Hx1 Hy1 Hx2 Hy2. unfold Poly.crossing, below_right, Ideal.pt.
  cbn -[e_div e_leb]. rewrite !e_leb_Rleb.
  destruct (Rltb mxx tx) eqn:Eright;
    [apply Rltb_true in Eright | apply Rltb_false in Eright].
  - (* to the right of the box: every edge that straddles the height toggles *)
    cbn [andb].
    destruct (Rltb y1 ty) eqn:E1; [apply Rltb_true in E1 | apply Rltb_false in E1];
      (destruct (Rltb y2 ty) eqn:E2; [apply Rltb_true in E2 | apply Rltb_false in E2]).
    + replace (Rleb ty y2) with false by (symmetry; apply Rleb_false; lra).
      replace (Rleb ty y1) with false by (symmetry; apply Rleb_false; lra).
      cbn. now destruct value.
    + replace (Rleb ty y2) with true by (symmetry; apply Rleb_true; lra).
      replace (Rleb x1 tx) with true by (symmetry; apply Rleb_true; lra).
      cbn -[e_div]. rewrite e_div_Fin by lra. cbn.
      replace (Rltb _ tx) with true; [now destruct value|].
      symmetry. apply Rltb_true.
      assert (Ht : 0 <= (ty - y1) / (y2 - y1) <= 1) by (apply div_unit_interval; lra).
      replace (x1 + (ty + - y1) * (x2 + - x1) / (y2 + - y1))
        with (x1 + (ty - y1) / (y2 - y1) * (x2 - x1)) by (field; lra).
      nra.
    + replace (Rleb ty y1) with true by (symmetry; apply Rleb_true; lra).
      replace (Rleb ty y2) with false by (symmetry; apply Rleb_false; lra).
      replace (Rleb x1 tx) with true by (symmetry; apply Rleb_true; lra).
      cbn -[e_div]. rewrite e_div_Fin by lra. cbn.
      replace (Rltb _ tx) with true; [now destruct value|].
      symmetry. apply Rltb_true.
      assert (Ht : 0 <= (y1 - ty) / (y1 - y2) <= 1) by (apply div_unit_interval; lra).
      replace (x1 + (ty + - y1) * (x2 + - x1) / (y2 + - y1))
        with (x1 + (y1 - ty) / (y1 - y2) * (x2 - x1)) by (field; lra).
      nra.
    + rewrite andb_false_r. cbn. now destruct value.
  - (* left of, below or above the box: no edge toggles *)
    cbn [andb xorb]. rewrite xorb_false_r.
    destruct Hout as [Hl|[Hr|[Hb|Ha]]]; [| lra | |].
    + replace (Rleb x1 tx) with false by (symmetry; apply Rleb_false; lra).
      replace (Rleb x2 tx) with false by (symmetry; apply Rleb_false; lra).
      now rewrite andb_false_r.
    + replace (Rltb y1 ty) with false by (symmetry; apply Rltb_false; lra).
      replace (Rltb y2 ty) with false by (symmetry; apply Rltb_false; lra).
      cbn. now rewrite andb_false_r.
    + replace (Rleb ty y2) with false by (symmetry; apply Rleb_false; lra).
      replace (Rleb ty y1) with false by (symmetry; apply Rleb_false; lra).
      cbn. now rewrite andb_false_r.
Qed.

Lemma fold_crossing_outside (mnx mny mxx mxy tx ty : R) (vs : list (R * R)) :
  tx < mnx \/ mxx < tx \/ ty < mny \/ mxy < ty ->
  (forall v, In v vs -> mnx <= fst v <= mxx /\ mny <= snd v <= mxy) ->
  forall (u : R * R) (value : bool),
    (mnx <= fst u <= mxx /\ mny <= snd u <= mxy) ->
    fold_left (fun value e => Poly.crossing (fst e) (snd e) (Ideal.pt tx ty) value)
      (edges_from (Ideal.of_pair u) (map Ideal.of_pair vs)) value
    = xorb value (xorb (below_right mxx tx ty (snd u))
                       (below_right mxx tx ty (snd (last vs u)))).
Proof.
  intros Hout. induction vs as [|v vs IH]; intros Hin u value Hu.
  - cbn. now rewrite xorb_nilpotent, xorb_false_r.
  - cbn [map edges_from fold_left fst snd]. rewrite last_cons.
    assert (Hv : mnx <= fst v <= mxx /\ mny <= snd v <= mxy) by (apply Hin; now left).
    rewrite IH; [| intros w Hw; apply Hin; now right | exact Hv].
    unfold Ideal.of_pair at 1 2.
    rewrite (crossing_outside mnx mny mxx mxy) by (try exact Hout; tauto).
    destruct value, (below_right mxx tx ty (snd u)), (below_right mxx tx ty (snd v)),
      (below_right mxx tx ty (snd (last vs v))); reflexivity.
Qed.

Lemma last_map (A B : Type) (f : A -> B) (l : list A) (d : A) :
  last (map f l) (f d) = f (last l d).
Proof.
  induction l as [|a l IH]; [reflexivity|].
  destruct l as [|b l]; [reflexivity|]. exact IH.
Qed.

Lemma last_nonempty (A : Type) (l : list A) (d d' : A) :
  l <> [] -> last l d = last l d'.
Proof.
  destruct l as [|a l]; [congruence|]. intros _. now rewrite !last_cons.
Qed.

Lemma last_In (A : Type) (l : list A) (d : A) : l <> [] -> In (last l d) l.
Proof.
  induction l as [|a l IH]; [congruence|]. intros _.
  destruct l as [|b l]; [now left|]. right. apply IH. discriminate.
Qed.


(** *** The unit square *)

Lemma ideal_unit_square_constructed :
  Poly.make (map Ideal.of_pair Ideal.unit_square_vertices) = Ok Ideal.unit_square.
Proof.
  unfold Poly.make. rewrite InitializePoly_accepts.
  - cbn [Poly.Vertices]. unfold bounding_box, Ideal.unit_square_vertices.
    cbn [map fold_left].
    replace (extrema_step (INFINITY, INFINITY, (- INFINITY)%dbl, (- INFINITY)%dbl)
               (Ideal.of_pair (0, 0)))
      with (Fin 0, Fin 0, Fin 0, Fin 0) by reflexivity.
    rewrite !extrema_step_Fin. Rb_decide. reflexivity.
  - cbn. lia.
  - reflexivity.
  - cbn -[Point.IsEqual Ideal.of_pair].
    rewrite !IsEqual_of_pair_false by (intros Heq; inversion Heq; lra). reflexivity.
  - cbn [Poly.Vertices]. unfold bounding_box, Ideal.unit_square_vertices.
    cbn [map fold_left].
    replace (extrema_step (INFINITY, INFINITY, (- INFINITY)%dbl, (- INFINITY)%dbl)
               (Ideal.of_pair (0, 0)))
      with (Fin 0, Fin 0, Fin 0, Fin 0) by reflexivity.
    rewrite !extrema_step_Fin. Rb_decide. cbn. Rb_decide. reflexivity.
Qed.

(** C7: the code at a concrete input, in exact arithmetic with the robustness
    constant [1/16].  The point [(1, -1/2)] lies strictly below the bounding
    box of the unit square, and [pnpoly], documented to determine whether the
    point lies within the polygon, returns true for it.  The loop of [pnpoly]
    stops with true as soon as [AreBetween] answers true for an edge, and
    [AreBetween], documented to test whether the point lies on the line
    between the two ends, answers true for the edge from [(1, 0)] to [(1, 1)]:
    the point is collinear with the edge, its distance to [(1, 0)] is at most
    the length of the edge, and the side test compares the differences of the
    [x] coordinates only, which are all [0] on a vertical edge. *)
Lemma pnpoly_true_outside_bounding_box :
  Poly.make (map Ideal.of_pair Ideal.unit_square_vertices) = Ok Ideal.unit_square
  /\ (Fin (-1/2) <? Poly.miny Ideal.unit_square)%dbl = true
  /\ Point.AreBetween (Fin (1/16)) (Ideal.pt 1 0) (Ideal.pt 1 1) (Ideal.pt 1 (-1/2)) = true
  /\ Poly.pnpoly (Fin (1/16)) Ideal.unit_square (Ideal.pt 1 (-1/2)) = Ok true.
Proof.
  assert (Hbetween : Point.AreBetween (Fin (1/16)) (Ideal.pt 1 0) (Ideal.pt 1 1)
                       (Ideal.pt 1 (-1/2)) = true).
  { assert (Hm : rmax_dist 1 0 1 1 1 (-1/2) = 3/2).
    { unfold rmax_dist.
      rewrite (rdist_is 1 0 1 1 1), (rdist_is 1 1 1 (-1/2) (3/2)),
              (rdist_is 1 0 1 (-1/2) (1/2)) by lra.
      apply Rmax3_is; lra. }
    rewrite AreBetween_distinct by (rewrite (rdist_is _ _ _ _ 1); lra).
    rewrite (AreCollinear_from_distance _ 0).
    - rewrite Hm, (rdist_is 1 (-1/2) 1 0 (1/2)), (rdist_is 1 1 1 0 1) by lra.
      Rb_decide. reflexivity.
    - rewrite PerpDistanceToLine_vertical.
      + f_equal. apply Rabs_of_nonneg; lra.
      + rewrite (Rabs_of_nonneg _ 1); lra.
      + rewrite (Rabs_of_nonneg _ 0); lra.
    - rewrite Hm. lra. }
  split; [exact ideal_unit_square_constructed|]. split; [|split; [exact Hbetween|]].
  - cbn. apply Rltb_true. lra.
  - unfold Poly.pnpoly. cbn [Poly.Vertices Ideal.unit_square is_empty map
                              Ideal.unit_square_vertices].
    f_equal. apply pnpoly_loop_between. apply Exists_exists.
    exists (Ideal.pt 1 0, Ideal.pt 1 1). split; [|exact Hbetween].
    cbn. right. right. left. reflexivity.
Qed.

Lemma rmax_dist_le (x1 y1 x2 y2 x3 y3 M : R) :
  Ideal.rdist x1 y1 x2 y2 <= M -> Ideal.rdist x2 y2 x3 y3 <= M ->
  Ideal.rdist x1 y1 x3 y3 <= M ->
  rmax_dist x1 y1 x2 y2 x3 y3 <= M.
Proof. intros H1 H2 H3. unfold rmax_dist. repeat apply Rmax_lub; assumption. Qed.

(** A point whose distance to the line is large against the distances of the
    three points is between nothing. *)
Lemma AreBetween_false_far (r p M x1 y1 x2 y2 x3 y3 : R) :
  0 < r ->
  Point.PerpDistanceToLine (Fin r) (Ideal.pt x1 y1) (Ideal.pt x2 y2) (Ideal.pt x3 y3)
  = Fin p ->
  (x1, y1) <> (x2, y2) ->
  rmax_dist x1 y1 x2 y2 x3 y3 <= M ->
  r * M <= p ->
  Point.AreBetween (Fin r) (Ideal.pt x1 y1) (Ideal.pt x2 y2) (Ideal.pt x3 y3) = false.
Proof.
  intros Hr Hp Hne HM Hfar.
  assert (Hm : 0 < rmax_dist x1 y1 x2 y2 x3 y3).
  { pose proof (rmax_dist_lower x1 y1 x2 y2 x3 y3).
    pose proof (rdist_nonneg x1 y1 x2 y2).
    assert (Ideal.rdist x1 y1 x2 y2 <> 0); [|lra].
    intros Hd. apply rdist_zero in Hd as [-> ->]. now apply Hne. }
  unfold Point.AreBetween.
  rewrite (AreCollinear_from_distance r p) by (try exact Hp; lra).
  replace (Rltb _ r) with false; [reflexivity|].
  symmetry. apply Rltb_false.
  apply Rmult_le_reg_r with (rmax_dist x1 y1 x2 y2 x3 y3); [exact Hm|].
  unfold Rdiv. rewrite Rmult_assoc, Rinv_l by lra. nra.
Qed.



End IdealPolygon.

(** The same in binary64 arithmetic with the robustness constant [2^-23], of
    the order of the default [10e-8]; and [AreBetween] answers true for
    [(1, -1)] and the edge from [(1, 0)] to [(1, 1)], false for the same edge
    taken from [(1, 1)] to [(1, 0)]. *)
Lemma pnpoly_true_outside_bounding_box_binary64 :
  Poly.make Example.unit_square_vertices = Ok Example.unit_square
  /\ ((-0.5)%float <? Poly.miny Example.unit_square)%dbl = true
  /\ Poly.pnpoly Example.rc Example.unit_square (Example.pt 1 (-0.5)) = Ok true
  /\ Point.AreBetween Example.rc (Example.pt 1 0) (Example.pt 1 1) (Example.pt 1 (-1)) = true
  /\ Point.AreBetween Example.rc (Example.pt 1 1) (Example.pt 1 0) (Example.pt 1 (-1)) = false.
Proof. repeat split; vm_compute; reflexivity. Qed.

(** ** GradientStepWeights: what the loops compute *)

Lemma for_loop_invariant (St : Type) (Inv : Z -> St -> Prop) (body : Z -> St -> outcome St) :
  forall (n : nat) (i : Z) (s : St),
    Inv i s ->
    (forall k s, (i <= k < i + Z.of_nat n)%Z -> Inv k s ->
                 exists s', body k s = Ok s' /\ Inv (k + 1)%Z s') ->
    exists s', for_loop n i body s = Ok s' /\ Inv (i + Z.of_nat n)%Z s'.
Proof.
  induction n as [|n IH]; intros i s Hinv Hstep.
  - exists s. split; [reflexivity|]. now replace (i + Z.of_nat 0)%Z with i by lia.
  - cbn [for_loop]. destruct (Hstep i s) as (s1 & -> & Hinv1); [lia | exact Hinv|].
    cbn [bind]. destruct (IH (i + 1)%Z s1 Hinv1) as (s' & Hrun & Hinv').
    + intros k s2 Hk. apply Hstep. lia.
    + exists s'. split; [exact Hrun|].
      now replace (i + Z.of_nat (S n))%Z with (i + 1 + Z.of_nat n)%Z by lia.
Qed.

Lemma length_list_set (A : Type) (v : list A) :
  forall n a, List.length (list_set v n a) = List.length v.
Proof. induction v as [|h t IH]; intros [|n] a; simpl; auto. Qed.

Lemma nth_list_set_same (A : Type) (v : list A) :
  forall n a d, (n < List.length v)%nat -> nth n (list_set v n a) d = a.
Proof.
  induction v as [|h t IH]; intros [|n] a d Hn; simpl in *; try lia; auto.
  apply IH. lia.
Qed.

Lemma nth_list_set_other (A : Type) (v : list A) :
  forall n m a d, n <> m -> nth m (list_set v n a) d = nth m v d.
Proof.
  induction v as [|h t IH]; intros [|n] [|m] a d Hnm; simpl; auto; try congruence.
Qed.

Lemma length_vec_set (A : Type) (v : list A) (i : Z) (a : A) :
  List.length (vec_set v i a) = List.length v.
Proof. unfold vec_set. destruct (i <? 0)%Z; [reflexivity | apply length_list_set]. Qed.

Lemma vec_get_set_same (A : Type) (v : list A) (i : Z) (a d : A) :
  (0 <= i < Z.of_nat (List.length v))%Z -> vec_get d (vec_set v i a) i = a.
Proof.
  intros Hi. unfold vec_get, vec_set.
  replace (i <? 0)%Z with false by (symmetry; apply Z.ltb_ge; lia).
  apply nth_list_set_same. lia.
Qed.

Lemma vec_get_set_other (A : Type) (v : list A) (i j : Z) (a d : A) :
  i <> j -> vec_get d (vec_set v i a) j = vec_get d v j.
Proof.
  intros Hij. unfold vec_get, vec_set.
  destruct (j <? 0)%Z eqn:Hj; [reflexivity|].
  destruct (i <? 0)%Z eqn:Hi; [reflexivity|].
  apply nth_list_set_other. apply Z.ltb_ge in Hi, Hj. lia.
Qed.

Lemma Array_set_same (D : Type) (arr : Mult_Array D) (i j : Z) (v : D) :
  Array_set arr i j v i j = v.
Proof. unfold Array_set. now rewrite !Z.eqb_refl. Qed.

Lemma Array_set_other (D : Type) (arr : Mult_Array D) (i j i' j' : Z) (v : D) :
  (i', j') <> (i, j) -> Array_set arr i j v i' j' = arr i' j'.
Proof.
  intros Hne. unfold Array_set.
  destruct (Z.eqb_spec i' i); [|reflexivity].
  destruct (Z.eqb_spec j' j); [|reflexivity]. subst. congruence.
Qed.

Lemma zrange_snoc (lo : Z) (n : nat) :
  zrange lo (S n) = zrange lo n ++ [(lo + Z.of_nat n)%Z].
Proof. unfold zrange. now rewrite seq_S, map_app. Qed.

Section WeightsDataflow.
Context {D : Type} `{DoubleOps D}.
Local Open Scope double_scope.

Variable fuel : nat.
Variable garbage : Mult_Array D.
Variable p : Partition.t D.
Variable volumes : list D.
Variable SharedEdges : DelaunayGraph.t D.

(** The number of regions, and the value of every line integral the step asks for. *)
Variable N : nat.
Variable li : Z -> Z -> D.

Let G (i j : Z) := DelaunayGraph.Graph SharedEdges i j.
Hypothesis HN : Partition.NRegions p = Z.of_nat N.
Hypothesis Hweights : List.length (Partition.Weights p) = N.
Hypothesis Hintegrals :
  forall i j, (0 <= i < j)%Z -> (j < Z.of_nat N)%Z -> edge_defined SharedEdges i j = true ->
    Density.LineIntegral fuel (Partition.Prior p)
      (Parameters.line_int_step (Partition.Alg_Params p)) (fst (G i j)) (snd (G i j))
    = Ok (li i j).

Lemma upper_loop (ii : Z) (st0 : Partition.gsw_state) :
  (0 <= ii < Z.of_nat N)%Z ->
  List.length (Partition.totals st0) = N ->
  vec_get (of_int 0) (Partition.totals st0) ii = of_int 0 ->
  cells_filled p volumes SharedEdges N li ii (ii + 1) st0 ->
  exists st,
    for_loop (Z.to_nat (Partition.NRegions p - (ii + 1))) (ii + 1)
      (Partition.GradientStepWeights_upper fuel p volumes SharedEdges ii) st0 = Ok st
    /\ Partition.gsw_Weights st = Partition.gsw_Weights st0
    /\ List.length (Partition.totals st) = N
    /\ vec_get (of_int 0) (Partition.totals st) ii
       = fold_left (fun t j => t + term_upper p volumes SharedEdges li ii j)
           (zrange (ii + 1) (N - S (Z.to_nat ii))) (of_int 0)
    /\ cells_filled p volumes SharedEdges N li (ii + 1) (ii + 2) st.
Proof.
  intros Hii Hlen Hzero Hcells.
  set (Inv := fun (jj : Z) (st : Partition.gsw_state) =>
                Partition.gsw_Weights st = Partition.gsw_Weights st0
                /\ List.length (Partition.totals st) = N
                /\ vec_get (of_int 0) (Partition.totals st) ii
                   = fold_left (fun t j => t + term_upper p volumes SharedEdges li ii j)
                       (zrange (ii + 1) (Z.to_nat (jj - (ii + 1)))) (of_int 0)
                /\ cells_filled p volumes SharedEdges N li ii jj st).
  destruct (for_loop_invariant _ Inv
              (Partition.GradientStepWeights_upper fuel p volumes SharedEdges ii)
              (Z.to_nat (Partition.NRegions p - (ii + 1))) (ii + 1)%Z st0)
    as (st & Hrun & HW & Hl & Htot & Hc).
  - unfold Inv. replace (Z.to_nat (ii + 1 - (ii + 1))) with 0%nat by lia.
    cbn. auto.
  - intros jj st Hjj (HW & Hl & Htot & Hc). rewrite HN in Hjj.
    unfold Partition.GradientStepWeights_upper.
    fold (edge_defined SharedEdges ii jj). fold (G ii jj).
    assert (Hv : (if edge_defined SharedEdges ii jj
                  then Density.LineIntegral fuel (Partition.Prior p)
                         (Parameters.line_int_step (Partition.Alg_Params p))
                         (fst (G ii jj)) (snd (G ii jj))
                  else Ok (of_int 0)) = Ok (cell_integral SharedEdges li ii jj)).
    { unfold cell_integral. destruct (edge_defined SharedEdges ii jj) eqn:Hdef; [|reflexivity].
      apply Hintegrals; [lia | lia | exact Hdef]. }
    rewrite Hv. cbn [bind]. eexists. split; [reflexivity|].
    unfold Inv. cbn [Partition.gsw_Weights Partition.totals Partition.dist
                       Partition.InvAreaDist Partition.integrals].
    split; [exact HW|]. split; [now rewrite length_vec_set|]. split.
    + rewrite vec_get_set_same by lia.
      replace (Z.to_nat (jj + 1 - (ii + 1))) with (S (Z.to_nat (jj - (ii + 1)))) by lia.
      rewrite zrange_snoc, fold_left_app. cbn [fold_left].
      replace (ii + 1 + Z.of_nat (Z.to_nat (jj - (ii + 1))))%Z with jj by lia.
      rewrite <- Htot. unfold term_upper.
      rewrite !(Array_set_other _ _ jj ii ii jj) by (intros Heq; inversion Heq; lia).
      rewrite !Array_set_same. reflexivity.
    + intros a b Hab Hb Hrow.
      cbn [Partition.dist Partition.InvAreaDist Partition.integrals].
      destruct (Z.eq_dec b jj) as [->|Hbj].
      * destruct (Z.eq_dec a ii) as [->|Hai].
        -- rewrite !(Array_set_other _ _ jj ii ii jj) by (intros Heq; inversion Heq; lia).
           rewrite !Array_set_same. repeat split; reflexivity.
        -- rewrite !(Array_set_other _ _ jj ii a jj),
                   !(Array_set_other _ _ jj ii jj a),
                   !(Array_set_other _ _ ii jj a jj),
                   !(Array_set_other _ _ ii jj jj a)
             by (intros Heq; inversion Heq; lia).
           apply Hc; lia.
      * rewrite !(Array_set_other _ _ jj ii a b),
                !(Array_set_other _ _ jj ii b a),
                !(Array_set_other _ _ ii jj a b),
                !(Array_set_other _ _ ii jj b a)
          by (intros Heq; inversion Heq; lia).
        apply Hc; lia.
  - exists st. split; [exact Hrun|]. split; [exact HW|]. split; [exact Hl|].
    rewrite HN in Htot, Hc. split.
    + rewrite Htot. f_equal. f_equal. lia.
    + intros a b Hab Hb Hrow. apply Hc; lia.
Qed.

Lemma lower_loop (ii : Z) (st0 : Partition.gsw_state) :
  (0 <= ii < Z.of_nat N)%Z ->
  List.length (Partition.totals st0) = N ->
  cells_filled p volumes SharedEdges N li (ii + 1) (ii + 2) st0 ->
  exists st,
    for_loop (Z.to_nat ii) 0 (Partition.GradientStepWeights_lower ii) st0 = Ok st
    /\ Partition.gsw_Weights st = Partition.gsw_Weights st0
    /\ List.length (Partition.totals st) = N
    /\ vec_get (of_int 0) (Partition.totals st) ii
       = fold_left (fun t j => t + term_lower p volumes SharedEdges li ii j) (zrange 0 (Z.to_nat ii))
           (vec_get (of_int 0) (Partition.totals st0) ii)
    /\ cells_filled p volumes SharedEdges N li (ii + 1) (ii + 2) st.
Proof.
  intros Hii Hlen Hcells.
  set (Inv := fun (jj : Z) (st : Partition.gsw_state) =>
                Partition.gsw_Weights st = Partition.gsw_Weights st0
                /\ List.length (Partition.totals st) = N
                /\ vec_get (of_int 0) (Partition.totals st) ii
                   = fold_left (fun t j => t + term_lower p volumes SharedEdges li ii j) (zrange 0 (Z.to_nat jj))
                       (vec_get (of_int 0) (Partition.totals st0) ii)
                /\ cells_filled p volumes SharedEdges N li (ii + 1) (ii + 2) st).
  destruct (for_loop_invariant _ Inv (Partition.GradientStepWeights_lower ii)
              (Z.to_nat ii) 0%Z st0)
    as (st & Hrun & HW & Hl & Htot & Hc).
  - unfold Inv. cbn. auto.
  - intros jj st Hjj (HW & Hl & Htot & Hc).
    unfold Partition.GradientStepWeights_lower. eexists. split; [reflexivity|].
    unfold Inv. cbn [Partition.gsw_Weights Partition.totals Partition.dist
                       Partition.InvAreaDist Partition.integrals].
    split; [exact HW|]. split; [now rewrite length_vec_set|]. split; [|exact Hc].
    rewrite vec_get_set_same by lia.
    replace (Z.to_nat (jj + 1)) with (S (Z.to_nat jj)) by lia.
    rewrite zrange_snoc, fold_left_app. cbn [fold_left].
    replace (0 + Z.of_nat (Z.to_nat jj))%Z with jj by lia.
    rewrite <- Htot. unfold term_lower.
    destruct (Hc jj ii) as (_ & -> & _ & -> & _ & ->); [lia | lia | lia|].
    reflexivity.
  - exists st. split; [exact Hrun|]. split; [exact HW|]. split; [exact Hl|].
    split; [|exact Hc]. rewrite Htot. f_equal. f_equal. lia.
Qed.

Lemma body_step (ii : Z) (st0 : Partition.gsw_state) :
  (0 <= ii < Z.of_nat N)%Z ->
  rows_done p volumes SharedEdges N li ii st0 ->
  exists st,
    Partition.GradientStepWeights_body fuel p volumes SharedEdges ii st0 = Ok st
    /\ rows_done p volumes SharedEdges N li (ii + 1) st.
Proof.
  intros Hii (Hlt & Hlw & Hcells & Hnew & Hold).
  unfold Partition.GradientStepWeights_body.
  set (st1 := Partition.mk_gsw _ _ _ _ _).
  assert (Hlt1 : List.length (Partition.totals st1) = N)
    by (subst st1; cbn; now rewrite length_vec_set).
  assert (Hz1 : vec_get (of_int 0) (Partition.totals st1) ii = of_int 0)
    by (subst st1; cbn; apply vec_get_set_same; lia).
  assert (Hc1 : cells_filled p volumes SharedEdges N li ii (ii + 1) st1).
  { intros a b Hab Hb Hrow. subst st1.
    cbn [Partition.dist Partition.InvAreaDist Partition.integrals].
    rewrite !(Array_set_other _ _ ii ii a b), !(Array_set_other _ _ ii ii b a)
      by (intros Heq; inversion Heq; lia).
    apply Hcells; assumption. }
  destruct (upper_loop ii st1 Hii Hlt1 Hz1 Hc1) as (st2 & -> & HW2 & Hlt2 & Htot2 & Hc2).
  cbn [bind].
  destruct (lower_loop ii st2 Hii Hlt2 Hc2) as (st3 & -> & HW3 & Hlt3 & Htot3 & Hc3).
  cbn [bind]. eexists. split; [reflexivity|].
  assert (HWst : Partition.gsw_Weights st3 = Partition.gsw_Weights st0)
    by (rewrite HW3, HW2; reflexivity).
  assert (Htotal : vec_get (of_int 0) (Partition.totals st3) ii = total_of p volumes SharedEdges N li ii)
    by (rewrite Htot3, Htot2; reflexivity).
  unfold rows_done.
  cbn [Partition.gsw_Weights Partition.totals Partition.dist
         Partition.InvAreaDist Partition.integrals].
  split; [exact Hlt3|]. split.
  { destruct (_ =? 0)%Z; rewrite length_vec_set, HWst; exact Hlw. }
  split.
  { intros a b Hab Hb Hrow. apply Hc3; lia. }
  split.
  - intros k Hk. destruct (Z.eq_dec k ii) as [->|Hki].
    + unfold new_weight. rewrite HWst, Htotal, (Hold ii) by lia.
      destruct (_ =? 0)%Z; apply vec_get_set_same; lia.
    + rewrite HWst. destruct (_ =? 0)%Z;
        (rewrite vec_get_set_other by congruence; apply Hnew; lia).
  - intros k Hk. rewrite HWst.
    destruct (_ =? 0)%Z; (rewrite vec_get_set_other by lia; apply Hold; lia).
Qed.

(** [GradientStepWeights] returns, and every weight is the one [new_weight p volumes SharedEdges N li]
    names: whatever the arithmetic, and whatever the fresh arrays held. *)
Lemma GradientStepWeights_dataflow :
  exists W,
    Partition.GradientStepWeights fuel garbage p volumes SharedEdges
    = Ok (Partition.set_Weights p W)
    /\ List.length W = N
    /\ forall k, (0 <= k < Z.of_nat N)%Z -> vec_get (of_int 0) W k = new_weight p volumes SharedEdges N li k.
Proof.
  unfold Partition.GradientStepWeights. rewrite HN, Nat2Z.id.
  destruct (for_loop_invariant _ (rows_done p volumes SharedEdges N li)
              (Partition.GradientStepWeights_body fuel p volumes SharedEdges) N 0%Z
              (Partition.mk_gsw (repeat (of_int 0) N) garbage garbage garbage
                 (Partition.Weights p)))
    as (st & -> & Hdone).
  - unfold rows_done. cbn [Partition.gsw_Weights Partition.totals].
    split; [apply repeat_length|]. split; [exact Hweights|]. split.
    + intros a b Hab Hb Hrow. lia.
    + split; [intros k Hk; lia | reflexivity].
  - intros k s Hk Hs. apply body_step; [lia | exact Hs].
  - cbn [bind]. destruct Hdone as (_ & Hlw & _ & Hnew & _).
    exists (Partition.gsw_Weights st). split; [reflexivity|]. split; [exact Hlw|].
    intros k Hk. apply Hnew. lia.
Qed.

End WeightsDataflow.

(** ** GradientStepWeights in exact arithmetic *)

Section IdealWeights.
Local Open Scope R_scope.

Lemma Rsum_app (f : nat -> R) (L1 L2 : list nat) :
  Rsum f (L1 ++ L2) = Rsum f L1 + Rsum f L2.
Proof.
  unfold Rsum. induction L1 as [|x L1 IH]; cbn; [lra|]. rewrite IH. lra.
Qed.

Lemma Rsum_ext (f g : nat -> R) (L : list nat) :
  (forall j, In j L -> f j = g j) -> Rsum f L = Rsum g L.
Proof.
  unfold Rsum. induction L as [|x L IH]; intros Hfg; cbn; [reflexivity|].
  rewrite Hfg by now left. rewrite IH; [reflexivity|].
  intros j Hj. apply Hfg. now right.
Qed.

Lemma Rsum_filter (f : nat -> R) (P : nat -> bool) (L : list nat) :
  Rsum f (filter P L) = Rsum (fun j => if P j then f j else 0) L.
Proof.
  unfold Rsum. induction L as [|x L IH]; cbn; [reflexivity|].
  destruct (P x); cbn; rewrite IH; lra.
Qed.

(** A loop adding values that are finite computes the finite sum. *)
Lemma fold_left_Fin (f : Z -> ereal) (rf : nat -> R) (lo : Z) (n : nat) :
  (forall k, (k < n)%nat -> f (lo + Z.of_nat k)%Z = Fin (rf k)) ->
  forall t0 : R,
    fold_left (fun t j => d_add t (f j)) (zrange lo n) (Fin t0)
    = Fin (t0 + Rsum rf (seq 0 n)).
Proof.
  induction n as [|n IH]; intros Hf t0.
  - cbn. f_equal. unfold Rsum. cbn. lra.
  - rewrite zrange_snoc, fold_left_app, IH by (intros k Hk; apply Hf; lia).
    cbn [fold_left]. rewrite Hf by lia. rewrite seq_S, Rsum_app. cbn.
    f_equal. unfold Rsum. cbn. lra.
Qed.

Lemma Rsum_shift (f : nat -> R) (lo n : nat) :
  Rsum (fun k => f (lo + k)%nat) (seq 0 n) = Rsum f (seq lo n).
Proof.
  unfold Rsum. revert lo. induction n as [|n IH]; intros lo; [reflexivity|].
  cbn [seq map fold_right]. rewrite Nat.add_0_r. f_equal.
  rewrite <- seq_shift, map_map, <- (IH (S lo)). f_equal.
  apply map_ext. intros k. f_equal. lia.
Qed.

Lemma vec_get_map_seq (A : Type) (f : nat -> A) (N i : nat) (d : A) :
  (i < N)%nat -> vec_get d (map f (seq 0 N)) (Z.of_nat i) = f i.
Proof.
  intros Hi. unfold vec_get.
  replace (Z.of_nat i <? 0)%Z with false by (symmetry; apply Z.ltb_ge; lia).
  rewrite Nat2Z.id. rewrite nth_indep with (d' := f 0%nat) by (now rewrite length_map, length_seq).
  rewrite map_nth, seq_nth by exact Hi. reflexivity.
Qed.

End IdealWeights.

Section IdealWeightsStep.
Local Open Scope R_scope.

Variable fuel : nat.
Variable garbage : Mult_Array ereal.
Variable p : Partition.t ereal.
Variable volumes : list ereal.
Variable SharedEdges : DelaunayGraph.t ereal.
Variable N : nat.
Variable c : nat -> R * R.
Variables a vol w : nat -> R.
Variable s : R.
Variable l : nat -> nat -> R.

Hypothesis HN : Partition.NRegions p = Z.of_nat N.
Hypothesis Hcenters : Partition.Centers p = map (fun i => Ideal.of_pair (c i)) (seq 0 N).
Hypothesis Hareas : Partition.desired_area p = map (fun i => Fin (a i)) (seq 0 N).
Hypothesis Hvolumes : volumes = map (fun i => Fin (vol i)) (seq 0 N).
Hypothesis Hweights : Partition.Weights p = map (fun i => Fin (w i)) (seq 0 N).
Hypothesis Hstep : Parameters.weights_step (Partition.Alg_Params p) = Fin s.
Hypothesis Hvol : forall i, (i < N)%nat -> vol i <> 0.
Hypothesis Hdistinct : forall i j, (i < j < N)%nat -> c i <> c j.
Hypothesis Hintegrals :
  forall i j, (i < j < N)%nat -> has_shared_edge SharedEdges i j = true ->
    Density.LineIntegral fuel (Partition.Prior p)
      (Parameters.line_int_step (Partition.Alg_Params p))
      (fst (shared_edge SharedEdges i j)) (snd (shared_edge SharedEdges i j))
    = Ok (Fin (l i j)).

Let li (i j : Z) : ereal := Fin (l (Z.to_nat i) (Z.to_nat j)).

(** The summand of region [i] for the region [j], zero where the edge is not
    defined. *)
Let rg (i j : nat) : R :=
  (a j / vol j - a i / vol i)
  * (1 / Ideal.rdist (fst (c i)) (snd (c i)) (fst (c j)) (snd (c j)))
  * (if has_shared_edge SharedEdges i j then l (Nat.min i j) (Nat.max i j) else 0).

Lemma rdist_centers_nonzero (i j : nat) :
  (i < j < N)%nat ->
  Ideal.rdist (fst (c i)) (snd (c i)) (fst (c j)) (snd (c j)) <> 0.
Proof.
  intros Hij Hd. apply rdist_zero in Hd as [Hx Hy].
  apply (Hdistinct i j Hij). destruct (c i), (c j). cbn in *. congruence.
Qed.

Lemma cell_values (i j : nat) :
  (i < j < N)%nat ->
  cell_InvAreaDist p volumes (Z.of_nat i) (Z.of_nat j) = Fin (a j / vol j - a i / vol i)
  /\ d_div (of_int 1) (cell_dist p (Z.of_nat i) (Z.of_nat j))
     = Fin (1 / Ideal.rdist (fst (c i)) (snd (c i)) (fst (c j)) (snd (c j)))
  /\ cell_integral SharedEdges li (Z.of_nat i) (Z.of_nat j)
     = Fin (if has_shared_edge SharedEdges i j then l i j else 0).
Proof.
  intros Hij. split; [|split].
  - unfold cell_InvAreaDist. rewrite Hareas, Hvolumes.
    rewrite !vec_get_map_seq by lia. cbn -[e_div].
    rewrite !e_div_Fin by (apply Hvol; lia). reflexivity.
  - unfold cell_dist. rewrite Hcenters, !vec_get_map_seq by lia.
    unfold Ideal.of_pair. rewrite Distance_pt. cbn -[e_div].
    rewrite e_div_Fin by (now apply rdist_centers_nonzero). reflexivity.
  - unfold cell_integral, edge_defined, li, has_shared_edge, shared_edge.
    rewrite Nat.min_l, Nat.max_r, !Nat2Z.id by lia.
    now destruct (negb _).
Qed.

Lemma term_upper_value (i j : nat) :
  (i < j < N)%nat ->
  term_upper p volumes SharedEdges li (Z.of_nat i) (Z.of_nat j) = Fin (rg i j).
Proof.
  intros Hij. destruct (cell_values i j Hij) as (Hiad & Hd & Hint).
  unfold term_upper. rewrite Hiad, Hd, Hint. unfold rg.
  rewrite Nat.min_l, Nat.max_r by lia. reflexivity.
Qed.

Lemma term_lower_value (i j : nat) :
  (j < i < N)%nat ->
  term_lower p volumes SharedEdges li (Z.of_nat i) (Z.of_nat j) = Fin (rg i j).
Proof.
  intros Hij. destruct (cell_values j i Hij) as (Hiad & Hd & Hint).
  unfold term_lower. rewrite Hiad, Hd, Hint. unfold rg, has_shared_edge, shared_edge.
  rewrite (Nat.min_comm i j), (Nat.max_comm i j).
  rewrite Nat.min_l, Nat.max_r by lia.
  rewrite (rdist_sym (fst (c i))). cbn. f_equal. ring.
Qed.

Lemma total_of_value (i : nat) :
  (i < N)%nat ->
  total_of p volumes SharedEdges N li (Z.of_nat i)
  = Fin (Rsum (rg i) (seq (S i) (N - S i)) + Rsum (rg i) (seq 0 i)).
Proof.
  intros Hi. unfold total_of. rewrite Nat2Z.id.
  change (of_int 0) with (Fin 0).
  rewrite (fold_left_Fin _ (fun k => rg i (S i + k)%nat)).
  - rewrite (fold_left_Fin _ (rg i)).
    + rewrite Rsum_shift. f_equal. lra.
    + intros k Hk. replace (0 + Z.of_nat k)%Z with (Z.of_nat k) by lia.
      apply term_lower_value. lia.
  - intros k Hk.
    replace (Z.of_nat i + 1 + Z.of_nat k)%Z with (Z.of_nat (S i + k)) by lia.
    apply term_upper_value. lia.
Qed.

Lemma weight_sum_value (i : nat) :
  (i < N)%nat ->
  weight_sum N a vol c (has_shared_edge SharedEdges) (fun i j => l (Nat.min i j) (Nat.max i j)) i
  = Rsum (rg i) (seq (S i) (N - S i)) + Rsum (rg i) (seq 0 i).
Proof.
  intros Hi. unfold weight_sum. rewrite Rsum_filter.
  replace (seq 0 N) with (seq 0 i ++ [i] ++ seq (S i) (N - S i)).
  2:{ replace N with (i + (1 + (N - S i)))%nat at 2 by lia.
      rewrite !seq_app. cbn [seq Nat.add].
      now replace (i + 1)%nat with (S i) by lia. }
  rewrite !Rsum_app.
  replace (Rsum _ [i]) with 0.
  2:{ unfold Rsum. cbn. rewrite Nat.eqb_refl. cbn. lra. }
  rewrite (Rsum_ext _ (rg i) (seq 0 i)), (Rsum_ext _ (rg i) (seq (S i) _)); [lra| |].
  - intros j Hj. apply in_seq in Hj.
    replace (j =? i)%nat with false by (symmetry; apply Nat.eqb_neq; lia).
    unfold rg. cbn. destruct (has_shared_edge SharedEdges i j); lra.
  - intros j Hj. apply in_seq in Hj.
    replace (j =? i)%nat with false by (symmetry; apply Nat.eqb_neq; lia).
    unfold rg. cbn. destruct (has_shared_edge SharedEdges i j); lra.
Qed.


End IdealWeightsStep.

(** ** GradientStepWeights on the two halves of the unit square *)

Section IdealHalves.
Local Open Scope R_scope.

Lemma e_to_int_unit (r : R) : 0 <= r < 1 -> e_to_int (Fin r) = 0%Z.
Proof.
  intros Hr. unfold e_to_int.
  replace (Rleb 0 r) with true by (symmetry; apply Rleb_true; lra).
  rewrite <- (tech_up r 1); [reflexivity | simpl; lra | simpl; lra].
Qed.

(** The interpolated density is [1] in the cell of the grid. *)
Lemma InterpolateValue_uniform_field (x y : R) :
  0 <= x < 1 -> 0 <= y < 1 ->
  Density.InterpolateValue Ideal.uniform_field (Ideal.pt x y) = Fin 1.
Proof.
  intros Hx Hy. unfold Density.InterpolateValue, Ideal.uniform_field, Ideal.pt.
  cbn [Density.minx Density.miny Density.dx Density.dy Density.Nx Density.Ny
       Density.Values Point.x Point.y].
  cbn [to_int d_sub d_div ereal_ops e_sub e_add e_neg].
  rewrite !e_div_Fin by lra.
  rewrite !e_to_int_unit by lra.
  cbn -[e_div]. rewrite !e_div_Fin by lra. unfold vec_get. simpl.
  apply f_equal. field.
Qed.

(** With [line_int_step = 1/2] the loop of [LineIntegral] runs once, over the
    first half of the edge. *)
Lemma LineIntegral_uniform_field :
  Density.LineIntegral 1 Ideal.uniform_field (Fin (/ 2)) (Ideal.pt (/ 2) 0) (Ideal.pt (/ 2) 1)
  = Ok (Fin (/ 2)).
Proof.
  unfold Density.LineIntegral.
  replace (is_empty (Density.Values Ideal.uniform_field)) with false by reflexivity.
  replace (d_leb (Fin (/ 2)) (of_int 0)) with false
    by (symmetry; apply e_leb_Fin_false; simpl; lra).
  replace (d_ltb (of_int 1) (Fin (/ 2))) with false
    by (symmetry; apply e_ltb_Fin_false; simpl; lra).
  cbn [orb]. rewrite InterpolateValue_uniform_field by lra.
  cbn [Density.LineIntegral_loop].
  replace (d_ltb (of_int 0) (d_sub (of_int 1) (Fin (/ 2)))) with true
    by (symmetry; apply e_ltb_Fin; simpl; lra).
  replace (d_ltb (d_add (of_int 0) (Fin (/ 2))) (d_sub (of_int 1) (Fin (/ 2)))) with false
    by (symmetry; apply e_ltb_Fin_false; simpl; lra).
  replace (Point.mk _ _) with (Ideal.pt (/ 2) (/ 2))
    by (unfold Ideal.pt; cbn; f_equal; f_equal; lra).
  rewrite InterpolateValue_uniform_field by lra.
  cbn [bind]. rewrite Distance_pt.
  rewrite (rdist_is _ _ _ _ 1); [| lra | ring].
  cbn -[e_div]. rewrite e_div_Fin by lra. do 2 apply f_equal. lra.
Qed.


End IdealHalves.

(** The same step in binary64 arithmetic gives the same weights. *)
Lemma GradientStepWeights_halves_binary64 :
  Partition.GradientStepWeights 1 (fun _ _ => nan) Example.partition_halves
    [0.5; 0.5]%float Example.half_graph
  = Ok (Partition.set_Weights Example.partition_halves [-0.125; 0.125]%float).
Proof. vm_compute. reflexivity. Qed.

(** * Further properties of the code *)

(** ** Collinear overlaps and the construction of a density *)

Section CollinearOverlap.
Context {D : Type} `{DoubleOps D}.
Local Open Scope double_scope.

Variable rc : D.

(** X1. [FindCollinearIntersection] returns at most two points.  Each of them
    is an end point of one of the two segments, and [AreBetween] places it
    between the end points of the other segment.  The result is empty exactly
    when neither [p3] nor [p4] is between [p1] and [p2], and [p1] and [p2]
    are not both between [p3] and [p4]. *)
Theorem FindCollinearIntersection_end_points (p1 p2 p3 p4 : Point.t D) :
  (List.length (Point.FindCollinearIntersection rc p1 p2 p3 p4) <= 2)%nat
  /\ (forall q, In q (Point.FindCollinearIntersection rc p1 p2 p3 p4) ->
        (q = p3 /\ Point.AreBetween rc p1 p2 p3 = true)
        \/ (q = p4 /\ Point.AreBetween rc p1 p2 p4 = true)
        \/ (q = p1 /\ Point.AreBetween rc p3 p4 p1 = true)
        \/ (q = p2 /\ Point.AreBetween rc p3 p4 p2 = true))
  /\ (Point.FindCollinearIntersection rc p1 p2 p3 p4 = [] <->
        Point.AreBetween rc p1 p2 p3 = false
        /\ Point.AreBetween rc p1 p2 p4 = false
        /\ Point.AreBetween rc p3 p4 p1 && Point.AreBetween rc p3 p4 p2 = false).
Proof.
  unfold Point.FindCollinearIntersection.
  destruct (Point.AreBetween rc p1 p2 p3) eqn:E3;
    destruct (Point.AreBetween rc p1 p2 p4) eqn:E4;
    destruct (Point.AreBetween rc p3 p4 p1) eqn:E1;
    destruct (Point.AreBetween rc p3 p4 p2) eqn:E2;
    cbn [andb];
    repeat match goal with
           | |- context [if ?c then _ else _] => destruct c
           end;
    (split; [cbn; lia|]);
    (split; [intros q Hq; cbn in Hq; intuition (subst; auto)
            | split; [intros Hnil; try discriminate Hnil; auto
                     | intros (Ha & Hb & Hc); try discriminate; reflexivity]]).
Qed.

Lemma CheckParameterSizes_without_grid (d : Density.t D) (Nx Ny : Z) (Values : list D) :
  Poly.Vertices (Density.Region d) = [] \/ Nx = 0%Z \/ Ny = 0%Z ->
  Density.CheckParameterSizes (Density.set_grid d Nx Ny Values)
  = Ok (Density.set_grid (Density.set_grid d Nx Ny Values) 0 0 []).
Proof.
  intros Hcase. unfold Density.CheckParameterSizes.
  cbn [Density.set_grid Density.Region Density.Nx Density.Ny].
  destruct Hcase as [Hv | Hn].
  - unfold Poly.GetNVertices. rewrite Hv. reflexivity.
  - destruct (Poly.GetNVertices (Density.Region d) =? 0)%Z; [reflexivity|].
    replace ((Nx =? 0)%Z || (Ny =? 0)%Z) with true; [reflexivity|].
    symmetry. apply orb_true_iff. destruct Hn as [-> | ->]; [left | right]; reflexivity.
Qed.

Lemma SetParameters_no_values (fuel : nat) (d : Density.t D) (Nx Ny : Z) :
  Poly.Vertices (Density.Region d) = [] \/ Nx = 0%Z \/ Ny = 0%Z ->
  Density.SetParameters rc fuel d Nx Ny []
  = Ok (Density.set_dxy (Density.set_grid (Density.set_grid d Nx Ny []) 0 0 [])
          (of_int 0) (of_int 0), []).
Proof.
  intros Hcase.
  destruct fuel; cbn [Density.SetParameters];
    rewrite CheckParameterSizes_without_grid by exact Hcase; reflexivity.
Qed.

Lemma SetParameters_without_grid (fuel : nat) (d : Density.t D) (Nx Ny : Z)
  (Values : list D) :
  (of_int 0 ==? of_int 0) = true ->
  Poly.Vertices (Density.Region d) = [] \/ Nx = 0%Z \/ Ny = 0%Z ->
  exists d',
    Density.SetParameters rc (S fuel) d Nx Ny Values
    = Ok (d', if is_empty Values then []
              else ["Warning: Density values do not have sufficient support. Treated as Uniform"%string])
    /\ Density.Values d' = [] /\ Density.Nx d' = 0%Z /\ Density.Ny d' = 0%Z.
Proof.
  intros Hzero Hcase. cbn [Density.SetParameters].
  rewrite CheckParameterSizes_without_grid by exact Hcase. cbn [bind].
  destruct Values as [|v vs]; cbn [is_empty negb].
  - eexists. split; [reflexivity|]. unfold Density.Setdxy, Poly.GetExtrema. cbn. auto.
  - unfold Density.Setdxy, Poly.GetExtrema, Density.CreateIntegralCoefficients,
      Density.CreateIntegralVector.
    cbn [Density.set_grid Density.set_dxy Density.Nx Density.Ny Density.Region Z.eqb negb andb
         Z.sub Z.add Z.opp Z.to_nat for_loop bind Density.set_Integral Density.Integral
         Density.GridInRegion Density.minx Density.miny Density.Values Z.mul
         Int_Params.Coefficient_a Int_Params.Coefficient_b Int_Params.Coefficient_c
         Int_Params.Coefficient_d Int_Params.Int Int_Params.Intx Int_Params.Inty
         Int_Params.Unweighted_Area Density.set_Values seq map fold_left].
    rewrite Hzero, SetParameters_no_values by (right; left; reflexivity).
    cbn [bind]. eexists. split; [reflexivity|]. cbn. auto.
Qed.

(** X2. A density built on a region without vertices, or with [Nx = 0] or
    [Ny = 0], is built without an error: [CheckParameterSizes] drops the
    values and sets both grid sizes to [0].  When the [Values] it is given
    are empty nothing is written; when they are not, [SetParameters] still
    runs [PreprocessIntegral] (its test reads the parameter, not the member
    that was cleared), the total is [0], and the warning
    "Warning: Density values do not have sufficient support. Treated as Uniform"
    is written once.  On the density that results [CalculateWeightedArea],
    [CalculateCentroid] and [LineIntegral] all throw
    "Values have not been set!".  ([0 == 0] is assumed of the arithmetic.) *)
Theorem make_without_grid (fuel : nat) (Region : Poly.t D) (Nx Ny : Z) (Values : list D) :
  (of_int 0 ==? of_int 0) = true ->
  Poly.Vertices Region = [] \/ Nx = 0%Z \/ Ny = 0%Z ->
  exists d,
    Density.make rc (S fuel) Region Nx Ny Values
    = Ok (d, if is_empty Values then []
             else ["Warning: Density values do not have sufficient support. Treated as Uniform"%string])
    /\ Density.Values d = []
    /\ Density.Nx d = 0%Z /\ Density.Ny d = 0%Z
    /\ (forall Test, Density.CalculateWeightedArea rc d Test = Throw "Values have not been set!")
    /\ (forall Test Volume,
          Density.CalculateCentroid rc d Test Volume = Throw "Values have not been set!")
    /\ (forall fuel' spacing p1 p2,
          Density.LineIntegral fuel' d spacing p1 p2 = Throw "Values have not been set!").
Proof.
  intros Hzero Hcase. unfold Density.make, Poly.GetExtrema.
  destruct (SetParameters_without_grid fuel
              (Density.mk Region 0 0 (of_int 0) (of_int 0) (Poly.minx Region)
                 (Poly.miny Region) (Poly.maxx Region) (Poly.maxy Region) (of_int 0) [] []
                 (Int_Params.mk [] [] [] [] [] [] [] (of_int 0)))
              Nx Ny Values Hzero Hcase) as (d & Hrun & Hvals & Hnx & Hny).
  exists d. split; [exact Hrun|]. split; [exact Hvals|]. split; [exact Hnx|].
  split; [exact Hny|]. split; [|split].
  - intros Test. unfold Density.CalculateWeightedArea. now rewrite Hvals.
  - intros Test Volume. unfold Density.CalculateCentroid. now rewrite Hvals.
  - intros f s p1 p2. unfold Density.LineIntegral. now rewrite Hvals.
Qed.

(** X3. On a region with vertices and with [Nx] and [Ny] different from [0],
    the construction of a density throws
    "The size of Values must be equal to Nx*Ny" whenever the number of values
    is not [Nx * Ny]; this holds for an empty [Values] too. *)
Theorem make_rejects_wrong_size (fuel : nat) (Region : Poly.t D) (Nx Ny : Z) (Values : list D) :
  Poly.Vertices Region <> [] -> Nx <> 0%Z -> Ny <> 0%Z ->
  (Nx * Ny)%Z <> Z.of_nat (List.length Values) ->
  Density.make rc fuel Region Nx Ny Values = Throw "The size of Values must be equal to Nx*Ny".
Proof.
  intros Hne Hnx Hny Hsize. unfold Density.make, Poly.GetExtrema.
  assert (Hc : forall d, Density.Region d = Region ->
     Density.CheckParameterSizes (Density.set_grid d Nx Ny Values)
     = Throw "The size of Values must be equal to Nx*Ny").
  { intros d Hr. unfold Density.CheckParameterSizes.
    cbn [Density.set_grid Density.Region Density.Nx Density.Ny Density.Values]. rewrite Hr.
    unfold Poly.GetNVertices.
    destruct (Poly.Vertices Region) as [|v vs]; [congruence|].
    cbn [List.length]. replace (Z.of_nat (S (List.length vs)) =? 0)%Z with false by (symmetry; apply Z.eqb_neq; lia).
    replace (Nx =? 0)%Z with false by (symmetry; now apply Z.eqb_neq).
    replace (Ny =? 0)%Z with false by (symmetry; now apply Z.eqb_neq).
    cbn [orb]. replace (Nx * Ny =? Z.of_nat (List.length Values))%Z with false
      by (symmetry; now apply Z.eqb_neq).
    reflexivity. }
  destruct fuel; cbn [Density.SetParameters]; rewrite Hc by reflexivity; reflexivity.
Qed.

End CollinearOverlap.

Lemma make_without_grid_witness :
  exists d,
    Density.make Example.rc 1 Example.unit_square 0 3 [1%float]
    = Ok (d, ["Warning: Density values do not have sufficient support. Treated as Uniform"%string])
    /\ Density.Values d = []
    /\ Density.CalculateWeightedArea Example.rc d Example.unit_square
       = Throw "Values have not been set!".
Proof.
  destruct (make_without_grid Example.rc 0 Example.unit_square 0 3 [1%float])
    as (d & Hrun & Hv & _ & _ & Harea & _).
  - reflexivity.
  - right. left. reflexivity.
  - exists d. split; [exact Hrun|]. split; [exact Hv | apply Harea].
Defined.

(** The same construction evaluated in binary64 arithmetic. *)
Lemma make_without_grid_binary64 :
  match Density.make Example.rc 1 Example.unit_square 0 3 [1%float] with
  | Ok (d, out) => (Density.Nx d, Density.Ny d, Density.Values d, out)
  | _ => (1%Z, 1%Z, [], [])
  end
  = (0%Z, 0%Z, [],
     ["Warning: Density values do not have sufficient support. Treated as Uniform"%string]).
Proof. vm_compute. reflexivity. Qed.

Lemma make_rejects_wrong_size_witness :
  Density.make Example.rc 1 Example.unit_square 2 2 [1; 1; 1]%float
  = Throw "The size of Values must be equal to Nx*Ny".
Proof.
  apply make_rejects_wrong_size.
  - discriminate.
  - discriminate.
  - discriminate.
  - vm_compute. discriminate.
Defined.

(** ** The sizes of the grid of a density *)

Section GridSizes.
Context {D : Type} `{DoubleOps D}.
Local Open Scope double_scope.

Variable rc : D.

Lemma Coefficients_cell_sizes (d : Density.t D) (xval : D) (ii jj : Z)
  (Grid : list bool) (Integ : Int_Params.t D) (yval : D) (n m : nat) :
  Poly.Vertices (Density.Region d) <> [] ->
  Int_Params_sizes Integ n m ->
  exists Grid' Integ' yval',
    Density.Coefficients_cell rc d xval ii jj (Grid, Integ, yval) = Ok (Grid', Integ', yval')
    /\ List.length Grid'
       = (List.length Grid + 1 + (if (jj =? Density.Ny d - 2)%Z then 1 else 0))%nat
    /\ Int_Params_sizes Integ' (S n) m.
Proof.
  intros Hne (Ha & Hb & Hc & Hd & Hi & Hx & Hy).
  unfold Density.Coefficients_cell.
  destruct (pnpoly_returns rc (Density.Region d)
              (Density.ConvertIndextoWorld d (ii * Density.Ny d + jj)) Hne) as [b0 ->].
  cbn [bind].
  destruct (jj =? Density.Ny d - 2)%Z.
  - destruct (pnpoly_returns rc (Density.Region d)
                (Density.ConvertIndextoWorld d (ii * Density.Ny d + jj + 1)) Hne) as [b1 ->].
    cbn [bind]. do 3 eexists. split; [reflexivity|]. split.
    + rewrite !length_app. cbn. lia.
    + unfold Int_Params_sizes. cbn. rewrite !length_app. cbn. repeat split; lia.
  - do 3 eexists. split; [reflexivity|]. split.
    + rewrite !length_app. cbn. lia.
    + unfold Int_Params_sizes. cbn. rewrite !length_app. cbn. repeat split; lia.
Qed.

Lemma Coefficients_column_sizes (d : Density.t D) (ii : Z)
  (Grid : list bool) (Integ : Int_Params.t D) (yval xval : D) (n m : nat) :
  Poly.Vertices (Density.Region d) <> [] ->
  (2 <= Density.Ny d)%Z ->
  Int_Params_sizes Integ n m ->
  exists Grid' Integ' yval' xval',
    Density.Coefficients_column rc d ii (Grid, Integ, yval, xval)
    = Ok (Grid', Integ', yval', xval')
    /\ List.length Grid'
       = (List.length Grid + Z.to_nat (Density.Ny d)
          + (if (ii =? Density.Nx d - 2)%Z then Z.to_nat (Density.Ny d) else 0))%nat
    /\ Int_Params_sizes Integ' (n + Z.to_nat (Density.Ny d - 1)) m.
Proof.
  intros Hne HNy Hs. unfold Density.Coefficients_column.
  destruct (for_loop_invariant (list bool * Int_Params.t D * D)
              (fun jj '(G, I0, _) =>
                 List.length G
                 = (List.length Grid + Z.to_nat jj
                    + (if (jj =? Density.Ny d - 1)%Z then 1 else 0))%nat
                 /\ Int_Params_sizes I0 (n + Z.to_nat jj) m)
              (Density.Coefficients_cell rc d xval ii)
              (Z.to_nat (Density.Ny d - 1)) 0%Z (Grid, Integ, Density.miny d))
    as ([[G1 I1] y1] & Hrun & Hlen & Hs1).
  - replace (0 =? Density.Ny d - 1)%Z with false by (symmetry; apply Z.eqb_neq; lia).
    cbn. split; [lia|]. now rewrite Nat.add_0_r.
  - intros jj [[G0 I0] y0] Hjj (Hl0 & Hs0).
    destruct (Coefficients_cell_sizes d xval ii jj G0 I0 y0 _ _ Hne Hs0)
      as (G' & I' & y' & -> & Hl' & Hs').
    eexists. split; [reflexivity|]. cbn beta iota. split.
    + rewrite Hl', Hl0.
      replace (jj =? Density.Ny d - 1)%Z with false by (symmetry; apply Z.eqb_neq; lia).
      destruct (Z.eqb_spec jj (Density.Ny d - 2)); destruct (Z.eqb_spec (jj + 1) (Density.Ny d - 1)); lia.
    + replace (n + Z.to_nat (jj + 1))%nat with (S (n + Z.to_nat jj)) by lia. exact Hs'.
  - rewrite Hrun. cbn [bind]. cbn beta iota.
    replace (0 + Z.of_nat (Z.to_nat (Density.Ny d - 1)))%Z with (Density.Ny d - 1)%Z in Hlen, Hs1 by lia.
    rewrite Z.eqb_refl in Hlen.
    destruct (ii =? Density.Nx d - 2)%Z.
    + destruct (for_loop_invariant (list bool * D)
                  (fun jj '(G, _) => List.length G = (List.length G1 + Z.to_nat jj)%nat)
                  (fun jj '(Grid, yval) =>
                     b <- Poly.pnpoly rc (Density.Region d)
                            (Density.ConvertIndextoWorld d ((ii + 1) * Density.Ny d + jj)) ;;
                     Ok (Grid ++ [b], yval + Density.dy d))
                  (Z.to_nat (Density.Ny d)) 0%Z (G1, Density.miny d))
        as ([G2 y2] & Hrun2 & Hlen2).
      * cbn. lia.
      * intros jj [G0 y0] Hjj Hl0.
        destruct (pnpoly_returns rc (Density.Region d)
                    (Density.ConvertIndextoWorld d ((ii + 1) * Density.Ny d + jj)) Hne) as [b ->].
        cbn [bind]. eexists. split; [reflexivity|]. cbn beta iota.
        rewrite length_app, Hl0. cbn. lia.
      * rewrite Hrun2. cbn [bind]. do 4 eexists. split; [reflexivity|]. split; [lia|exact Hs1].
    + do 4 eexists. split; [reflexivity|]. split; [lia|exact Hs1].
Qed.


Lemma CreateIntegralCoefficients_sizes (d : Density.t D) :
  Poly.Vertices (Density.Region d) <> [] ->
  (2 <= Density.Nx d)%Z -> (2 <= Density.Ny d)%Z ->
  exists Grid Integ,
    Density.CreateIntegralCoefficients rc d = Ok (Density.set_Integral d Grid Integ)
    /\ List.length Grid = Z.to_nat (Density.Nx d * Density.Ny d)
    /\ Int_Params_sizes Integ (Z.to_nat ((Density.Nx d - 1) * (Density.Ny d - 1))) 0.
Proof.
  intros Hne HNx HNy. unfold Density.CreateIntegralCoefficients.
  destruct (for_loop_invariant (list bool * Int_Params.t D * D * D)
              (fun ii '(G, I0, _, _) =>
                 List.length G
                 = (Z.to_nat (ii * Density.Ny d)
                    + (if (ii =? Density.Nx d - 1)%Z then Z.to_nat (Density.Ny d) else 0))%nat
                 /\ Int_Params_sizes I0 (Z.to_nat (ii * (Density.Ny d - 1))) 0)
              (Density.Coefficients_column rc d)
              (Z.to_nat (Density.Nx d - 1)) 0%Z
              ([], Int_Params.mk [] [] [] [] [] [] [] (of_int 0), Density.miny d, Density.minx d))
    as ([[[G1 I1] y1] x1] & Hrun & Hlen & Hs1).
  - replace (0 =? Density.Nx d - 1)%Z with false by (symmetry; apply Z.eqb_neq; lia).
    cbn. split; [reflexivity|]. unfold Int_Params_sizes. cbn. auto 10.
  - intros ii [[[G0 I0] y0] x0] Hii (Hl0 & Hs0).
    destruct (Coefficients_column_sizes d ii G0 I0 y0 x0 _ _ Hne HNy Hs0)
      as (G' & I' & y' & x' & -> & Hl' & Hs').
    eexists. split; [reflexivity|]. cbn beta iota. split.
    + rewrite Hl', Hl0.
      replace (ii =? Density.Nx d - 1)%Z with false by (symmetry; apply Z.eqb_neq; lia).
      destruct (Z.eqb_spec ii (Density.Nx d - 2));
        destruct (Z.eqb_spec (ii + 1) (Density.Nx d - 1)); try lia;
        rewrite ?Nat.add_0_r; rewrite <- !Z2Nat.inj_add by nia; f_equal; nia.
    + replace (Z.to_nat ((ii + 1) * (Density.Ny d - 1)))
        with (Z.to_nat (ii * (Density.Ny d - 1)) + Z.to_nat (Density.Ny d - 1))%nat; [exact Hs'|].
      rewrite <- Z2Nat.inj_add by nia. f_equal. nia.
  - rewrite Hrun. cbn [bind]. exists G1, I1. split; [reflexivity|].
    replace (0 + Z.of_nat (Z.to_nat (Density.Nx d - 1)))%Z with (Density.Nx d - 1)%Z in Hlen, Hs1 by lia.
    rewrite Z.eqb_refl in Hlen. split; [|exact Hs1].
    rewrite Hlen. rewrite <- Z2Nat.inj_add by nia. f_equal. nia.
Qed.

Lemma IntegralVector_cell_sizes (d : Density.t D) (xval xval1 : D) (ii jj : Z)
  (Integ : Int_Params.t D) (total : D) (index : Z) (yval1 : D) (n m : nat) :
  Poly.Vertices (Density.Region d) <> [] ->
  Int_Params_sizes Integ n m ->
  exists Integ' total' yval1',
    Density.IntegralVector_cell rc d xval xval1 ii jj (Integ, total, index, yval1)
    = Ok (Integ', total', (index + 1)%Z, yval1')
    /\ Int_Params_sizes Integ' n (S m).
Proof.
  intros Hne (Ha & Hb & Hc & Hd & Hi & Hx & Hy).
  unfold Density.IntegralVector_cell.
  assert (Hsz : forall (I0 : Int_Params.t D) (t0 : D),
    Int_Params_sizes I0 n (S m) ->
    exists Integ' total' yval1',
      (let '(Integ, total) := (I0, t0) in
       Ok (Integ, total, (index + 1)%Z, yval1 + Density.dy d))
      = Ok (Integ', total', (index + 1)%Z, yval1') /\ Int_Params_sizes Integ' n (S m)).
  { intros I0 t0 HI. do 3 eexists. split; [reflexivity | exact HI]. }
  set (Integ1 := Int_Params.mk _ _ _ _ (_ ++ _) (_ ++ _) (_ ++ _) _).
  assert (H1 : Int_Params_sizes Integ1 n (S m)).
  { subst Integ1. unfold Int_Params_sizes. cbn. rewrite !length_app. cbn. repeat split; lia. }
  assert (H2 : Int_Params_sizes
                 (Int_Params.mk (Int_Params.Coefficient_a Integ1) (Int_Params.Coefficient_b Integ1)
                    (Int_Params.Coefficient_c Integ1) (Int_Params.Coefficient_d Integ1)
                    (Int_Params.Int Integ1) (Int_Params.Intx Integ1) (Int_Params.Inty Integ1)
                    (Int_Params.Unweighted_Area Integ1 + Density.dx d * Density.dy d)) n (S m)).
  { exact H1. }
  clearbody Integ1.
  destruct (pnpoly_returns rc (Density.Region d)
              (Density.ConvertIndextoWorld d (ii * Density.Ny d + jj)) Hne) as [b00 ->].
  cbn [bind]. destruct b00; [|cbn [bind]; apply Hsz, H1].
  destruct (pnpoly_returns rc (Density.Region d)
              (Density.ConvertIndextoWorld d ((ii + 1) * Density.Ny d + jj)) Hne) as [b10 ->].
  cbn [bind]. destruct b10; [|cbn [bind]; apply Hsz, H1].
  destruct (pnpoly_returns rc (Density.Region d)
              (Density.ConvertIndextoWorld d (ii * Density.Ny d + jj + 1)) Hne) as [b01 ->].
  cbn [bind]. destruct b01; [|cbn [bind]; apply Hsz, H1].
  destruct (pnpoly_returns rc (Density.Region d)
              (Density.ConvertIndextoWorld d ((ii + 1) * Density.Ny d + jj + 1)) Hne) as [b11 ->].
  cbn [bind]. destruct b11; cbn [bind]; [apply Hsz, H2 | apply Hsz, H1].
Qed.

Lemma CreateIntegralVector_sizes (d : Density.t D) (n0 : nat) :
  Poly.Vertices (Density.Region d) <> [] ->
  (2 <= Density.Nx d)%Z -> (2 <= Density.Ny d)%Z ->
  Int_Params_sizes (Density.Integral d) n0 0 ->
  exists Integ total,
    Density.CreateIntegralVector rc d
    = Ok (Density.set_Integral d (Density.GridInRegion d) Integ, total)
    /\ Int_Params_sizes Integ n0 (Z.to_nat ((Density.Nx d - 1) * (Density.Ny d - 1))).
Proof.
  intros Hne HNx HNy Hs. unfold Density.CreateIntegralVector.
  set (Integ0 := Int_Params.mk _ _ _ _ _ _ _ (of_int 0)).
  assert (Hs0 : Int_Params_sizes Integ0 n0 0) by exact Hs.
  clearbody Integ0.
  match goal with
  | |- context [for_loop ?n ?i ?body ?s] =>
      destruct (for_loop_invariant (Int_Params.t D * D * Z * D)
                  (fun ii '(I0, _, _, _) =>
                     Int_Params_sizes I0 n0 (Z.to_nat (ii * (Density.Ny d - 1))))
                  body n i s)
        as ([[[I1 t1] i1] x1] & Hrun & Hs1)
  end.
  - cbn. exact Hs0.
  - intros ii [[[I0 t0] i0] x0] Hii HI0. cbn zeta.
    destruct (for_loop_invariant (Int_Params.t D * D * Z * D)
                (fun jj '(I2, _, _, _) =>
                   Int_Params_sizes I2 n0 (Z.to_nat (ii * (Density.Ny d - 1)) + Z.to_nat jj))
                (Density.IntegralVector_cell rc d x0 (x0 + Density.dx d) ii)
                (Z.to_nat (Density.Ny d - 1)) 0%Z (I0, t0, i0, Density.miny d))
      as ([[[I3 t3] i3] y3] & Hrun3 & Hs3).
    + cbn. now rewrite Nat.add_0_r.
    + intros jj [[[I2 t2] i2] y2] Hjj HI2.
      destruct (IntegralVector_cell_sizes d x0 (x0 + Density.dx d) ii jj I2 t2 i2 y2 _ _ Hne HI2)
        as (I' & t' & y' & -> & HI').
      eexists. split; [reflexivity|]. cbn beta iota.
      replace (Z.to_nat (ii * (Density.Ny d - 1)) + Z.to_nat (jj + 1))%nat
        with (S (Z.to_nat (ii * (Density.Ny d - 1)) + Z.to_nat jj)) by lia.
      exact HI'.
    + rewrite Hrun3. cbn [bind]. eexists. split; [reflexivity|]. cbn beta iota.
      replace (Z.to_nat ((ii + 1) * (Density.Ny d - 1)))
        with (Z.to_nat (ii * (Density.Ny d - 1))
              + Z.to_nat (0 + Z.of_nat (Z.to_nat (Density.Ny d - 1))))%nat; [exact Hs3|].
      rewrite <- Z2Nat.inj_add by nia. f_equal. nia.
  - rewrite Hrun. cbn [bind]. exists I1, t1. split; [reflexivity|].
    replace ((Density.Nx d - 1) * (Density.Ny d - 1))%Z
      with ((0 + Z.of_nat (Z.to_nat (Density.Nx d - 1))) * (Density.Ny d - 1))%Z by lia.
    exact Hs1.
Qed.


Lemma length_fold_vec_set (A : Type) (f : list A -> Z -> A) (idx : list Z) (v : list A) :
  List.length (fold_left (fun v ii => vec_set v ii (f v ii)) idx v) = List.length v.
Proof.
  revert v. induction idx as [|i idx IH]; intros v; [reflexivity|].
  cbn [fold_left]. rewrite IH. apply length_vec_set.
Qed.

Lemma SetParameters_sizes (fuel : nat) :
  forall (d : Density.t D) (Nx Ny : Z) (Values : list D) (dres : Density.t D)
         (out : list string),
    Poly.Vertices (Density.Region d) <> [] ->
    (2 <= Nx)%Z -> (2 <= Ny)%Z ->
    Density.SetParameters rc fuel d Nx Ny Values = Ok (dres, out) ->
    Density.Region dres = Density.Region d
    /\ Density.Nx dres = Nx /\ Density.Ny dres = Ny
    /\ List.length (Density.Values dres) = Z.to_nat (Nx * Ny)
    /\ List.length (Density.GridInRegion dres) = Z.to_nat (Nx * Ny)
    /\ Int_Params_sizes (Density.Integral dres)
         (Z.to_nat ((Nx - 1) * (Ny - 1))) (Z.to_nat ((Nx - 1) * (Ny - 1))).
Proof.
  induction fuel as [|fuel IH]; intros d Nx Ny Values dres out Hne HNx HNy;
    cbn [Density.SetParameters];
    unfold Density.CheckParameterSizes;
    cbn [Density.set_grid Density.Region Density.Nx Density.Ny Density.Values];
    (replace (Poly.GetNVertices (Density.Region d) =? 0)%Z with false
       by (symmetry; apply Z.eqb_neq; unfold Poly.GetNVertices;
           destruct (Poly.Vertices (Density.Region d)); [congruence | cbn [List.length]; lia]));
    (replace (Nx =? 0)%Z with false by (symmetry; apply Z.eqb_neq; lia));
    (replace (Ny =? 0)%Z with false by (symmetry; apply Z.eqb_neq; lia));
    cbn [orb];
    (destruct (Z.eqb_spec (Nx * Ny) (Z.of_nat (List.length Values))) as [Hlen|Hlen];
     cbn [negb bind]; [|discriminate]);
    set (d1 := Density.set_grid d Nx Ny Values);
    (assert (Hd2 : Density.Setdxy d1
                   = Density.set_dxy d1
                       ((Poly.maxx (Density.Region d) - Poly.minx (Density.Region d))
                        / of_int (Nx - 1))
                       ((Poly.maxy (Density.Region d) - Poly.miny (Density.Region d))
                        / of_int (Ny - 1)))
       by (unfold Density.Setdxy, Poly.GetExtrema; subst d1;
           cbn [Density.set_grid Density.Region Density.Nx Density.Ny];
           replace (Nx =? 0)%Z with false by (symmetry; apply Z.eqb_neq; lia);
           replace (Ny =? 0)%Z with false by (symmetry; apply Z.eqb_neq; lia);
           reflexivity));
    rewrite Hd2; set (d2 := Density.set_dxy d1 _ _);
    (assert (Hv2 : Density.Values d2 = Values) by reflexivity);
    (assert (Hr2 : Density.Region d2 = Density.Region d) by reflexivity);
    (assert (Hnx2 : Density.Nx d2 = Nx) by reflexivity);
    (assert (Hny2 : Density.Ny d2 = Ny) by reflexivity);
    clearbody d2; clear Hd2 d1;
    (assert (Hvne : is_empty Values = false)
       by (destruct Values; [cbn [List.length] in Hlen; nia | reflexivity]));
    rewrite Hvne; cbn [negb];
    (destruct (CreateIntegralCoefficients_sizes d2) as (Grid & Integ & -> & HG & HI);
     [now rewrite Hr2 | lia | lia |]);
    cbn [bind];
    (destruct (CreateIntegralVector_sizes (Density.set_Integral d2 Grid Integ)
                 (Z.to_nat ((Density.Nx d2 - 1) * (Density.Ny d2 - 1))))
       as (Integ' & total & -> & HI');
     [cbn; now rewrite Hr2 | cbn; lia | cbn; lia | exact HI |]);
    cbn [bind]; cbn beta iota;
    cbn [Density.set_Integral Density.Region Density.Nx Density.Ny Density.Values
           Density.GridInRegion Density.Integral] in *;
    rewrite Hnx2, Hny2 in HG, HI';
    destruct (total ==? of_int 0).
  - discriminate.
  - intros Hres. injection Hres as <- <-.
    cbn [Density.set_Integral Density.Region Density.Nx Density.Ny Density.Values
           Density.GridInRegion Density.Integral].
    rewrite Hv2, Hr2. repeat (split; [first [reflexivity | lia | assumption]|]).
    destruct HI' as (Ha & Hb & Hc & Hd & Hi & Hx & Hy).
    unfold Int_Params_sizes. cbn. rewrite !length_fold_vec_set. auto 10.
  - match goal with
    | |- context [Density.SetParameters rc fuel ?d' ?nx ?ny ?vs] =>
        destruct (Density.SetParameters rc fuel d' nx ny vs) as [[d5 out5]| |] eqn:Hrec;
          cbn [bind]; try discriminate;
          apply IH in Hrec; [|cbn; now rewrite Hr2 | cbn; lia | cbn; lia]
    end.
    intros Hres. injection Hres as <- <-.
    cbn [Density.set_Values Density.set_Integral Density.Region Density.Nx Density.Ny] in Hrec.
    rewrite Hnx2, Hny2, Hr2 in Hrec. exact Hrec.
  - intros Hres. injection Hres as <- <-.
    cbn [Density.set_Integral Density.Region Density.Nx Density.Ny Density.Values
           Density.GridInRegion Density.Integral].
    rewrite Hv2, Hr2. repeat (split; [first [reflexivity | lia | assumption]|]).
    destruct HI' as (Ha & Hb & Hc & Hd & Hi & Hx & Hy).
    unfold Int_Params_sizes. cbn. rewrite !length_fold_vec_set. auto 10.
Qed.


Lemma Int_Params_sizes_checked (Integ : Int_Params.t D) (n : nat) :
  Int_Params_sizes Integ n n -> Int_Params.CheckParameters Integ = Ok tt.
Proof.
  intros (Ha & Hb & Hc & Hd & Hi & Hx & Hy). unfold Int_Params.CheckParameters.
  rewrite Ha, Hb, Hc, Hd, Hi, Hx, Hy, !Nat.eqb_refl. cbn.
  now rewrite andb_false_r.
Qed.

(** X4. When the construction of a density returns on a region with vertices
    and a grid of at least 2 x 2 points, the density keeps the region and the
    grid sizes it was given, holds [Nx * Ny] values and as many in-region
    flags, and its seven integral vectors hold one entry for each of the
    [(Nx - 1) * (Ny - 1)] cells, so that [Int_Params::CheckParameters]
    accepts them. *)
Theorem make_grid_sizes (fuel : nat) (Region : Poly.t D) (Nx Ny : Z) (Values : list D)
  (d : Density.t D) (out : list string) :
  Poly.Vertices Region <> [] ->
  (2 <= Nx)%Z -> (2 <= Ny)%Z ->
  Density.make rc fuel Region Nx Ny Values = Ok (d, out) ->
  Density.Region d = Region
  /\ Density.Nx d = Nx /\ Density.Ny d = Ny
  /\ List.length (Density.Values d) = Z.to_nat (Nx * Ny)
  /\ List.length (Density.GridInRegion d) = Z.to_nat (Nx * Ny)
  /\ Int_Params_sizes (Density.Integral d)
       (Z.to_nat ((Nx - 1) * (Ny - 1))) (Z.to_nat ((Nx - 1) * (Ny - 1)))
  /\ Int_Params.CheckParameters (Density.Integral d) = Ok tt.
Proof.
  intros Hne HNx HNy. unfold Density.make, Poly.GetExtrema. intros Hrun.
  apply SetParameters_sizes in Hrun; [|exact Hne | exact HNx | exact HNy].
  destruct Hrun as (Hr & Hnx & Hny & Hv & Hg & Hs).
  repeat (split; [assumption|]). eapply Int_Params_sizes_checked, Hs.
Qed.

End GridSizes.

Lemma make_grid_sizes_witness :
  Density.Nx Example.field = 3%Z /\ Density.Ny Example.field = 3%Z
  /\ List.length (Density.Values Example.field) = 9%nat
  /\ Int_Params_sizes (Density.Integral Example.field) 4 4
  /\ Int_Params.CheckParameters (Density.Integral Example.field) = Ok tt.
Proof.
  destruct (make_grid_sizes Example.rc 1 Example.unit_square 3 3 (repeat 1%float 9)
              Example.field [])
    as (_ & Hnx & Hny & Hv & _ & Hs & Hc).
  - discriminate.
  - lia.
  - lia.
  - vm_compute. reflexivity.
  - repeat split; assumption.
Defined.

(** ** A region that holds no cell of the grid *)

Section NoSupport.
Context {D : Type} `{DoubleOps D}.
Local Open Scope double_scope.

Variable rc : D.

Lemma Coefficients_cell_returns (d : Density.t D) (xval : D) (ii : Z) :
  Poly.Vertices (Density.Region d) <> [] ->
  forall jj st, exists st', Density.Coefficients_cell rc d xval ii jj st = Ok st'.
Proof.
  intros Hne jj [[Grid Integ] yval]. unfold Density.Coefficients_cell.
  destruct (pnpoly_returns rc (Density.Region d)
              (Density.ConvertIndextoWorld d (ii * Density.Ny d + jj)) Hne) as [b0 ->].
  cbn [bind].
  destruct (jj =? Density.Ny d - 2)%Z; [|eexists; reflexivity].
  destruct (pnpoly_returns rc (Density.Region d)
              (Density.ConvertIndextoWorld d (ii * Density.Ny d + jj + 1)) Hne) as [b1 ->].
  cbn [bind]. eexists; reflexivity.
Qed.

Lemma Coefficients_column_returns (d : Density.t D) :
  Poly.Vertices (Density.Region d) <> [] ->
  forall ii st, exists st', Density.Coefficients_column rc d ii st = Ok st'.
Proof.
  intros Hne ii [[[Grid Integ] yval] xval]. unfold Density.Coefficients_column.
  edestruct (for_loop_total (list bool * Int_Params.t D * D)) as [[[G1 I1] y1] ->];
    [apply Coefficients_cell_returns, Hne|].
  cbn [bind]. destruct (ii =? Density.Nx d - 2)%Z; [|eexists; reflexivity].
  edestruct (for_loop_total (list bool * D)) as [[G2 y2] ->]; [|cbn; eexists; reflexivity].
  intros jj [G0 y0].
  destruct (pnpoly_returns rc (Density.Region d)
              (Density.ConvertIndextoWorld d ((ii + 1) * Density.Ny d + jj)) Hne) as [b ->].
  cbn [bind]. eexists; reflexivity.
Qed.

Lemma CreateIntegralCoefficients_returns (d : Density.t D) :
  Poly.Vertices (Density.Region d) <> [] ->
  exists Grid Integ,
    Density.CreateIntegralCoefficients rc d = Ok (Density.set_Integral d Grid Integ).
Proof.
  intros Hne. unfold Density.CreateIntegralCoefficients.
  edestruct (for_loop_total (list bool * Int_Params.t D * D * D)) as [[[[G1 I1] y1] x1] ->];
    [apply Coefficients_column_returns, Hne|].
  cbn [bind]. do 2 eexists. reflexivity.
Qed.

Lemma IntegralVector_cell_zero (d : Density.t D) (xval xval1 : D) (ii jj : Z)
  (Integ : Int_Params.t D) (index : Z) (yval1 : D) :
  Poly.Vertices (Density.Region d) <> [] ->
  no_cell_inside rc d ->
  (0 <= ii < Density.Nx d - 1)%Z -> (0 <= jj < Density.Ny d - 1)%Z ->
  exists Integ' yval1',
    Density.IntegralVector_cell rc d xval xval1 ii jj (Integ, of_int 0, index, yval1)
    = Ok (Integ', of_int 0, (index + 1)%Z, yval1').
Proof.
  intros Hne Hno Hii Hjj. specialize (Hno ii jj Hii Hjj).
  unfold Density.IntegralVector_cell.
  destruct (pnpoly_returns rc (Density.Region d)
              (Density.ConvertIndextoWorld d (ii * Density.Ny d + jj)) Hne) as [b00 E00].
  destruct (pnpoly_returns rc (Density.Region d)
              (Density.ConvertIndextoWorld d ((ii + 1) * Density.Ny d + jj)) Hne) as [b10 E10].
  destruct (pnpoly_returns rc (Density.Region d)
              (Density.ConvertIndextoWorld d (ii * Density.Ny d + jj + 1)) Hne) as [b01 E01].
  destruct (pnpoly_returns rc (Density.Region d)
              (Density.ConvertIndextoWorld d ((ii + 1) * Density.Ny d + jj + 1)) Hne) as [b11 E11].
  rewrite E00. cbn [bind]. destruct b00; [|cbn [bind]; do 2 eexists; reflexivity].
  rewrite E10. cbn [bind]. destruct b10; [|cbn [bind]; do 2 eexists; reflexivity].
  rewrite E01. cbn [bind]. destruct b01; [|cbn [bind]; do 2 eexists; reflexivity].
  rewrite E11. cbn [bind]. destruct b11; [|cbn [bind]; do 2 eexists; reflexivity].
  exfalso. apply Hno. auto.
Qed.

Lemma CreateIntegralVector_zero (d : Density.t D) :
  Poly.Vertices (Density.Region d) <> [] ->
  no_cell_inside rc d ->
  exists Integ,
    Density.CreateIntegralVector rc d
    = Ok (Density.set_Integral d (Density.GridInRegion d) Integ, of_int 0).
Proof.
  intros Hne Hno. unfold Density.CreateIntegralVector.
  match goal with
  | |- context [for_loop ?n ?i ?body ?s] =>
      destruct (for_loop_invariant (Int_Params.t D * D * Z * D)
                  (fun _ '(_, total, _, _) => total = of_int 0) body n i s)
        as ([[[I1 t1] i1] x1] & Hrun & Ht1)
  end.
  - reflexivity.
  - intros ii [[[I0 t0] i0] x0] Hii Ht0. cbn zeta. subst t0.
    destruct (for_loop_invariant (Int_Params.t D * D * Z * D)
                (fun _ '(_, total, _, _) => total = of_int 0)
                (Density.IntegralVector_cell rc d x0 (x0 + Density.dx d) ii)
                (Z.to_nat (Density.Ny d - 1)) 0%Z (I0, of_int 0, i0, Density.miny d))
      as ([[[I3 t3] i3] y3] & Hrun3 & Ht3).
    + reflexivity.
    + intros jj [[[I2 t2] i2] y2] Hjj Ht2. subst t2.
      destruct (IntegralVector_cell_zero d x0 (x0 + Density.dx d) ii jj I2 i2 y2 Hne Hno)
        as (I' & y' & ->); [lia | lia|].
      eexists. split; reflexivity.
    + rewrite Hrun3. cbn [bind]. eexists. split; [reflexivity|]. exact Ht3.
  - rewrite Hrun. cbn [bind]. subst t1. eexists. reflexivity.
Qed.

Lemma SetParameters_never_returns (Region : Poly.t D) (mx my : D) (Nx Ny : Z) :
  Poly.Vertices Region <> [] ->
  (of_int 0 ==? of_int 0) = true ->
  (forall d Values,
      Density.Region d = Region -> Density.minx d = mx -> Density.miny d = my ->
      no_cell_inside rc (Density.Setdxy (Density.set_grid d Nx Ny Values))) ->
  forall (fuel : nat) (d : Density.t D) (Values : list D),
    Density.Region d = Region -> Density.minx d = mx -> Density.miny d = my ->
    Values <> [] ->
    (Nx * Ny)%Z = Z.of_nat (List.length Values) ->
    Density.SetParameters rc fuel d Nx Ny Values = OutOfFuel.
Proof.
  intros Hne Hzero Hno.
  induction fuel as [|fuel IH]; intros d Values Hr Hmx Hmy Hv Hlen;
    specialize (Hno d Values Hr Hmx Hmy);
    cbn [Density.SetParameters];
    unfold Density.CheckParameterSizes;
    cbn [Density.set_grid Density.Region Density.Nx Density.Ny Density.Values];
    rewrite Hr;
    (replace (Poly.GetNVertices Region =? 0)%Z with false
       by (symmetry; apply Z.eqb_neq; unfold Poly.GetNVertices;
           destruct (Poly.Vertices Region); [congruence | cbn [List.length]; lia]));
    (assert (Hnz : Nx <> 0%Z /\ Ny <> 0%Z)
       by (destruct Values; [congruence | cbn [List.length] in Hlen; nia]));
    (replace (Nx =? 0)%Z with false by (symmetry; apply Z.eqb_neq; tauto));
    (replace (Ny =? 0)%Z with false by (symmetry; apply Z.eqb_neq; tauto));
    cbn [orb]; rewrite Hlen, Z.eqb_refl; cbn [negb bind];
    set (d2 := Density.Setdxy (Density.set_grid d Nx Ny Values)) in *;
    (assert (Hv2 : Density.Values d2 = Values)
       by (subst d2; unfold Density.Setdxy, Poly.GetExtrema;
           destruct (_ && _); reflexivity));
    (assert (Hr2 : Density.Region d2 = Region)
       by (subst d2; unfold Density.Setdxy, Poly.GetExtrema;
           destruct (_ && _); exact Hr));
    (assert (Hn2 : Density.Nx d2 = Nx /\ Density.Ny d2 = Ny)
       by (subst d2; unfold Density.Setdxy, Poly.GetExtrema;
           destruct (_ && _); split; reflexivity));
    (assert (Hm2 : Density.minx d2 = mx /\ Density.miny d2 = my)
       by (subst d2; unfold Density.Setdxy, Poly.GetExtrema;
           destruct (_ && _); split; assumption));
    clearbody d2;
    (replace (is_empty Values) with false by (destruct Values; [congruence | reflexivity]));
    cbn [negb];
    (destruct (CreateIntegralCoefficients_returns d2) as (Grid & Integ & ->);
     [now rewrite Hr2|]);
    cbn [bind];
    (destruct (CreateIntegralVector_zero (Density.set_Integral d2 Grid Integ))
       as (Integ' & ->); [cbn; now rewrite Hr2 | exact Hno |]);
    cbn [bind]; cbn beta iota; rewrite Hzero.
  - reflexivity.
  - cbn [Density.set_Integral Density.set_Values Density.Values Density.Nx Density.Ny
           Density.Integral].
    destruct Hn2 as [-> ->].
    rewrite IH; [reflexivity | cbn; exact Hr2 | cbn; tauto | cbn; tauto | |].
    + intros Hnil. apply (f_equal (@List.length D)) in Hnil.
      rewrite (length_fold_vec_set D (fun _ _ => _)), Hv2 in Hnil.
      destruct Values; [congruence | discriminate].
    + rewrite (length_fold_vec_set D (fun _ _ => _)), Hv2. exact Hlen.
Qed.


Lemma no_cell_inside_same_grid (d d' : Density.t D) :
  Density.Region d' = Density.Region d ->
  Density.Nx d' = Density.Nx d -> Density.Ny d' = Density.Ny d ->
  Density.minx d' = Density.minx d -> Density.miny d' = Density.miny d ->
  Density.dx d' = Density.dx d -> Density.dy d' = Density.dy d ->
  no_cell_inside rc d -> no_cell_inside rc d'.
Proof.
  intros Hr Hnx Hny Hmx Hmy Hdx Hdy Hno ii jj Hii Hjj.
  unfold Density.ConvertIndextoWorld.
  rewrite Hr, Hny, Hmx, Hmy, Hdx, Hdy. rewrite Hnx in Hii. rewrite Hny in Hjj.
  apply (Hno ii jj Hii Hjj).
Qed.

(** X5. When the region has vertices, the number of values is [Nx * Ny] and
    no cell of the grid has its four corners in the region, the construction
    of a density does not return: the total of [CreateIntegralVector] is [0],
    [NormalizeIntegralVector] calls [SetParameters] again on the same grid,
    and so on without an end.  ([0 == 0] is assumed of the arithmetic.) *)
Theorem make_never_returns (Region : Poly.t D) (Nx Ny : Z) (Values : list D) :
  Poly.Vertices Region <> [] ->
  Values <> [] ->
  (Nx * Ny)%Z = Z.of_nat (List.length Values) ->
  (of_int 0 ==? of_int 0) = true ->
  no_cell_inside rc (grid_of Region Nx Ny) ->
  forall fuel : nat, Density.make rc fuel Region Nx Ny Values = OutOfFuel.
Proof.
  intros Hne Hv Hlen Hzero Hno fuel. unfold Density.make, Poly.GetExtrema.
  apply (SetParameters_never_returns Region (Poly.minx Region) (Poly.miny Region) Nx Ny);
    try assumption; try reflexivity.
  intros d Vs Hr Hmx Hmy. revert Hno. apply no_cell_inside_same_grid;
    unfold grid_of, Density.Setdxy, Poly.GetExtrema;
    cbn [Density.set_grid Density.Region Density.Nx Density.Ny];
    rewrite ?Hr; destruct (_ && _); cbn; auto.
Qed.

End NoSupport.

Lemma make_never_returns_witness :
  Density.make Example.rc 1000 Example.triangle 2 2 [1; 1; 1; 1]%float = OutOfFuel.
Proof.
  apply (make_never_returns Example.rc Example.triangle 2 2 [1; 1; 1; 1]%float).
  - discriminate.
  - discriminate.
  - reflexivity.
  - reflexivity.
  - intros ii jj Hii Hjj.
    assert (ii = 0%Z) as -> by (cbn in Hii; lia).
    assert (jj = 0%Z) as -> by (cbn in Hjj; lia).
    intros (_ & _ & _ & H11). vm_compute in H11. discriminate.
Defined.

(** ** InterpolateValue in exact arithmetic *)

Section IdealInterpolation.
Local Open Scope R_scope.

Lemma e_to_int_floor (r : R) (k : Z) :
  (0 <= k)%Z -> IZR k <= r < IZR k + 1 -> e_to_int (Fin r) = k.
Proof.
  intros Hk Hr. unfold e_to_int.
  assert (H0 : 0 <= IZR k) by (apply IZR_le in Hk; exact Hk).
  replace (Rleb 0 r) with true by (symmetry; apply Rleb_true; lra).
  rewrite <- (tech_up r (k + 1)); [lia | rewrite plus_IZR; lra | rewrite plus_IZR; lra].
Qed.

(** X6. In exact arithmetic, at a point of the cell [(i, j)] of the grid that
    is not in the last row or column, [InterpolateValue] returns
    [v00 + (v10 - v00) * xr - (v01 - v00) * ys + xr * ys * (v01 + v10 - v00 - v11)],
    where [v00], [v10], [v01], [v11] are the values at the corners
    [(i, j)], [(i + 1, j)], [(i, j + 1)], [(i + 1, j + 1)] and [xr], [ys] in
    [[0, 1)] are the offsets of the point in the cell, as fractions of the
    cell.  The term in [ys] is subtracted and the mixed term has the opposite
    sign of the bilinear interpolant, so the result is [v00] at the corner
    [(i, j)] and tends to [v10] along the lower edge, but differs from the
    bilinear interpolant of the four values elsewhere. *)
Theorem InterpolateValue_closed_form (d : Density.t ereal) (mx my hx hy x y : R) (i j : Z)
  (v00 v10 v01 v11 : R) :
  Density.minx d = Fin mx -> Density.miny d = Fin my ->
  Density.dx d = Fin hx -> Density.dy d = Fin hy ->
  0 < hx -> 0 < hy ->
  (0 <= i < Density.Nx d - 1)%Z -> (0 <= j < Density.Ny d - 1)%Z ->
  mx + IZR i * hx <= x < mx + (IZR i + 1) * hx ->
  my + IZR j * hy <= y < my + (IZR j + 1) * hy ->
  vec_get (Fin 0) (Density.Values d) (Density.Ny d * i + j) = Fin v00 ->
  vec_get (Fin 0) (Density.Values d) (Density.Ny d * (i + 1) + j) = Fin v10 ->
  vec_get (Fin 0) (Density.Values d) (Density.Ny d * i + (j + 1)) = Fin v01 ->
  vec_get (Fin 0) (Density.Values d) (Density.Ny d * (i + 1) + (j + 1)) = Fin v11 ->
  Density.InterpolateValue d (Ideal.pt x y)
  = Fin (let xr := (x - (mx + IZR i * hx)) / hx in
         let ys := (y - (my + IZR j * hy)) / hy in
         v00 + (v10 - v00) * xr - (v01 - v00) * ys + xr * ys * (v01 + v10 - v00 - v11)).
Proof.
  intros Hmx Hmy Hdx Hdy Hhx Hhy Hi Hj Hx Hy H00 H10 H01 H11.
  unfold Density.InterpolateValue, Density.ConvertIndextoWorld, Ideal.pt.
  cbn [Point.x Point.y]. rewrite Hmx, Hmy, Hdx, Hdy.
  cbn [to_int of_int d_sub d_div d_add d_mul ereal_ops e_sub e_add e_neg e_mul].
  rewrite !e_div_Fin by lra.
  rewrite (e_to_int_floor ((x + - mx) / hx) i);
    [| lia | split; [apply Rmult_le_reg_r with hx | apply Rmult_lt_reg_r with hx];
             try lra; unfold Rdiv; rewrite Rmult_assoc, Rinv_l by lra; lra].
  rewrite (e_to_int_floor ((y + - my) / hy) j);
    [| lia | split; [apply Rmult_le_reg_r with hy | apply Rmult_lt_reg_r with hy];
             try lra; unfold Rdiv; rewrite Rmult_assoc, Rinv_l by lra; lra].
  replace (i =? Density.Nx d - 1)%Z with false by (symmetry; apply Z.eqb_neq; lia).
  replace (j =? Density.Ny d - 1)%Z with false by (symmetry; apply Z.eqb_neq; lia).
  replace (Z.quot (i * Density.Ny d + j) (Density.Ny d)) with i.
  2:{ rewrite Z.quot_div_nonneg by nia. apply Z.div_unique with j; lia. }
  replace (Z.rem (i * Density.Ny d + j) (Density.Ny d)) with j.
  2:{ rewrite Z.rem_mod_nonneg by nia. apply Z.mod_unique with i; lia. }
  rewrite H00, H10, H01, H11. cbn. apply f_equal. field. lra.
Qed.

(** At [(1/4, 1/2)] in the cell with the values [1], [3], [2], [5] the value
    is [7/8]; the bilinear interpolant of the four values there is [17/8]. *)
Lemma InterpolateValue_closed_form_witness :
  Density.InterpolateValue Ideal.sample_field (Ideal.pt (/ 4) (/ 2)) = Fin (7 / 8).
Proof.
  rewrite (InterpolateValue_closed_form Ideal.sample_field 0 0 1 1 (/ 4) (/ 2) 0 0 1 3 2 5);
    try reflexivity; try lra; try (cbn; lia).
  apply f_equal. cbv zeta. field.
Defined.

(** The same in binary64 arithmetic, on the density the constructor builds. *)
Lemma InterpolateValue_sample_binary64 :
  match Density.make Example.rc 1 Example.unit_square 2 2 [1; 2; 3; 5]%float with
  | Ok (d, _) => Density.InterpolateValue d (Example.pt 0.25 0.5)
  | _ => nan
  end = 0.875%float.
Proof. vm_compute. reflexivity. Qed.
End IdealInterpolation.

(** ** LineIntegral in exact arithmetic *)

Section IdealLineIntegral.
Local Open Scope R_scope.

Variable d : Density.t ereal.
Variables s x1 y1 x2 y2 : R.
Variable g : R -> R.
Variable m : nat.

Hypothesis Hs : 0 < s <= 1.
Hypothesis Hg :
  forall t, 0 <= t < 1 ->
    Density.InterpolateValue d (Ideal.pt (x1 + (x2 - x1) * t) (y1 + (y2 - y1) * t)) = Fin (g t).
Hypothesis Hrun : forall k, (k < m)%nat -> INR k * s < 1 - s.
Hypothesis Hstop : 1 - s <= INR m * s.

Lemma LineIntegral_loop_trapezoid (n : nat) :
  forall (k fuel : nat) (r sum : R),
    (k + n = m)%nat -> r = INR k * s -> (n <= fuel)%nat ->
    Density.LineIntegral_loop d (Fin s) (Ideal.pt x1 y1) (Ideal.pt x2 y2) fuel
      (Fin r) (Fin sum) (Fin (g r))
    = Ok (Fin (sum + Rsum (fun k' => g (INR k' * s) + g (INR (S k') * s)) (seq k n))).
Proof.
  induction n as [|n IH]; intros k fuel r sum Hk Hr Hfuel.
  - assert (Hc : d_ltb (Fin r) (d_sub (of_int 1) (Fin s)) = false).
    { apply e_ltb_Fin_false. cbn. replace k with m in Hr by lia. lra. }
    destruct fuel; cbn [Density.LineIntegral_loop]; rewrite Hc;
      unfold Rsum; cbn; do 2 apply f_equal; lra.
  - destruct fuel as [|fuel]; [lia|].
    assert (Hlt : INR k * s < 1 - s) by (apply Hrun; lia).
    assert (Hk0 : 0 <= INR k) by apply pos_INR.
    assert (Hc : d_ltb (Fin r) (d_sub (of_int 1) (Fin s)) = true).
    { apply e_ltb_Fin. cbn. lra. }
    cbn [Density.LineIntegral_loop]. rewrite Hc.
    cbn [Ideal.pt Point.x Point.y d_add d_sub d_mul ereal_ops e_add e_sub e_mul e_neg].
    change (Point.mk (Fin ?a) (Fin ?b)) with (Ideal.pt a b).
    replace (x1 + (x2 + - x1) * (r + s)) with (x1 + (x2 - x1) * (r + s)) by lra.
    replace (y1 + (y2 + - y1) * (r + s)) with (y1 + (y2 - y1) * (r + s)) by lra.
    rewrite Hg by nra.
    cbn [e_add].
    rewrite (IH (S k) fuel (r + s) (sum + (g r + g (r + s)))); [| lia | | lia].
    + cbn [seq map]. unfold Rsum. cbn [map fold_right]. do 2 apply f_equal.
      rewrite Hr. replace (INR (S k) * s) with (INR k * s + s) by (rewrite S_INR; lra). lra.
    + rewrite S_INR, Hr. lra.
Qed.


End IdealLineIntegral.


(** ** CalculateVolumes and CalculateError *)

Section VolumesGeneric.
Context {D : Type} `{DoubleOps D}.
Local Open Scope double_scope.

Variable rc : D.

Lemma CalculateWeightedArea_at_least (d : Density.t D) (Test : Poly.t D) :
  Density.Values d <> [] ->
  (Density.Volume_Lower_Bound d >=? Density.Volume_Lower_Bound d) = true ->
  exists v, Density.CalculateWeightedArea rc d Test = Ok v
            /\ (v >=? Density.Volume_Lower_Bound d) = true.
Proof.
  intros Hv Hrefl. unfold Density.CalculateWeightedArea.
  rewrite (is_empty_false _ _ Hv). rewrite GetNVertices_zero.
  destruct (Poly.Vertices Test) as [|v0 vs] eqn:Hvs; cbn [is_empty].
  - eexists. split; [reflexivity | exact Hrefl].
  - destruct (WeightedArea_sum_total rc d Test) as [sum ->]; [rewrite Hvs; discriminate|].
    cbn [bind]. destruct (sum >=? Density.Volume_Lower_Bound d) eqn:Hge.
    + eexists. split; [reflexivity | exact Hge].
    + eexists. split; [reflexivity | exact Hrefl].
Qed.

(** X8. On a prior whose values are set and whose volume lower bound is not
    a NaN, with one covering polygon for each region, [CalculateVolumes]
    returns one volume for each region, and none of them is below the volume
    lower bound of the prior: the volume of a region that holds no cell of the
    grid, or has no polygon, is the bound itself and never [0]. *)
Theorem CalculateVolumes_at_least (p : Partition.t D) :
  Density.Values (Partition.Prior p) <> [] ->
  (0 <= Partition.NRegions p)%Z ->
  List.length (Partition.Covering p) = Z.to_nat (Partition.NRegions p) ->
  (Density.Volume_Lower_Bound (Partition.Prior p)
   >=? Density.Volume_Lower_Bound (Partition.Prior p)) = true ->
  exists volumes,
    Partition.CalculateVolumes rc p = Ok volumes
    /\ List.length volumes = Z.to_nat (Partition.NRegions p)
    /\ forall v, In v volumes ->
         (v >=? Density.Volume_Lower_Bound (Partition.Prior p)) = true.
Proof.
  intros Hv HN Hcov Hrefl. unfold Partition.CalculateVolumes.
  replace (Partition.NRegions p <? 0)%Z with false by (symmetry; apply Z.ltb_ge; lia).
  set (N := Z.to_nat (Partition.NRegions p)).
  match goal with
  | |- context [for_loop ?n ?i ?body ?s] =>
      destruct (for_loop_invariant (list D)
                  (fun k result =>
                     List.length result = N
                     /\ forall j, (j < Z.to_nat k)%nat ->
                          (nth j result (of_int 0)
                           >=? Density.Volume_Lower_Bound (Partition.Prior p)) = true)
                  body n i s)
        as (vs & Hrun & Hlen & Hall)
  end.
  - split; [apply repeat_length | intros j Hj; cbn in Hj; lia].
  - intros k result Hk (Hlen & Hall).
    destruct (CalculateWeightedArea_at_least (Partition.Prior p)
                (vec_get (Poly.mk INFINITY INFINITY INFINITY INFINITY [])
                   (Partition.Covering p) k) Hv Hrefl) as (v & -> & Hge).
    cbn [bind]. eexists. split; [reflexivity|]. split; [now rewrite length_vec_set|].
    intros j Hj. unfold vec_set.
    replace (k <? 0)%Z with false by (symmetry; apply Z.ltb_ge; lia).
    destruct (Nat.eq_dec j (Z.to_nat k)) as [->|Hne].
    + rewrite nth_list_set_same by lia. exact Hge.
    + rewrite nth_list_set_other by lia. apply Hall. lia.
  - exists vs. split; [exact Hrun|]. split; [exact Hlen|].
    intros v Hin. destruct (In_nth vs v (of_int 0) Hin) as (j & Hj & <-).
    apply Hall. lia.
Qed.

End VolumesGeneric.

Lemma CalculateVolumes_at_least_witness :
  exists volumes,
    Partition.CalculateVolumes Example.rc Example.partition_vanished = Ok volumes
    /\ List.length volumes = 2%nat
    /\ forall v, In v volumes -> (v >=? 0.125%float)%dbl = true.
Proof.
  apply (CalculateVolumes_at_least Example.rc Example.partition_vanished).
  - discriminate.
  - cbn. lia.
  - reflexivity.
  - reflexivity.
Defined.

Section IdealError.
Local Open Scope R_scope.

Lemma Rsum_nonneg (f : nat -> R) (L : list nat) :
  (forall j, In j L -> 0 <= f j) -> 0 <= Rsum f L.
Proof.
  unfold Rsum. induction L as [|x L IH]; intros Hf; cbn; [lra|].
  assert (0 <= f x) by (apply Hf; now left).
  assert (0 <= fold_right Rplus 0 (map f L)) by (apply IH; intros j Hj; apply Hf; now right).
  lra.
Qed.

Lemma Rsum_zero (f : nat -> R) (L : list nat) :
  (forall j, In j L -> 0 <= f j) -> Rsum f L = 0 -> forall j, In j L -> f j = 0.
Proof.
  induction L as [|x L IH]; intros Hf Hs j Hj; [destruct Hj|].
  assert (Hx : 0 <= f x) by (apply Hf; now left).
  assert (HL : 0 <= Rsum f L) by (apply Rsum_nonneg; intros k Hk; apply Hf; now right).
  unfold Rsum in *. cbn in Hs.
  destruct Hj as [<-|Hj]; [lra|].
  apply IH; [intros k Hk; apply Hf; now right | lra | exact Hj].
Qed.

(** X9. In exact arithmetic, for [N] regions with real volumes [v] and real
    desired areas [a], [CalculateError] is the sum over the regions of
    [(v j - a j)^2]; it is [0] exactly when every volume equals its desired
    area. *)
Theorem CalculateError_sum_of_squares (p : Partition.t ereal) (volumes : list ereal)
  (N : nat) (v a : nat -> R) :
  Partition.NRegions p = Z.of_nat N ->
  volumes = map (fun j => Fin (v j)) (seq 0 N) ->
  Partition.desired_area p = map (fun j => Fin (a j)) (seq 0 N) ->
  Partition.CalculateError p volumes
  = Fin (Rsum (fun j => (v j - a j) * (v j - a j)) (seq 0 N))
  /\ (Partition.CalculateError p volumes = Fin 0 <-> forall j, (j < N)%nat -> v j = a j).
Proof.
  intros HN Hv Ha.
  assert (Hval : Partition.CalculateError p volumes
                 = Fin (Rsum (fun j => (v j - a j) * (v j - a j)) (seq 0 N))).
  { unfold Partition.CalculateError. rewrite HN, Nat2Z.id.
    change (map Z.of_nat (seq 0 N)) with (zrange 0 N).
    change (of_int 0) with (Fin 0).
    rewrite (fold_left_Fin
               (fun jj => d_mul (d_fabs (d_sub (vec_get (Fin 0) volumes jj)
                                               (vec_get (Fin 0) (Partition.desired_area p) jj)))
                                (d_fabs (d_sub (vec_get (Fin 0) volumes jj)
                                               (vec_get (Fin 0) (Partition.desired_area p) jj))))
               (fun j => (v j - a j) * (v j - a j))).
    - now rewrite Rplus_0_l.
    - intros k Hk. cbn [Z.add]. rewrite Hv, Ha, !vec_get_map_seq by exact Hk. cbn.
      apply f_equal. unfold Rminus.
      destruct (Rcase_abs (v k + - a k)) as [Hneg|Hpos].
      + rewrite Rabs_left by exact Hneg. lra.
      + rewrite Rabs_right by exact Hpos. lra. }
  split; [exact Hval|]. rewrite Hval. split.
  - intros Hz j Hj. injection Hz as Hz.
    assert (Hsq : (v j - a j) * (v j - a j) = 0).
    { apply (Rsum_zero (fun j => (v j - a j) * (v j - a j)) (seq 0 N)); [|exact Hz|].
      - intros k _. apply Rle_0_sqr.
      - apply in_seq. lia. }
    apply Rmult_integral in Hsq. lra.
  - intros Heq. apply f_equal.
    rewrite (Rsum_ext _ (fun _ => 0)).
    + clear. unfold Rsum. induction (seq 0 N); cbn; lra.
    + intros j Hj. apply in_seq in Hj. rewrite Heq by lia. lra.
Qed.

End IdealError.

Lemma CalculateError_sum_of_squares_witness :
  Partition.CalculateError Ideal.partition_halves [Fin (/ 2); Fin (/ 2)]
  = Fin (Rsum (fun j => (/ 2 - Ideal.half_areas j) * (/ 2 - Ideal.half_areas j))%R (seq 0 2)).
Proof.
  apply (CalculateError_sum_of_squares Ideal.partition_halves [Fin (/ 2); Fin (/ 2)] 2
           (fun _ => / 2)%R Ideal.half_areas).
  - reflexivity.
  - reflexivity.
  - reflexivity.
Defined.

(** ** GradientStepCenter on a region that vanished *)

Section CentroidGeneric.
Context {D : Type} `{DoubleOps D}.
Local Open Scope double_scope.
Variable rc : D.

Lemma CalculateCentroid_returns (d : Density.t D) (Test : Poly.t D) (Volume : D) :
  Density.Values d <> [] ->
  exists c, Density.CalculateCentroid rc d Test Volume = Ok c.
Proof.
  intros Hv. unfold Density.CalculateCentroid.
  rewrite (is_empty_false _ _ Hv), GetNVertices_zero.
  destruct (Poly.Vertices Test) as [|v0 vs] eqn:Hvs; cbn [is_empty].
  - eexists; reflexivity.
  - unfold Poly.GetExtrema.
    destruct (Centroid_sums_total rc d Test) as [[sx sy] ->]; [rewrite Hvs; discriminate|].
    cbn [bind]. destruct (_ <=? _); eexists; reflexivity.
Qed.

Lemma CalculateCentroid_empty (d : Density.t D) (Test : Poly.t D) (Volume : D) :
  Density.Values d <> [] -> Poly.Vertices Test = [] ->
  Density.CalculateCentroid rc d Test Volume = Ok Point.default.
Proof.
  intros Hv Ht. unfold Density.CalculateCentroid.
  rewrite (is_empty_false _ _ Hv), GetNVertices_zero, Ht. reflexivity.
Qed.

(** A volume at most the bound: the centroid is the minimum corner of the
    cached bounding box. *)
Lemma CalculateCentroid_small_volume (d : Density.t D) (Test : Poly.t D) (Volume : D) :
  Density.Values d <> [] -> Poly.Vertices Test <> [] ->
  (Volume <=? Density.Volume_Lower_Bound d) = true ->
  Density.CalculateCentroid rc d Test Volume = Ok (Point.mk (Poly.minx Test) (Poly.miny Test)).
Proof.
  intros Hv Hne Hvol. unfold Density.CalculateCentroid, Poly.GetExtrema.
  rewrite (is_empty_false _ _ Hv), GetNVertices_zero, (is_empty_false _ _ Hne).
  destruct (Centroid_sums_total rc d Test Hne) as [[sx sy] ->]. cbn [bind].
  now rewrite Hvol.
Qed.
End CentroidGeneric.

Section IdealCenters.
Local Open Scope R_scope.

Lemma nth_vec_get (A : Type) (v : list A) (k : nat) (dflt : A) :
  vec_get dflt v (Z.of_nat k) = nth k v dflt.
Proof.
  unfold vec_get. replace (Z.of_nat k <? 0)%Z with false by (symmetry; apply Z.ltb_ge; lia).
  now rewrite Nat2Z.id.
Qed.

Lemma nth_vec_set_same (A : Type) (v : list A) (k : nat) (a dflt : A) :
  (k < List.length v)%nat -> nth k (vec_set v (Z.of_nat k) a) dflt = a.
Proof.
  intros Hk. unfold vec_set.
  replace (Z.of_nat k <? 0)%Z with false by (symmetry; apply Z.ltb_ge; lia).
  rewrite Nat2Z.id. now apply nth_list_set_same.
Qed.

Lemma nth_vec_set_other (A : Type) (v : list A) (k j : nat) (a dflt : A) :
  k <> j -> nth j (vec_set v (Z.of_nat k) a) dflt = nth j v dflt.
Proof.
  intros Hk. unfold vec_set.
  replace (Z.of_nat k <? 0)%Z with false by (symmetry; apply Z.ltb_ge; lia).
  rewrite Nat2Z.id. now apply nth_list_set_other.
Qed.

(** X10. In exact arithmetic, when the covering polygon of region [i] has no
    vertices, [GradientStepCenter] returns, but it moves the center of that
    region, a point with real coordinates, to [(INFINITY, INFINITY)], and the
    error it returns is [INFINITY] or a NaN: the centroid of the empty polygon
    is [Point()], and the step is taken towards it. *)
Theorem GradientStepCenter_vanished_region (rc : ereal) (p : Partition.t ereal)
  (volumes : list ereal) (N i : nat) (cx cy s : R) :
  Density.Values (Partition.Prior p) <> [] ->
  Partition.NRegions p = Z.of_nat N ->
  List.length (Partition.Centers p) = N ->
  List.length (Partition.Covering p) = N ->
  List.length volumes = N ->
  (i < N)%nat ->
  nth i (Partition.Centers p) Point.default = Ideal.pt cx cy ->
  Poly.Vertices (nth i (Partition.Covering p) (Poly.mk PInf PInf PInf PInf [])) = [] ->
  Parameters.centers_step (Partition.Alg_Params p) = Fin s -> 0 < s ->
  exists p' err,
    Partition.GradientStepCenter rc p volumes = Ok (p', err)
    /\ nth i (Partition.Centers p') Point.default = Point.mk PInf PInf
    /\ (err = PInf \/ err = NaN).
Proof.
  intros Hv HN Hlen _ _ Hi Hci Hcov Hstep Hs. unfold Partition.GradientStepCenter.
  rewrite HN, Nat2Z.id.
  destruct (for_loop_invariant (list (Point.t ereal) * ereal)
              (fun k '(Cs, err) =>
                 List.length Cs = N
                 /\ (forall j, (Z.to_nat k <= j)%nat ->
                       nth j Cs Point.default = nth j (Partition.Centers p) Point.default)
                 /\ ((Z.of_nat i < k)%Z ->
                     nth i Cs Point.default = Point.mk PInf PInf
                     /\ (err = PInf \/ err = NaN)))
              (Partition.GradientStepCenter_body rc p volumes) N 0%Z
              (Partition.Centers p, of_int 0))
    as ([Cs err] & Hrun & HlenCs & _ & Hdone).
  - split; [exact Hlen|]. split; [reflexivity | lia].
  - intros k [Cs0 err0] Hk (Hl0 & Hrest & Hpast).
    unfold Partition.GradientStepCenter_body.
    destruct (CalculateCentroid_returns rc (Partition.Prior p)
                (vec_get (Poly.mk INFINITY INFINITY INFINITY INFINITY [])
                   (Partition.Covering p) k)
                (vec_get (of_int 0) volumes k) Hv) as [c Hc].
    rewrite Hc. cbn [bind]. eexists. split; [reflexivity|].
    replace k with (Z.of_nat (Z.to_nat k)) by lia.
    set (kn := Z.to_nat k) in *.
    split; [now rewrite length_vec_set|]. split.
    + intros j Hj. rewrite nth_vec_set_other by lia. apply Hrest. lia.
    + intros Hik. destruct (Nat.eq_dec i kn) as [Heq|Hne].
      * subst kn. rewrite <- Heq in *.
        replace k with (Z.of_nat i) in Hc by lia.
        rewrite nth_vec_get in Hc.
        rewrite (CalculateCentroid_empty rc _ _ _ Hv Hcov) in Hc. injection Hc as <-.
        rewrite nth_vec_set_same by lia. rewrite !nth_vec_get.
        rewrite (Hrest i) by lia. rewrite Hci, Hstep.
        unfold Point.AddPoints, Point.Mult, Point.FlipDirection, Point.Norm, Point.default, Ideal.pt.
        cbn. unfold inf_of_sign.
        replace (Rltb 0 s) with true by (symmetry; apply Rltb_true; lra).
        split; [reflexivity|]. destruct err0; cbn; auto.
      * destruct Hpast as [Hpi Herr]; [lia|]. rewrite nth_vec_set_other by lia.
        split; [exact Hpi|].
        assert (Hadd : forall x, e_add PInf x = PInf \/ e_add PInf x = NaN)
          by (intros []; cbn; auto).
        destruct Herr as [-> | ->]; [apply Hadd | now right].
  - rewrite Hrun. cbn [bind]. do 2 eexists. split; [reflexivity|].
    cbn [Partition.set_Centers Partition.Centers]. apply Hdone. lia.
Qed.

End IdealCenters.

Lemma GradientStepCenter_vanished_region_witness :
  exists p' err,
    Partition.GradientStepCenter (Fin (/ 1024)) Ideal.partition_vanished
      [Fin (/ 2); Fin (/ 8)]
    = Ok (p', err)
    /\ nth 1 (Partition.Centers p') Point.default = Point.mk PInf PInf
    /\ (err = PInf \/ err = NaN).
Proof.
  apply (GradientStepCenter_vanished_region (Fin (/ 1024)) Ideal.partition_vanished
           [Fin (/ 2); Fin (/ 8)] 2 1 (3 / 4) (/ 2) 1).
  - discriminate.
  - reflexivity.
  - reflexivity.
  - reflexivity.
  - reflexivity.
  - lia.
  - reflexivity.
  - reflexivity.
  - reflexivity.
  - lra.
Defined.

(** ** CreateDefaultCenters and InitializePartition *)

Section DefaultCenters.
Context {D : Type} `{DoubleOps D}.
Local Open Scope double_scope.

Variable rc : D.

Lemma zrange_cons (lo : Z) (n : nat) : zrange lo (S n) = lo :: zrange (lo + 1) n.
Proof.
  unfold zrange. cbn [seq map]. f_equal; [lia|].
  rewrite <- seq_shift, map_map. apply map_ext. intros k. lia.
Qed.

Lemma CreateDefaultCenters_loop_spec (Region : Poly.t D) (p1 p2 perp : Point.t D)
  (spacing : D) (n : nat) :
  forall (ii : Z) (Cs Cs' : list (Point.t D)) (ok : bool),
    all_inside rc Region Cs ->
    Partition.CreateDefaultCenters_loop rc Region p1 p2 perp spacing n ii Cs = Ok (Cs', ok) ->
    if ok then
      Cs' = Cs ++ map (default_center p1 p2 perp spacing) (zrange ii n)
      /\ all_inside rc Region Cs'
    else
      exists pre c, Cs' = pre ++ [c] /\ all_inside rc Region pre
                    /\ Poly.pnpoly rc Region c = Ok false
                    /\ (List.length Cs' <= List.length Cs + n)%nat.
Proof.
  induction n as [|n IH]; intros ii Cs Cs' ok Hin; cbn [Partition.CreateDefaultCenters_loop].
  - intros Hrun. injection Hrun as <- <-. split; [|exact Hin].
    unfold zrange. cbn. now rewrite app_nil_r.
  - fold (default_center p1 p2 perp spacing ii).
    destruct (Poly.pnpoly rc Region (default_center p1 p2 perp spacing ii))
      as [[|]| |] eqn:Hpn; cbn [bind negb]; try discriminate.
    + intros Hrun. apply IH in Hrun.
      * destruct ok.
        -- destruct Hrun as [-> Hall]. split; [|exact Hall].
           rewrite zrange_cons. cbn [map]. now rewrite <- app_assoc.
        -- destruct Hrun as (pre & c & -> & Hpre & Hc & Hlen).
           exists pre, c. repeat split; try assumption.
           rewrite !length_app in *. cbn [List.length] in *. lia.
      * intros c Hc. apply in_app_or in Hc as [Hc|[<-|[]]]; [now apply Hin | exact Hpn].
    + intros Hrun. injection Hrun as <- <-.
      exists Cs, (default_center p1 p2 perp spacing ii).
      repeat split; try assumption. rewrite length_app. cbn. lia.
Qed.

Lemma CreateDefaultCenters_spec (p p' : Partition.t D) (Region : Poly.t D) (multiplier : D)
  (ok : bool) :
  Partition.CreateDefaultCenters rc p Region multiplier = Ok (p', ok) ->
  exists Cs, p' = Partition.set_Centers p Cs
    /\ if ok then
         List.length Cs = Z.to_nat (Partition.NRegions p) /\ all_inside rc Region Cs
       else
         exists pre c, Cs = pre ++ [c] /\ all_inside rc Region pre
                       /\ Poly.pnpoly rc Region c = Ok false
                       /\ (List.length Cs <= Z.to_nat (Partition.NRegions p))%nat.
Proof.
  unfold Partition.CreateDefaultCenters.
  destruct (Poly.pnpoly rc Region _) as [inside| |]; cbn [bind]; try discriminate.
  match goal with
  | |- context [Partition.CreateDefaultCenters_loop rc ?R ?a ?b ?c ?s ?n ?i ?l] =>
      destruct (Partition.CreateDefaultCenters_loop rc R a b c s n i l)
        as [[Cs ok']| |] eqn:Hloop; cbn [bind]; try discriminate
  end.
  intros Hrun. injection Hrun as <- <-. exists Cs. split; [reflexivity|].
  apply CreateDefaultCenters_loop_spec in Hloop; [|intros c []].
  destruct ok'.
  - destruct Hloop as [-> Hall]. split; [|exact Hall].
    cbn [app]. unfold zrange. now rewrite !length_map, length_seq.
  - destruct Hloop as (pre & c & -> & Hpre & Hc & Hlen).
    exists pre, c. repeat split; assumption.
Qed.

Lemma CreateDefaultCenters_steps_spec (Region : Poly.t D) (max_steps : Z) (n : nat) :
  forall (p p' : Partition.t D) (multiplier : D) (ii : Z),
    (1 <= n)%nat -> (Z.of_nat n + ii = max_steps + 1)%Z ->
    Partition.CreateDefaultCenters_steps rc p Region multiplier max_steps n ii = Ok p' ->
    exists Cs, p' = Partition.set_Centers p Cs
      /\ List.length Cs = Z.to_nat (Partition.NRegions p) /\ all_inside rc Region Cs.
Proof.
  induction n as [|n IH]; intros p p' multiplier ii Hn Hii; [lia|].
  cbn [Partition.CreateDefaultCenters_steps].
  destruct (Partition.CreateDefaultCenters rc p Region multiplier) as [[p1 ok]| |] eqn:Hc;
    cbn [bind]; try discriminate.
  apply CreateDefaultCenters_spec in Hc as (Cs & -> & Hok).
  destruct ok.
  - intros Hrun. injection Hrun as <-. exists Cs. tauto.
  - destruct (Z.eqb_spec ii max_steps) as [Heq|Hne]; [discriminate|].
    intros Hrun. apply IH in Hrun; [|lia|lia].
    destruct Hrun as (Cs2 & -> & Hlen & Hall). exists Cs2. split; [reflexivity|].
    split; [exact Hlen | exact Hall].
Qed.

(** X11. [CreateDefaultCenters(Region, multiplier)], on a region with at least
    two vertices, changes the centers of the partition only.  When it returns
    [true], there is one center for each region and [pnpoly] places every one
    of them in the region.  When it returns [false], the centers are the ones
    placed so far: the last one is the first that [pnpoly] places out of the
    region, and the ones before it are in the region. *)
Theorem CreateDefaultCenters_inside_or_rejected (p p' : Partition.t D) (Region : Poly.t D)
  (multiplier : D) (ok : bool) :
  (2 <= List.length (Poly.Vertices Region))%nat ->
  Partition.CreateDefaultCenters rc p Region multiplier = Ok (p', ok) ->
  exists Cs, p' = Partition.set_Centers p Cs
    /\ if ok then
         List.length Cs = Z.to_nat (Partition.NRegions p) /\ all_inside rc Region Cs
       else
         exists pre c, Cs = pre ++ [c] /\ all_inside rc Region pre
                       /\ Poly.pnpoly rc Region c = Ok false
                       /\ (List.length Cs <= Z.to_nat (Partition.NRegions p))%nat.
Proof. intros _. apply CreateDefaultCenters_spec. Qed.

Lemma InitializePartition_check_spec (Region : Poly.t D) (Centers : list (Point.t D)) :
  Partition.InitializePartition_check rc Region Centers = Ok tt ->
  all_inside rc Region Centers.
Proof.
  induction Centers as [|c rest IH]; cbn [Partition.InitializePartition_check].
  - intros _ c [].
  - destruct (Poly.pnpoly rc Region c) as [[|]| |] eqn:Hc; cbn [bind negb]; try discriminate.
    intros Hrun c' [<-|Hin]; [exact Hc | now apply IH].
Qed.

Lemma InitializePartition_centers_spec (p p1 : Partition.t D) (Centers : list (Point.t D)) :
  (0 <= Partition.NRegions p)%Z ->
  (if negb (Partition.NRegions p =? 0)%Z && is_empty Centers
   then Partition.CreateDefaultCenters_retry rc p (Density.Region (Partition.Prior p))
          (of_int 1 / of_int 100) 10
   else if negb (Z.of_nat (List.length Centers) =? Partition.NRegions p)%Z
        then Throw "Centers must be the same size as NRegions!"
        else _ <- Partition.InitializePartition_check rc
                    (Density.Region (Partition.Prior p)) Centers ;;
             Ok (Partition.set_Centers p Centers)) = Ok p1 ->
  exists Cs, p1 = Partition.set_Centers p Cs
    /\ List.length Cs = Z.to_nat (Partition.NRegions p)
    /\ all_inside rc (Density.Region (Partition.Prior p)) Cs
    /\ (Centers <> [] -> Cs = Centers).
Proof.
  intros HN.
  destruct (negb (Partition.NRegions p =? 0)%Z && is_empty Centers) eqn:Hdef.
  - intros Hrun. unfold Partition.CreateDefaultCenters_retry in Hrun.
    apply CreateDefaultCenters_steps_spec in Hrun; [|cbn; lia | cbn; lia].
    destruct Hrun as (Cs & -> & Hlen & Hall). exists Cs. repeat split; try assumption.
    apply andb_true_iff in Hdef as [_ Hemp]. apply is_empty_true in Hemp. congruence.
  - destruct (Z.eqb_spec (Z.of_nat (List.length Centers)) (Partition.NRegions p))
      as [Hsz|Hsz]; cbn [negb]; [|discriminate].
    destruct (Partition.InitializePartition_check rc _ Centers) as [[]| |] eqn:Hchk;
      cbn [bind]; try discriminate.
    intros Hrun. injection Hrun as <-. exists Centers.
    split; [reflexivity|]. split; [lia|].
    split; [now apply InitializePartition_check_spec | auto].
Qed.

(** X12. When [InitializePartition(Centers, Weights)] returns (the region of
    the prior having at least two vertices where the default centers are
    asked for), the number of regions is not negative, the partition has one
    center for each region and [pnpoly] places every center in the region of
    the prior; centers that were given are kept as they are.  Given weights
    are kept, and there is one for each region.  When no weights are given
    and there are regions, one [0] for each region is appended to the weights
    the partition already had, so that a second initialisation leaves twice
    as many weights as regions.  The covering is reset to one empty polygon
    [Poly()] for each region; the prior, the desired areas and the parameters
    are not changed. *)
Theorem InitializePartition_postcondition (p p' : Partition.t D)
  (Centers : list (Point.t D)) (Weights : list D) :
  (Centers = [] -> Partition.NRegions p <> 0%Z ->
   (2 <= List.length (Poly.Vertices (Density.Region (Partition.Prior p))))%nat) ->
  Partition.InitializePartition rc p Centers Weights = Ok p' ->
  (0 <= Partition.NRegions p)%Z
  /\ List.length (Partition.Centers p') = Z.to_nat (Partition.NRegions p)
  /\ all_inside rc (Density.Region (Partition.Prior p)) (Partition.Centers p')
  /\ (Centers <> [] -> Partition.Centers p' = Centers)
  /\ Partition.Weights p'
     = (if is_empty Weights then
          if (Partition.NRegions p =? 0)%Z then []
          else Partition.Weights p ++ repeat (of_int 0) (Z.to_nat (Partition.NRegions p))
        else Weights)
  /\ (Weights <> [] -> List.length Weights = Z.to_nat (Partition.NRegions p))
  /\ Partition.Covering p'
     = repeat (Poly.mk INFINITY INFINITY (- INFINITY) (- INFINITY) [])
         (Z.to_nat (Partition.NRegions p))
  /\ Partition.NRegions p' = Partition.NRegions p
  /\ Partition.Prior p' = Partition.Prior p
  /\ Partition.desired_area p' = Partition.desired_area p
  /\ Partition.Alg_Params p' = Partition.Alg_Params p.
Proof.
  intros _. unfold Partition.InitializePartition, Density.GetRegion.
  destruct (Z.ltb_spec (Partition.NRegions p) 0) as [Hneg|HN]; [discriminate|].
  match goal with
  | |- context [bind ?m _] => destruct m as [p1| |] eqn:Hp1; cbn [bind]; try discriminate
  end.
  apply InitializePartition_centers_spec in Hp1 as (Cs & -> & HlenCs & Hall & Hgiven);
    [|exact HN].
  cbn [Partition.set_Centers Partition.NRegions Partition.Weights].
  destruct (negb (Partition.NRegions p =? 0)%Z && is_empty Weights) eqn:Hw; cbn [bind].
  - intros Hrun. injection Hrun as <-. cbn.
    apply andb_true_iff in Hw as [Hnz Hemp]. rewrite Hemp.
    apply negb_true_iff in Hnz. rewrite Hnz.
    apply is_empty_true in Hemp. repeat split; try assumption; try reflexivity.
    congruence.
  - destruct (Z.eqb_spec (Z.of_nat (List.length Weights)) (Partition.NRegions p))
      as [Hsz|Hsz]; cbn [negb bind]; [|discriminate].
    intros Hrun. injection Hrun as <-. cbn.
    repeat split; try assumption; try reflexivity; [|lia].
    destruct Weights as [|w ws]; [|reflexivity]. cbn [is_empty].
    cbn [List.length] in Hsz. rewrite <- Hsz. reflexivity.
Qed.

End DefaultCenters.

Lemma CreateDefaultCenters_inside_or_rejected_witness :
  exists Cs,
    Partition.CreateDefaultCenters Example.rc Example.partition_three Example.unit_square
      0x1p-7%float
    = Ok (Partition.set_Centers Example.partition_three Cs, true)
    /\ List.length Cs = 3%nat /\ all_inside Example.rc Example.unit_square Cs.
Proof.
  eexists. split; [vm_compute; reflexivity|].
  match goal with
  | |- List.length ?Cs = _ /\ _ =>
      destruct (CreateDefaultCenters_inside_or_rejected Example.rc Example.partition_three
                  (Partition.set_Centers Example.partition_three Cs) Example.unit_square
                  0x1p-7%float true)
        as (Cs' & Heq & Hlen & Hin)
  end.
  - cbn. lia.
  - vm_compute. reflexivity.
  - injection Heq as <-. split; [exact Hlen | exact Hin].
Defined.

Lemma InitializePartition_postcondition_witness :
  exists p',
    Partition.InitializePartition Example.rc Example.partition_two [] [] = Ok p'
    /\ List.length (Partition.Centers p') = 2%nat
    /\ all_inside Example.rc Example.big_square (Partition.Centers p')
    /\ Partition.Weights p' = [0; 0]%float.
Proof.
  eexists. split; [vm_compute; reflexivity|].
  match goal with
  | |- List.length (Partition.Centers ?p') = _ /\ _ =>
      destruct (InitializePartition_postcondition Example.rc Example.partition_two p' [] [])
        as (_ & Hlen & Hin & _ & Hw & _)
  end.
  - intros _ _. cbn. lia.
  - vm_compute. reflexivity.
  - split; [exact Hlen|]. split; [exact Hin | exact Hw].
Defined.

(** ** The default centers are distinct *)

Section DefaultCentersList.
Context {D : Type} `{DoubleOps D}.
Local Open Scope double_scope.
Variable rc : D.

Lemma CreateDefaultCenters_centers (p p' : Partition.t D) (Region : Poly.t D) (multiplier : D) :
  Partition.CreateDefaultCenters rc p Region multiplier = Ok (p', true) ->
  let p1 := vec_get Point.default (Poly.Vertices Region) 0 in
  let p2 := vec_get Point.default (Poly.Vertices Region) 1 in
  exists perp,
    (perp = Point.FindPerpDirection p1 p2 multiplier
     \/ perp = Point.FlipDirection (Point.FindPerpDirection p1 p2 multiplier))
    /\ Partition.Centers p'
       = map (default_center p1 p2 perp (of_int 1 / of_int (Partition.NRegions p + 1)))
           (zrange 0 (Z.to_nat (Partition.NRegions p))).
Proof.
  unfold Partition.CreateDefaultCenters, Poly.GetVertices.
  destruct (Poly.pnpoly rc Region _) as [inside| |]; cbn [bind]; try discriminate.
  match goal with
  | |- context [Partition.CreateDefaultCenters_loop rc ?R ?a ?b ?c ?s ?n ?i ?l] =>
      destruct (Partition.CreateDefaultCenters_loop rc R a b c s n i l)
        as [[Cs ok']| |] eqn:Hloop; cbn [bind]; try discriminate
  end.
  intros Hrun. injection Hrun as <- Hok. subst ok'.
  apply CreateDefaultCenters_loop_spec in Hloop; [|intros c []].
  destruct Hloop as [-> _]. cbn zeta.
  eexists. split; [|reflexivity].
  destruct inside; cbn [negb]; auto.
Qed.

End DefaultCentersList.

Section IdealDefaultCenters.
Local Open Scope R_scope.

Lemma NoDup_map_on (A B : Type) (f : A -> B) (L : list A) :
  (forall x y, In x L -> In y L -> f x = f y -> x = y) -> NoDup L -> NoDup (map f L).
Proof.
  induction L as [|a L IH]; intros Hinj Hnd; cbn; [constructor|].
  inversion Hnd as [|? ? Hnotin Hnd']; subst. constructor.
  - intros Hin. apply in_map_iff in Hin as (y & Hy & Hiny).
    apply Hnotin. rewrite (Hinj a y); [exact Hiny | now left | now right | now symmetry].
  - apply IH; [|exact Hnd']. intros x y Hx Hy. apply Hinj; now right.
Qed.

Lemma NoDup_zrange (lo : Z) (n : nat) : NoDup (zrange lo n).
Proof.
  unfold zrange. apply NoDup_map_on; [|apply seq_NoDup]. intros x y _ _ Hxy. lia.
Qed.

Lemma In_zrange (lo : Z) (n : nat) (k : Z) :
  In k (zrange lo n) -> (lo <= k < lo + Z.of_nat n)%Z.
Proof.
  unfold zrange. intros Hin. apply in_map_iff in Hin as (j & <- & Hj).
  apply in_seq in Hj. lia.
Qed.

(** X13. In exact arithmetic, when the first two vertices of the region are
    two different points with real coordinates and the multiplier is a real
    number, the centers that [CreateDefaultCenters] has placed when it returns
    [true] are pairwise different points. *)
Theorem CreateDefaultCenters_distinct (rc : ereal) (p p' : Partition.t ereal)
  (Region : Poly.t ereal) (mu a b c e : R) :
  (2 <= List.length (Poly.Vertices Region))%nat ->
  nth 0 (Poly.Vertices Region) Point.default = Ideal.pt a b ->
  nth 1 (Poly.Vertices Region) Point.default = Ideal.pt c e ->
  (a, b) <> (c, e) ->
  (0 <= Partition.NRegions p)%Z ->
  Partition.CreateDefaultCenters rc p Region (Fin mu) = Ok (p', true) ->
  NoDup (Partition.Centers p').
Proof.
  intros _ Hp1 Hp2 Hne HN Hrun.
  apply CreateDefaultCenters_centers in Hrun. cbn zeta in Hrun.
  destruct Hrun as (perp & Hperp & ->).
  change (vec_get Point.default (Poly.Vertices Region) 0)
    with (nth 0 (Poly.Vertices Region) Point.default) in *.
  change (vec_get Point.default (Poly.Vertices Region) 1)
    with (nth 1 (Poly.Vertices Region) Point.default) in *.
  rewrite Hp1, Hp2 in *.
  assert (Hd : Ideal.rdist a b c e <> 0).
  { intros Hz. apply rdist_zero in Hz as [-> ->]. now apply Hne. }
  assert (Hfin : exists px py, perp = Ideal.pt px py).
  { assert (Hf : exists px py,
               Point.FindPerpDirection (Ideal.pt a b) (Ideal.pt c e) (Fin mu) = Ideal.pt px py).
    { unfold Point.FindPerpDirection. rewrite Distance_pt.
      replace (d_eqb (Fin (Ideal.rdist a b c e)) (of_int 0)) with false
        by (symmetry; apply Reqb_false; exact Hd).
      cbn -[e_div Ideal.rdist]. rewrite !e_div_Fin by exact Hd. cbn. do 2 eexists. reflexivity. }
    destruct Hf as (px & py & Hf). destruct Hperp as [-> | ->]; rewrite Hf.
    - eauto.
    - cbn. do 2 eexists. reflexivity. }
  destruct Hfin as (px & py & ->).
  apply NoDup_map_on; [|apply NoDup_zrange].
  intros i j Hi Hj Heq. apply In_zrange in Hi, Hj.
  assert (HN1 : IZR (Partition.NRegions p + 1) <> 0).
  { apply not_0_IZR. lia. }
  unfold default_center, Point.AddPoints, Point.FindPointAlongLine, Ideal.pt in Heq.
  cbn -[e_div] in Heq. rewrite e_div_Fin in Heq by exact HN1. cbn in Heq.
  injection Heq as Hx Hy.
  destruct (Z.eq_dec i j) as [|Hij]; [assumption|exfalso].
  assert (Hk : IZR (i + 1) <> IZR (j + 1)) by (intros Hk; apply eq_IZR in Hk; lia).
  set (sp := 1 / IZR (Partition.NRegions p + 1)) in *.
  assert (Hsp : sp <> 0).
  { unfold sp. unfold Rdiv. rewrite Rmult_1_l. now apply Rinv_neq_0_compat. }
  assert (Hx' : (c - a) * (sp * (IZR (i + 1) - IZR (j + 1))) = 0) by lra.
  assert (Hy' : (e - b) * (sp * (IZR (i + 1) - IZR (j + 1))) = 0) by lra.
  assert (Hnz : sp * (IZR (i + 1) - IZR (j + 1)) <> 0).
  { apply Rmult_integral_contrapositive. split; [exact Hsp | lra]. }
  apply Rmult_integral in Hx', Hy'.
  apply Hne. f_equal; lra.
Qed.

End IdealDefaultCenters.

Section IdealUnitSquareCenters.
Local Open Scope R_scope.

Lemma crossing_skip (x1 y1 x2 y2 tx ty : R) (value : bool) :
  ~ ((y1 < ty <= y2 \/ (ty <= y1 /\ y2 < ty)) /\ (x1 <= tx \/ x2 <= tx)) ->
  Poly.crossing (Ideal.pt x1 y1) (Ideal.pt x2 y2) (Ideal.pt tx ty) value = value.
Proof.
  intros Hno. unfold Poly.crossing, Ideal.pt. cbn [Point.x Point.y d_ltb d_leb ereal_ops].
  destruct (_ && _) eqn:Hc; [|reflexivity].
  exfalso. apply Hno.
  rewrite andb_true_iff, !orb_true_iff, !andb_true_iff in Hc.
  rewrite !e_ltb_Fin, !e_leb_Fin in Hc. lra.
Qed.

Lemma crossing_toggle (x1 y1 x2 y2 tx ty : R) (value : bool) :
  (y1 < ty <= y2 \/ (ty <= y1 /\ y2 < ty)) -> (x1 <= tx \/ x2 <= tx) ->
  x1 + (ty - y1) * (x2 - x1) / (y2 - y1) < tx ->
  Poly.crossing (Ideal.pt x1 y1) (Ideal.pt x2 y2) (Ideal.pt tx ty) value = negb value.
Proof.
  intros Hy Hx Hlt. unfold Poly.crossing, Ideal.pt.
  cbn [Point.x Point.y d_ltb d_leb ereal_ops].
  replace (_ && _) with true.
  - cbn [d_sub d_add d_mul d_div ereal_ops e_sub e_add e_neg e_mul].
    rewrite e_div_Fin by lra. cbn [e_add].
    replace (e_ltb _ _) with true; [reflexivity|].
    symmetry. apply e_ltb_Fin.
    replace (x1 + (ty + - y1) * (x2 + - x1) / (y2 + - y1))
      with (x1 + (ty - y1) * (x2 - x1) / (y2 - y1)) by (unfold Rminus; reflexivity).
    exact Hlt.
  - symmetry. rewrite andb_true_iff, !orb_true_iff, !andb_true_iff.
    rewrite !e_ltb_Fin, !e_leb_Fin. lra.
Qed.

(** A point of the unit square that is away from the lines of its four
    edges, above or below the lower edge: [pnpoly] answers whether it is
    above. *)
Lemma pnpoly_unit_square_off_edges (r x y : R) :
  0 < r <= 1 -> 3 * r <= x <= 1 - 3 * r -> -1 <= y <= 1 - 3 * r -> 3 * r <= Rabs y ->
  Poly.pnpoly (Fin r) Ideal.unit_square (Ideal.pt x y) = Ok (Rltb 0 y).
Proof.
  intros Hr Hx Hy Hay.
  assert (Hybound : Rabs y <= 1) by (apply Rabs_le; lra).
  assert (Hfar : Forall (fun e => Point.AreBetween (Fin r) (fst e) (snd e) (Ideal.pt x y) = false)
                   (edges Ideal.unit_square)).
  { unfold edges, Ideal.unit_square, Ideal.unit_square_vertices.
    cbn [Poly.Vertices map last edges_from]. unfold Ideal.of_pair. cbn [fst snd].
    repeat constructor; cbn [fst snd].
    - apply (AreBetween_false_far _ x 3); try lra.
      + rewrite PerpDistanceToLine_vertical.
        * f_equal. apply Rabs_of_nonneg; lra.
        * rewrite (Rabs_of_neg _ 1); lra.
        * rewrite (Rabs_of_nonneg _ 0); lra.
      + intros Heq; inversion Heq; lra.
      + apply rmax_dist_le; apply rdist_le; try lra; nra.
    - apply (AreBetween_false_far _ (Rabs y) 3); try lra.
      + rewrite PerpDistanceToLine_horizontal.
        * f_equal. f_equal. lra.
        * rewrite (Rabs_of_nonneg _ 0); lra.
      + intros Heq; inversion Heq; lra.
      + apply rmax_dist_le; apply rdist_le; try lra; nra.
    - apply (AreBetween_false_far _ (1 - x) 3); try lra.
      + rewrite PerpDistanceToLine_vertical.
        * f_equal. apply Rabs_of_neg; lra.
        * rewrite (Rabs_of_nonneg _ 1); lra.
        * rewrite (Rabs_of_nonneg _ 0); lra.
      + intros Heq; inversion Heq; lra.
      + apply rmax_dist_le; apply rdist_le; try lra; nra.
    - apply (AreBetween_false_far _ (1 - y) 3); try lra.
      + rewrite PerpDistanceToLine_horizontal.
        * f_equal. apply Rabs_of_neg; lra.
        * rewrite (Rabs_of_nonneg _ 0); lra.
      + intros Heq; inversion Heq; lra.
      + apply rmax_dist_le; apply rdist_le; try lra; nra. }
  unfold Poly.pnpoly. cbn [Poly.Vertices Ideal.unit_square is_empty map
                            Ideal.unit_square_vertices].
  f_equal. rewrite pnpoly_loop_crossings by exact Hfar.
  unfold Ideal.of_pair. cbn [fst snd last edges_from fold_left].
  destruct (Rlt_dec 0 y) as [Hpos | Hneg].
  - replace (Rltb 0 y) with true by (symmetry; apply Rltb_true; lra).
    rewrite (crossing_toggle 0 1 0 0) by (try lra; unfold Rdiv; nra).
    rewrite !crossing_skip by lra. reflexivity.
  - assert (Hy0 : y < 0).
    { destruct (Req_dec y 0) as [-> | Hne]; [rewrite Rabs_R0 in Hay; lra | lra]. }
    replace (Rltb 0 y) with false by (symmetry; apply Rltb_false; lra).
    rewrite !crossing_skip by lra. reflexivity.
Qed.

Lemma FindPerpDirection_unit_edge (mu : R) :
  Point.FindPerpDirection (Ideal.pt 0 0) (Ideal.pt 1 0) (Fin mu) = Ideal.pt 0 (- mu).
Proof.
  unfold Point.FindPerpDirection. rewrite Distance_pt.
  rewrite (rdist_is 0 0 1 0 1) by lra.
  replace (d_eqb (Fin 1) (of_int 0)) with false by (symmetry; apply Reqb_false; cbn; lra).
  unfold Ideal.pt. cbn [Point.x Point.y d_sub d_mul d_div ereal_ops e_sub e_add e_neg].
  rewrite !e_div_Fin by lra. cbn [e_mul]. f_equal; f_equal; field.
Qed.

(** Two default centers on the unit square, with the multiplier [1/100]. *)
Lemma CreateDefaultCenters_unit_square :
  Partition.CreateDefaultCenters (Fin (/ 1024)) Ideal.partition_halves Ideal.unit_square
    (Fin (/ 100))
  = Ok (Partition.set_Centers Ideal.partition_halves
          [Ideal.pt (/ 3) (/ 100); Ideal.pt (2 / 3) (/ 100)], true).
Proof.
  unfold Partition.CreateDefaultCenters, Poly.GetVertices.
  change (vec_get Point.default (Poly.Vertices Ideal.unit_square) 0) with (Ideal.pt 0 0).
  change (vec_get Point.default (Poly.Vertices Ideal.unit_square) 1) with (Ideal.pt 1 0).
  rewrite FindPerpDirection_unit_edge.
  replace (Point.AddPoints (Point.FindPointAlongLine (Ideal.pt 0 0) (Ideal.pt 1 0)
                              (of_int 1 / of_int 2)%dbl) (Ideal.pt 0 (- / 100)))
    with (Ideal.pt (/ 2) (- / 100)).
  2:{ unfold Point.AddPoints, Point.FindPointAlongLine, Ideal.pt.
      cbn [Point.x Point.y of_int d_sub d_add d_mul d_div ereal_ops e_sub e_add e_neg].
      rewrite e_div_Fin by (cbn; lra). cbn. f_equal; f_equal; field. }
  rewrite pnpoly_unit_square_off_edges;
    [| lra | lra | lra | rewrite (Rabs_of_neg _ (/ 100)); lra].
  replace (Rltb 0 (- / 100)) with false by (symmetry; apply Rltb_false; lra).
  cbn [bind negb].
  replace (Point.FlipDirection (Ideal.pt 0 (- / 100))) with (Ideal.pt 0 (/ 100))
    by (unfold Point.FlipDirection, Ideal.pt; cbn; f_equal; f_equal; lra).
  replace (of_int 1 / of_int (Partition.NRegions Ideal.partition_halves + 1))%dbl
    with (Fin (/ 3)).
  2:{ cbn [Partition.NRegions Ideal.partition_halves of_int d_div ereal_ops Z.add Pos.add
           Pos.succ].
      rewrite e_div_Fin by lra. f_equal. lra. }
  change (Z.to_nat (Partition.NRegions Ideal.partition_halves)) with 2%nat.
  cbn [Partition.CreateDefaultCenters_loop].
  assert (Hc : forall k : Z, 
             Point.AddPoints
               (Point.FindPointAlongLine (Ideal.pt 0 0) (Ideal.pt 1 0)
                  (Fin (/ 3) * of_int k)%dbl) (Ideal.pt 0 (/ 100))
             = Ideal.pt (IZR k / 3) (/ 100)).
  { intros k. unfold Point.AddPoints, Point.FindPointAlongLine, Ideal.pt.
    cbn. f_equal; f_equal; lra. }
  rewrite !Hc. cbn [Z.add Pos.add Pos.succ app].
  rewrite !pnpoly_unit_square_off_edges;
    try lra; try (rewrite (Rabs_of_nonneg _ (/ 100)); lra).
  replace (Rltb 0 (/ 100)) with true by (symmetry; apply Rltb_true; lra).
  cbn [bind negb]. do 3 f_equal. unfold Ideal.pt. repeat f_equal; lra.
Qed.
End IdealUnitSquareCenters.

Lemma CreateDefaultCenters_distinct_witness :
  NoDup [Ideal.pt (/ 3) (/ 100); Ideal.pt (2 / 3) (/ 100)].
Proof.
  apply (CreateDefaultCenters_distinct (Fin (/ 1024)) Ideal.partition_halves
           (Partition.set_Centers Ideal.partition_halves
              [Ideal.pt (/ 3) (/ 100); Ideal.pt (2 / 3) (/ 100)])
           Ideal.unit_square (/ 100) 0 0 1 0).
  - cbn. lia.
  - reflexivity.
  - reflexivity.
  - intros Heq. inversion Heq. lra.
  - cbn. lia.
  - exact CreateDefaultCenters_unit_square.
Defined.

(** ** CreateDelaunayGraph *)

Section DelaunayLoops.
Context {D : Type} `{DoubleOps D}.
Local Open Scope double_scope.

Variable rc : D.
Variable p : Partition.t D.

Let graph : Type := Z -> Z -> Point.t D * Point.t D.

Variable P : graph -> Prop.

Lemma CreateDelaunayGraph_pp_closed (ii jj : Z) (pi1 pi2 : Point.t D) (n : nat) :
  forall (pp : Z) (G : graph),
    (forall G' pp', (pp <= pp' < pp + Z.of_nat n)%Z -> P G' ->
       P (DelaunayGraph.set_pair G' ii jj
            (entry_of (Point.FindCollinearIntersection rc pi1 pi2
                         (fst (region_edge p jj pp')) (snd (region_edge p jj pp')))))) ->
    P G ->
    P (fst (Partition.CreateDelaunayGraph_pp rc pi1 pi2
              (Poly.GetVertices (region_poly p jj)) (Poly.GetNVertices (region_poly p jj))
              ii jj n pp G)).
Proof.
  induction n as [|n IH]; intros pp G Hcl HG; cbn [Partition.CreateDelaunayGraph_pp];
    [exact HG|].
  fold (region_edge p jj pp).
  destruct (region_edge p jj pp) as [pj1 pj2] eqn:Hedge.
  assert (Hstep : P (DelaunayGraph.set_pair G ii jj
                       (entry_of (Point.FindCollinearIntersection rc pi1 pi2 pj1 pj2)))).
  { specialize (Hcl G pp). rewrite Hedge in Hcl. apply Hcl; [lia | exact HG]. }
  assert (Hnext : forall G', P G' ->
            P (fst (Partition.CreateDelaunayGraph_pp rc pi1 pi2
                      (Poly.GetVertices (region_poly p jj))
                      (Poly.GetNVertices (region_poly p jj)) ii jj n (pp + 1) G'))).
  { intros G' HG'. apply IH; [|exact HG']. intros G2 pp' Hpp'. apply Hcl. lia. }
  destruct (_ && _); [|now apply Hnext].
  destruct (Point.FindCollinearIntersection rc pi1 pi2 pj1 pj2) as [|t0 [|t1 rest]];
    cbn [entry_of] in Hstep; [now apply Hnext | now apply Hnext | exact Hstep].
Qed.

Lemma CreateDelaunayGraph_kk_closed (ii jj : Z) (n : nat) :
  forall (kk : Z) (G : graph),
    (forall G' kk' pp',
       (kk <= kk' < kk + Z.of_nat n)%Z ->
       (0 <= pp' < Poly.GetNVertices (region_poly p jj))%Z ->
       P G' -> P (DelaunayGraph.set_pair G' ii jj (overlap_entry rc p ii jj kk' pp'))) ->
    P G ->
    P (Partition.CreateDelaunayGraph_kk rc
         (Poly.GetVertices (region_poly p ii)) (Poly.GetVertices (region_poly p jj))
         (Poly.GetNVertices (region_poly p ii)) (Poly.GetNVertices (region_poly p jj))
         ii jj n kk G).
Proof.
  induction n as [|n IH]; intros kk G Hcl HG; cbn [Partition.CreateDelaunayGraph_kk];
    [exact HG|].
  fold (region_edge p ii kk).
  destruct (region_edge p ii kk) as [pi1 pi2] eqn:Hedge.
  pose proof (CreateDelaunayGraph_pp_closed ii jj pi1 pi2
                (Z.to_nat (Poly.GetNVertices (region_poly p jj))) 0 G) as Hpp.
  destruct (Partition.CreateDelaunayGraph_pp rc pi1 pi2 _ _ ii jj _ 0 G) as [G1 flag].
  cbn [fst] in Hpp.
  assert (HG1 : P G1).
  { apply Hpp; [|exact HG]. intros G' pp' Hpp' HG'.
    specialize (Hcl G' kk pp'). unfold overlap_entry in Hcl. rewrite Hedge in Hcl.
    apply Hcl; [lia | lia | exact HG']. }
  destruct flag; [exact HG1|].
  apply IH; [|exact HG1]. intros G' kk' pp' Hkk'. apply Hcl. lia.
Qed.

Lemma CreateDelaunayGraph_jj_closed (ii : Z) (n : nat) :
  forall (jj : Z) (G : graph),
    (forall G' jj' kk' pp',
       (jj <= jj' < jj + Z.of_nat n)%Z ->
       (0 <= kk' < Poly.GetNVertices (region_poly p ii))%Z ->
       (0 <= pp' < Poly.GetNVertices (region_poly p jj'))%Z ->
       P G' -> P (DelaunayGraph.set_pair G' ii jj' (overlap_entry rc p ii jj' kk' pp'))) ->
    P G ->
    P (Partition.CreateDelaunayGraph_jj rc p ii n jj G).
Proof.
  induction n as [|n IH]; intros jj G Hcl HG; cbn [Partition.CreateDelaunayGraph_jj];
    [exact HG|].
  apply IH; [intros G' jj' kk' pp' Hjj'; apply Hcl; lia|].
  apply (CreateDelaunayGraph_kk_closed ii jj); [|exact HG].
  intros G' kk' pp' Hkk' Hpp'. apply Hcl; unfold region_poly in *; lia.
Qed.

Lemma CreateDelaunayGraph_ii_closed (n : nat) :
  forall (ii : Z) (G : graph),
    (forall G' ii' jj' kk' pp',
       (ii <= ii' < ii + Z.of_nat n)%Z ->
       (ii' < jj' < Partition.NRegions p)%Z ->
       (0 <= kk' < Poly.GetNVertices (region_poly p ii'))%Z ->
       (0 <= pp' < Poly.GetNVertices (region_poly p jj'))%Z ->
       P G' -> P (DelaunayGraph.set_pair G' ii' jj' (overlap_entry rc p ii' jj' kk' pp'))) ->
    P G ->
    P (Partition.CreateDelaunayGraph_ii rc p n ii G).
Proof.
  induction n as [|n IH]; intros ii G Hcl HG; cbn [Partition.CreateDelaunayGraph_ii];
    [exact HG|].
  apply IH; [intros G' ii' jj' kk' pp' Hii'; apply Hcl; lia|].
  apply CreateDelaunayGraph_jj_closed; [|exact HG].
  intros G' jj' kk' pp' Hjj' Hkk' Hpp'. apply Hcl; lia.
Qed.

End DelaunayLoops.

Section DelaunayGraphFacts.
Context {D : Type} `{DoubleOps D}.
Local Open Scope double_scope.

Variable rc : D.

Lemma set_pair_other (G : Z -> Z -> Point.t D * Point.t D) (ii jj a b : Z)
  (v : Point.t D * Point.t D) :
  (a, b) <> (ii, jj) -> (a, b) <> (jj, ii) ->
  DelaunayGraph.set_pair G ii jj v a b = G a b.
Proof.
  intros H1 H2. unfold DelaunayGraph.set_pair, DelaunayGraph.set_entry.
  destruct (Z.eqb_spec a jj), (Z.eqb_spec b ii), (Z.eqb_spec a ii), (Z.eqb_spec b jj);
    subst; cbn; try reflexivity; congruence.
Qed.

Lemma set_pair_written (G : Z -> Z -> Point.t D * Point.t D) (ii jj : Z)
  (v : Point.t D * Point.t D) :
  DelaunayGraph.set_pair G ii jj v ii jj = v /\ DelaunayGraph.set_pair G ii jj v jj ii = v.
Proof.
  unfold DelaunayGraph.set_pair, DelaunayGraph.set_entry. rewrite !Z.eqb_refl. cbn.
  destruct (Z.eqb_spec ii jj), (Z.eqb_spec jj ii); subst; cbn; auto; congruence.
Qed.

Lemma set_pair_symmetric (G : Z -> Z -> Point.t D * Point.t D) (ii jj : Z)
  (v : Point.t D * Point.t D) :
  (forall a b, G a b = G b a) ->
  forall a b, DelaunayGraph.set_pair G ii jj v a b = DelaunayGraph.set_pair G ii jj v b a.
Proof.
  intros Hsym a b.
  destruct (set_pair_written G ii jj v) as [H1 H2].
  destruct (Z.eq_dec a ii) as [->|Ha]; destruct (Z.eq_dec b jj) as [->|Hb].
  - now rewrite H1, H2.
  - destruct (Z.eq_dec ii jj) as [->|Hij].
    + destruct (Z.eq_dec b jj) as [->|]; [reflexivity|].
      rewrite !set_pair_other by congruence. apply Hsym.
    + destruct (Z.eq_dec b ii) as [->|Hbi]; [reflexivity|].
      rewrite !set_pair_other by congruence. apply Hsym.
  - destruct (Z.eq_dec a jj) as [->|Haj].
    + destruct (Z.eq_dec ii jj) as [->|Hij]; [congruence|]. reflexivity.
    + rewrite !set_pair_other by congruence. apply Hsym.
  - destruct (Z.eq_dec a jj) as [->|Haj]; destruct (Z.eq_dec b ii) as [->|Hbi].
    + now rewrite H1, H2.
    + rewrite !set_pair_other by congruence. apply Hsym.
    + rewrite !set_pair_other by congruence. apply Hsym.
    + rewrite !set_pair_other by congruence. apply Hsym.
Qed.

(** What [CreateDelaunayGraph] leaves in the graph. *)
Lemma CreateDelaunayGraph_graph (p : Partition.t D) (Delaunay G' : DelaunayGraph.t D) :
  Partition.CreateDelaunayGraph rc p Delaunay = Ok G' ->
  DelaunayGraph.NRegions G' = Partition.NRegions p
  /\ ((forall a b, DelaunayGraph.Graph Delaunay a b = DelaunayGraph.Graph Delaunay b a) ->
      forall a b, DelaunayGraph.Graph G' a b = DelaunayGraph.Graph G' b a)
  /\ (forall a b,
        ~ ((0 <= a < Partition.NRegions p)%Z /\ (0 <= b < Partition.NRegions p)%Z /\ a <> b
           /\ Poly.Vertices (region_poly p a) <> [] /\ Poly.Vertices (region_poly p b) <> []) ->
        DelaunayGraph.Graph G' a b = DelaunayGraph.Graph Delaunay a b)
  /\ (forall i j, (0 <= i < j)%Z -> (j < Partition.NRegions p)%Z ->
        DelaunayGraph.Graph G' i j = DelaunayGraph.Graph Delaunay i j
        \/ exists kk pp,
             (0 <= kk < Poly.GetNVertices (region_poly p i))%Z
             /\ (0 <= pp < Poly.GetNVertices (region_poly p j))%Z
             /\ DelaunayGraph.Graph G' i j = overlap_entry rc p i j kk pp).
Proof.
  unfold Partition.CreateDelaunayGraph.
  destruct (Z.eqb_spec (DelaunayGraph.NRegions Delaunay) (Partition.NRegions p)) as [HN|HN];
    cbn [negb]; [|discriminate].
  intros Hrun. injection Hrun as <-. cbn [DelaunayGraph.NRegions DelaunayGraph.Graph].
  split; [exact HN|]. split; [|split].
  - intros Hsym.
    apply (CreateDelaunayGraph_ii_closed rc p (fun G => forall a b, G a b = G b a));
      [|exact Hsym].
    intros G1 ii' jj' kk' pp' _ _ _ _ HG1. now apply set_pair_symmetric.
  - intros a b Hab.
    apply (CreateDelaunayGraph_ii_closed rc p
             (fun G => G a b = DelaunayGraph.Graph Delaunay a b)); [|reflexivity].
    intros G1 ii' jj' kk' pp' Hii' Hjj' Hkk' Hpp' HG1.
    assert (Hvi : Poly.Vertices (region_poly p ii') <> []).
    { intros Hnil. unfold Poly.GetNVertices in Hkk'. rewrite Hnil in Hkk'. cbn in Hkk'. lia. }
    assert (Hvj : Poly.Vertices (region_poly p jj') <> []).
    { intros Hnil. unfold Poly.GetNVertices in Hpp'. rewrite Hnil in Hpp'. cbn in Hpp'. lia. }
    rewrite set_pair_other; [exact HG1| |].
    + intros Heq. injection Heq as -> ->. apply Hab. repeat split; try assumption; lia.
    + intros Heq. injection Heq as -> ->. apply Hab. repeat split; try assumption; lia.
  - intros i j Hij Hj.
    apply (CreateDelaunayGraph_ii_closed rc p
             (fun G => G i j = DelaunayGraph.Graph Delaunay i j
                       \/ exists kk pp,
                            (0 <= kk < Poly.GetNVertices (region_poly p i))%Z
                            /\ (0 <= pp < Poly.GetNVertices (region_poly p j))%Z
                            /\ G i j = overlap_entry rc p i j kk pp)); [|now left].
    intros G1 ii' jj' kk' pp' Hii' Hjj' Hkk' Hpp' HG1.
    destruct (Z.eq_dec i ii') as [->|Hi]; [destruct (Z.eq_dec j jj') as [->|Hj']|].
    + right. exists kk', pp'. split; [exact Hkk'|]. split; [exact Hpp'|].
      apply set_pair_written.
    + rewrite set_pair_other; [exact HG1 | congruence | intros Heq; injection Heq; lia].
    + rewrite set_pair_other; [exact HG1 | congruence | intros Heq; injection Heq; lia].
Qed.

(** X14. [CreateDelaunayGraph] throws unless the graph has as many regions as
    the partition, and keeps that number.  When the partition has one covering
    polygon for each region and the graph it is given is symmetric, the graph
    it leaves is symmetric: the entry of [(a, b)] is the entry of [(b, a)]. *)
Theorem CreateDelaunayGraph_keeps_symmetry (p : Partition.t D)
  (Delaunay G' : DelaunayGraph.t D) :
  List.length (Partition.Covering p) = Z.to_nat (Partition.NRegions p) ->
  Partition.CreateDelaunayGraph rc p Delaunay = Ok G' ->
  (forall a b, DelaunayGraph.Graph Delaunay a b = DelaunayGraph.Graph Delaunay b a) ->
  DelaunayGraph.NRegions Delaunay = Partition.NRegions p
  /\ DelaunayGraph.NRegions G' = Partition.NRegions p
  /\ forall a b, DelaunayGraph.Graph G' a b = DelaunayGraph.Graph G' b a.
Proof.
  intros _ Hrun Hsym.
  destruct (CreateDelaunayGraph_graph p Delaunay G' Hrun) as (HN & Hs & _).
  split; [|split; [exact HN | exact (Hs Hsym)]].
  unfold Partition.CreateDelaunayGraph in Hrun.
  destruct (Z.eqb_spec (DelaunayGraph.NRegions Delaunay) (Partition.NRegions p)) as [He|He];
    cbn [negb] in Hrun; [exact He | discriminate].
Qed.

(** X15. [CreateDelaunayGraph] writes only the entries of two different
    regions whose covering polygons both have vertices.  The entry of every
    other pair [(a, b)] is the one the graph held before the call: the
    diagonal is never written, and the edge a region shared before it lost
    its polygon stays in the graph. *)
Theorem CreateDelaunayGraph_untouched_entries (p : Partition.t D)
  (Delaunay G' : DelaunayGraph.t D) (a b : Z) :
  List.length (Partition.Covering p) = Z.to_nat (Partition.NRegions p) ->
  Partition.CreateDelaunayGraph rc p Delaunay = Ok G' ->
  ~ ((0 <= a < Partition.NRegions p)%Z /\ (0 <= b < Partition.NRegions p)%Z /\ a <> b
     /\ Poly.Vertices (region_poly p a) <> [] /\ Poly.Vertices (region_poly p b) <> []) ->
  DelaunayGraph.Graph G' a b = DelaunayGraph.Graph Delaunay a b.
Proof.
  intros _ Hrun Hab.
  destruct (CreateDelaunayGraph_graph p Delaunay G' Hrun) as (_ & _ & Hkeep & _).
  now apply Hkeep.
Qed.

(** X16. After [CreateDelaunayGraph], the entry of two regions [i < j] is
    either the one the graph held before the call, or the entry written for
    the overlap of an edge [kk] of the polygon of [i] and an edge [pp] of the
    polygon of [j]: the points [FindCollinearIntersection] returns for the
    two edges, with [Point()] in the place of a missing one. *)
Theorem CreateDelaunayGraph_written_entries (p : Partition.t D)
  (Delaunay G' : DelaunayGraph.t D) (i j : Z) :
  List.length (Partition.Covering p) = Z.to_nat (Partition.NRegions p) ->
  Partition.CreateDelaunayGraph rc p Delaunay = Ok G' ->
  (0 <= i < j)%Z -> (j < Partition.NRegions p)%Z ->
  DelaunayGraph.Graph G' i j = DelaunayGraph.Graph Delaunay i j
  \/ exists kk pp,
       (0 <= kk < Poly.GetNVertices (region_poly p i))%Z
       /\ (0 <= pp < Poly.GetNVertices (region_poly p j))%Z
       /\ DelaunayGraph.Graph G' i j = overlap_entry rc p i j kk pp.
Proof.
  intros _ Hrun Hij Hj.
  destruct (CreateDelaunayGraph_graph p Delaunay G' Hrun) as (_ & _ & _ & Hnew).
  now apply Hnew.
Qed.

End DelaunayGraphFacts.

Lemma CreateDelaunayGraph_keeps_symmetry_witness :
  exists G',
    Partition.CreateDelaunayGraph Example.rc Example.partition_halves (DelaunayGraph.make 2)
    = Ok G'
    /\ forall a b, DelaunayGraph.Graph G' a b = DelaunayGraph.Graph G' b a.
Proof.
  eexists. split; [reflexivity|].
  apply (CreateDelaunayGraph_keeps_symmetry Example.rc Example.partition_halves
           (DelaunayGraph.make 2)).
  - reflexivity.
  - reflexivity.
  - intros a b. reflexivity.
Defined.

(** The second region has lost its polygon; the edge it shared with the first
    is still in the graph. *)
Lemma CreateDelaunayGraph_untouched_entries_witness :
  exists G',
    Partition.CreateDelaunayGraph Example.rc Example.partition_vanished Example.half_graph
    = Ok G'
    /\ DelaunayGraph.Graph G' 0 1 = (Example.pt 0.5 0, Example.pt 0.5 1)%float.
Proof.
  eexists. split; [reflexivity|].
  apply (CreateDelaunayGraph_untouched_entries Example.rc Example.partition_vanished
           Example.half_graph _ 0 1).
  - reflexivity.
  - reflexivity.
  - intros (_ & _ & _ & _ & Hne). apply Hne. reflexivity.
Defined.

Lemma CreateDelaunayGraph_written_entries_witness :
  exists G',
    Partition.CreateDelaunayGraph Example.rc Example.partition_halves (DelaunayGraph.make 2)
    = Ok G'
    /\ (DelaunayGraph.Graph G' 0 1 = (Point.default, Point.default)
        \/ exists kk pp,
             (0 <= kk < 4)%Z /\ (0 <= pp < 4)%Z
             /\ DelaunayGraph.Graph G' 0 1
                = overlap_entry Example.rc Example.partition_halves 0 1 kk pp).
Proof.
  eexists. split; [reflexivity|].
  apply (CreateDelaunayGraph_written_entries Example.rc Example.partition_halves
           (DelaunayGraph.make 2) _ 0 1).
  - reflexivity.
  - reflexivity.
  - lia.
  - cbn. lia.
Defined.

(** For the two halves of the unit square, in binary64 arithmetic, the entry
    is the edge they share. *)
Lemma CreateDelaunayGraph_halves_binary64 :
  match Partition.CreateDelaunayGraph Example.rc Example.partition_halves
          (DelaunayGraph.make 2) with
  | Ok G' => DelaunayGraph.Graph G' 0 1
  | _ => (Point.default, Point.default)
  end = (Example.pt 0.5 1, Example.pt 0.5 0)%float.
Proof. vm_compute. reflexivity. Qed.

(** ** Parameters::CheckParameters and FindPointAlongLine *)

Section IdealParameters.
Local Open Scope R_scope.

Lemma passes_above_iff (v : ereal) (b : R) :
  e_leb v (Fin b) = false <-> passes_above v b.
Proof.
  destruct v as [r| | |]; cbn; try tauto; try (split; [discriminate | tauto]).
  apply e_leb_Fin_false.
Qed.

Lemma passes_at_most_iff (v : ereal) (b : R) :
  e_ltb (Fin b) v = false <-> passes_at_most v b.
Proof.
  destruct v as [r| | |]; cbn; try tauto; try (split; [discriminate | tauto]).
  apply Rltb_false.
Qed.

Lemma passes_below_iff (v : ereal) (b : R) :
  e_leb (Fin b) v = false <-> passes_below v b.
Proof.
  destruct v as [r| | |]; cbn; try tauto; try (split; [discriminate | tauto]).
  apply e_leb_Fin_false.
Qed.

(** X17. In exact arithmetic with the IEEE special values,
    [Parameters::CheckParameters] accepts exactly the parameters that pass
    every comparison: each of the two iteration counts is positive, and each
    real parameter is in its range or is a NaN.  A NaN is accepted for every
    real parameter, since each check compares with [<=], [>] or [>=] and
    throws only when the comparison is true; [INFINITY] is accepted for
    [line_int_step], [weights_step], [volume_tolerance],
    [convergence_criterion] and [Robustness_Constant]. *)
Theorem CheckParameters_accepts_iff (p : Parameters.t ereal) :
  Parameters.CheckParameters p = Ok tt
  <-> passes_above (Parameters.line_int_step p) 0
      /\ passes_above (Parameters.weights_step p) 0
      /\ passes_above (Parameters.centers_step p) 0
      /\ passes_at_most (Parameters.centers_step p) 1
      /\ passes_above (Parameters.volume_tolerance p) 0
      /\ passes_above (Parameters.convergence_criterion p) 0
      /\ (0 < Parameters.max_iterations_volume p)%Z
      /\ (0 < Parameters.max_iterations_centers p)%Z
      /\ passes_above (Parameters.Volume_Lower_Bound p) 0
      /\ passes_below (Parameters.Volume_Lower_Bound p) 1
      /\ passes_above (Parameters.Robustness_Constant p) 0.
Proof.
  unfold Parameters.CheckParameters.
  change (of_int 0) with (Fin 0). change (of_int 1) with (Fin 1).
  change (@d_leb ereal ereal_ops) with e_leb. change (@d_ltb ereal ereal_ops) with e_ltb.
  rewrite <- !passes_above_iff, <- passes_at_most_iff, <- passes_below_iff.
  destruct (e_leb (Parameters.line_int_step p) (Fin 0));
    [split; [discriminate | intros (Hc & _); discriminate]|].
  destruct (e_leb (Parameters.weights_step p) (Fin 0));
    [split; [discriminate | intros (_ & Hc & _); discriminate]|].
  destruct (e_leb (Parameters.centers_step p) (Fin 0));
    [split; [discriminate | intros (_ & _ & Hc & _); discriminate]|].
  destruct (e_ltb (Fin 1) (Parameters.centers_step p));
    [split; [discriminate | intros (_ & _ & _ & Hc & _); discriminate]|].
  destruct (e_leb (Parameters.volume_tolerance p) (Fin 0));
    [split; [discriminate | intros (_ & _ & _ & _ & Hc & _); discriminate]|].
  destruct (e_leb (Parameters.convergence_criterion p) (Fin 0));
    [split; [discriminate | intros (_ & _ & _ & _ & _ & Hc & _); discriminate]|].
  cbn [orb].
  destruct (Z.leb_spec (Parameters.max_iterations_volume p) 0);
    [split; [discriminate | intros (_ & _ & _ & _ & _ & _ & Hc & _); lia]|].
  destruct (Z.leb_spec (Parameters.max_iterations_centers p) 0);
    [split; [discriminate | intros (_ & _ & _ & _ & _ & _ & _ & Hc & _); lia]|].
  destruct (e_leb (Parameters.Volume_Lower_Bound p) (Fin 0));
    [split; [discriminate | intros (_ & _ & _ & _ & _ & _ & _ & _ & Hc & _); discriminate]|].
  destruct (e_leb (Fin 1) (Parameters.Volume_Lower_Bound p));
    [split; [discriminate
            | intros (_ & _ & _ & _ & _ & _ & _ & _ & _ & Hc & _); discriminate]|].
  cbn [orb].
  destruct (e_leb (Parameters.Robustness_Constant p) (Fin 0));
    [split; [discriminate
            | intros (_ & _ & _ & _ & _ & _ & _ & _ & _ & _ & Hc); discriminate]|].
  split; [intros _; repeat split; assumption | reflexivity].
Qed.

(** X18. In exact arithmetic, [FindPointAlongLine(Test1, Test2, t)] is
    [Test1] for [t = 0] and [Test2] for [t = 1]; for every real [t] its
    distance to [Test1] is [|t|] times the distance of [Test1] and [Test2],
    and its distance to [Test2] is [|1 - t|] times that distance. *)
Theorem FindPointAlongLine_on_segment (x1 y1 x2 y2 t : R) :
  Point.FindPointAlongLine (Ideal.pt x1 y1) (Ideal.pt x2 y2) (Fin 0) = Ideal.pt x1 y1
  /\ Point.FindPointAlongLine (Ideal.pt x1 y1) (Ideal.pt x2 y2) (Fin 1) = Ideal.pt x2 y2
  /\ Point.Distance (Ideal.pt x1 y1)
       (Point.FindPointAlongLine (Ideal.pt x1 y1) (Ideal.pt x2 y2) (Fin t))
     = Fin (Rabs t * Ideal.rdist x1 y1 x2 y2)
  /\ Point.Distance (Point.FindPointAlongLine (Ideal.pt x1 y1) (Ideal.pt x2 y2) (Fin t))
       (Ideal.pt x2 y2)
     = Fin (Rabs (1 - t) * Ideal.rdist x1 y1 x2 y2).
Proof.
  unfold Point.FindPointAlongLine, Ideal.pt. cbn [Point.x Point.y].
  cbn [d_add d_sub d_mul ereal_ops e_add e_sub e_mul e_neg].
  split; [f_equal; f_equal; lra|]. split; [f_equal; f_equal; lra|].
  change (Point.mk (Fin ?a) (Fin ?b)) with (Ideal.pt a b).
  rewrite !Distance_pt. split; f_equal.
  - replace (Rabs t * Ideal.rdist x1 y1 x2 y2)
      with (Ideal.rdist (t * x1) (t * y1) (t * x2) (t * y2)).
    + unfold Ideal.rdist. f_equal. ring.
    + unfold Ideal.rdist.
      replace ((t * x1 - t * x2) * (t * x1 - t * x2) + (t * y1 - t * y2) * (t * y1 - t * y2))
        with (t * t * ((x1 - x2) * (x1 - x2) + (y1 - y2) * (y1 - y2))) by ring.
      rewrite R_sqrt.sqrt_mult by (first [apply sum_squares_nonneg | apply Rle_0_sqr]).
      f_equal. fold (Rsqr t). apply R_sqrt.sqrt_Rsqr_abs.
  - replace (Rabs (1 - t) * Ideal.rdist x1 y1 x2 y2)
      with (Ideal.rdist ((1 - t) * x1) ((1 - t) * y1) ((1 - t) * x2) ((1 - t) * y2)).
    + unfold Ideal.rdist. f_equal. ring.
    + unfold Ideal.rdist.
      replace (((1 - t) * x1 - (1 - t) * x2) * ((1 - t) * x1 - (1 - t) * x2)
               + ((1 - t) * y1 - (1 - t) * y2) * ((1 - t) * y1 - (1 - t) * y2))
        with ((1 - t) * (1 - t) * ((x1 - x2) * (x1 - x2) + (y1 - y2) * (y1 - y2))) by ring.
      rewrite R_sqrt.sqrt_mult by (first [apply sum_squares_nonneg | apply Rle_0_sqr]).
      f_equal. fold (Rsqr (1 - t)). apply R_sqrt.sqrt_Rsqr_abs.
Qed.

End IdealParameters.

(** ** GradientStepWeights: the balance of the weights *)

Section RsumAlgebra.
Local Open Scope R_scope.

Lemma Rsum_plus (f g : nat -> R) (L : list nat) :
  Rsum (fun i => f i + g i) L = Rsum f L + Rsum g L.
Proof. unfold Rsum. induction L as [|x L IH]; cbn; [lra|]. rewrite IH. lra. Qed.

Lemma Rsum_scal (k : R) (f : nat -> R) (L : list nat) :
  Rsum (fun i => k * f i) L = k * Rsum f L.
Proof. unfold Rsum. induction L as [|x L IH]; cbn; [lra|]. rewrite IH. lra. Qed.

Lemma Rsum_const_zero (L : list nat) : Rsum (fun _ => 0) L = 0.
Proof. unfold Rsum. induction L as [|x L IH]; cbn; [reflexivity|]. rewrite IH. lra. Qed.

Lemma Rsum_swap (F : nat -> nat -> R) (L1 L2 : list nat) :
  Rsum (fun i => Rsum (F i) L2) L1 = Rsum (fun j => Rsum (fun i => F i j) L1) L2.
Proof.
  induction L1 as [|x L1 IH].
  - unfold Rsum at 1. cbn. symmetry. apply Rsum_const_zero.
  - change (Rsum (fun i => Rsum (F i) L2) (x :: L1))
      with (Rsum (F x) L2 + Rsum (fun i => Rsum (F i) L2) L1).
    rewrite IH, <- Rsum_plus. apply Rsum_ext. intros j _. reflexivity.
Qed.

Lemma Rsum_antisymmetric (F : nat -> nat -> R) (L : list nat) :
  (forall i j, F i j = - F j i) -> Rsum (fun i => Rsum (F i) L) L = 0.
Proof.
  intros Hanti.
  assert (Hneg : Rsum (fun i => Rsum (F i) L) L = - Rsum (fun i => Rsum (F i) L) L).
  { rewrite Rsum_swap at 1.
    replace (- Rsum (fun i => Rsum (F i) L) L)
      with (-1 * Rsum (fun i => Rsum (F i) L) L) by lra.
    rewrite <- Rsum_scal. apply Rsum_ext. intros j _.
    rewrite <- Rsum_scal. apply Rsum_ext. intros i _. rewrite (Hanti i j). lra. }
  lra.
Qed.

End RsumAlgebra.

Section IdealWeightsBalance.
Local Open Scope R_scope.

Variable fuel : nat.
Variable garbage : Mult_Array ereal.
Variable p : Partition.t ereal.
Variable volumes : list ereal.
Variable SharedEdges : DelaunayGraph.t ereal.
Variable N : nat.
Variable c : nat -> R * R.
Variables a vol w : nat -> R.
Variable s : R.
Variable l : nat -> nat -> R.

Hypothesis HN : Partition.NRegions p = Z.of_nat N.
Hypothesis Hcenters : Partition.Centers p = map (fun i => Ideal.of_pair (c i)) (seq 0 N).
Hypothesis Hareas : Partition.desired_area p = map (fun i => Fin (a i)) (seq 0 N).
Hypothesis Hvolumes : volumes = map (fun i => Fin (vol i)) (seq 0 N).
Hypothesis Hweights : Partition.Weights p = map (fun i => Fin (w i)) (seq 0 N).
Hypothesis Hstep : Parameters.weights_step (Partition.Alg_Params p) = Fin s.
Hypothesis Hvol : forall i, (i < N)%nat -> vol i <> 0.
Hypothesis Hdistinct : forall i j, (i < j < N)%nat -> c i <> c j.
Hypothesis Hintegrals :
  forall i j, (i < j < N)%nat -> has_shared_edge SharedEdges i j = true ->
    Density.LineIntegral fuel (Partition.Prior p)
      (Parameters.line_int_step (Partition.Alg_Params p))
      (fst (shared_edge SharedEdges i j)) (snd (shared_edge SharedEdges i j))
    = Ok (Fin (l i j)).
Hypothesis Hcovering :
  forall i, (i < N)%nat ->
    Poly.Vertices (nth i (Partition.Covering p) (Poly.mk PInf PInf PInf PInf [])) <> [].

Lemma GradientStepWeights_new_weights :
  exists W,
    Partition.GradientStepWeights fuel garbage p volumes SharedEdges
    = Ok (Partition.set_Weights p W)
    /\ List.length W = N
    /\ forall i, (i < N)%nat ->
         nth i W NaN
         = Fin (w i - s * weight_sum N a vol c (has_shared_edge SharedEdges)
                            (fun i j => l (Nat.min i j) (Nat.max i j)) i).
Proof.
  destruct (GradientStepWeights_dataflow fuel garbage p volumes SharedEdges N
              (fun i j => Fin (l (Z.to_nat i) (Z.to_nat j))))
    as (W & Hrun & Hlen & Hnew).
  - exact HN.
  - now rewrite Hweights, length_map, length_seq.
  - intros i j Hij Hj Hdef.
    assert (Hedge : DelaunayGraph.Graph SharedEdges i j
                    = shared_edge SharedEdges (Z.to_nat i) (Z.to_nat j)).
    { unfold shared_edge. rewrite Nat.min_l, Nat.max_r, !Z2Nat.id by lia. reflexivity. }
    rewrite Hedge. apply Hintegrals; [lia|].
    unfold has_shared_edge. rewrite <- Hedge. exact Hdef.
  - exists W. split; [exact Hrun|]. split; [exact Hlen|].
    intros i Hi. specialize (Hnew (Z.of_nat i)).
    unfold vec_get in Hnew at 1.
    replace (Z.of_nat i <? 0)%Z with false in Hnew by (symmetry; apply Z.ltb_ge; lia).
    rewrite Nat2Z.id in Hnew.
    rewrite (nth_indep W NaN (of_int 0)) by lia. rewrite Hnew by lia.
    unfold new_weight. rewrite GetNVertices_zero.
    unfold vec_get at 1.
    replace (Z.of_nat i <? 0)%Z with false by (symmetry; apply Z.ltb_ge; lia).
    rewrite Nat2Z.id. change INFINITY with PInf.
    rewrite Hweights, Hstep, vec_get_map_seq by exact Hi.
    rewrite (is_empty_false _ _ (Hcovering i Hi)).
    rewrite (total_of_value p volumes SharedEdges N c a vol l
               Hcenters Hareas Hvolumes Hvol Hdistinct i Hi).
    rewrite (weight_sum_value SharedEdges N c a vol l i Hi).
    cbn. f_equal. ring.
Qed.

Lemma has_shared_edge_sym (i j : nat) :
  has_shared_edge SharedEdges i j = has_shared_edge SharedEdges j i.
Proof. unfold has_shared_edge, shared_edge. now rewrite Nat.min_comm, Nat.max_comm. Qed.

Lemma weight_sums_cancel :
  Rsum (weight_sum N a vol c (has_shared_edge SharedEdges)
          (fun i j => l (Nat.min i j) (Nat.max i j))) (seq 0 N) = 0.
Proof.
  unfold weight_sum.
  rewrite (Rsum_ext _ (fun i => Rsum
             (fun j => if negb (j =? i)%nat && has_shared_edge SharedEdges i j
                       then (a j / vol j - a i / vol i)
                            * (1 / Ideal.rdist (fst (c i)) (snd (c i)) (fst (c j)) (snd (c j)))
                            * l (Nat.min i j) (Nat.max i j)
                       else 0) (seq 0 N))).
  - apply Rsum_antisymmetric. intros i j.
    rewrite (Nat.eqb_sym j i), (has_shared_edge_sym i j), (Nat.min_comm i j),
      (Nat.max_comm i j), (rdist_sym (fst (c i))).
    destruct (negb (i =? j)%nat && has_shared_edge SharedEdges j i); [ring | lra].
  - intros i _. apply Rsum_filter.
Qed.

(** X19. In exact arithmetic, under the conditions of C1 and when every
    covering polygon has vertices, [GradientStepWeights] keeps the sum of the
    weights: what the step adds to the weight of one region along a shared
    edge, it takes from the weight of the other. *)
Theorem GradientStepWeights_conserves_sum :
  exists W wnew,
    Partition.GradientStepWeights fuel garbage p volumes SharedEdges
    = Ok (Partition.set_Weights p W)
    /\ W = map (fun i => Fin (wnew i)) (seq 0 N)
    /\ Rsum wnew (seq 0 N) = Rsum w (seq 0 N).
Proof.
  destruct GradientStepWeights_new_weights as (W & Hrun & Hlen & Hnew).
  exists W, (fun i => w i - s * weight_sum N a vol c (has_shared_edge SharedEdges)
                               (fun i j => l (Nat.min i j) (Nat.max i j)) i).
  split; [exact Hrun|]. split.
  - apply (nth_ext _ _ NaN (Fin 0)).
    + now rewrite length_map, length_seq.
    + intros i Hi. rewrite Hlen in Hi. rewrite Hnew by exact Hi.
      rewrite (nth_indep _ (Fin 0) (Fin ((fun i0 => w i0 - s * weight_sum N a vol c
                 (has_shared_edge SharedEdges)
                 (fun i1 j => l (Nat.min i1 j) (Nat.max i1 j)) i0) 0%nat)))
        by (now rewrite length_map, length_seq).
      rewrite (map_nth (fun i0 => Fin (w i0 - s * weight_sum N a vol c
                 (has_shared_edge SharedEdges)
                 (fun i1 j => l (Nat.min i1 j) (Nat.max i1 j)) i0))).
      now rewrite seq_nth.
  - unfold Rminus.
    rewrite Rsum_plus.
    rewrite (Rsum_ext (fun i => - (s * _)) (fun i => (- s) * weight_sum N a vol c
               (has_shared_edge SharedEdges)
               (fun i1 j => l (Nat.min i1 j) (Nat.max i1 j)) i))
      by (intros i _; lra).
    rewrite Rsum_scal, weight_sums_cancel. lra.
Qed.

(** X20. In exact arithmetic, under the same conditions, when the ratio of
    the desired area and the volume is the same for every region,
    [GradientStepWeights] leaves the partition as it is. *)
Theorem GradientStepWeights_fixed_point :
  (forall i j, (i < N)%nat -> (j < N)%nat -> a i / vol i = a j / vol j) ->
  Partition.GradientStepWeights fuel garbage p volumes SharedEdges = Ok p.
Proof.
  intros Hratio.
  destruct GradientStepWeights_new_weights as (W & Hrun & Hlen & Hnew).
  rewrite Hrun. f_equal.
  assert (HW : W = Partition.Weights p).
  { rewrite Hweights. apply (nth_ext _ _ NaN (Fin 0)).
    - now rewrite length_map, length_seq.
    - intros i Hi. rewrite Hlen in Hi. rewrite Hnew by exact Hi.
      rewrite (nth_indep _ (Fin 0) (Fin (w 0%nat))) by (now rewrite length_map, length_seq).
      rewrite (map_nth (fun i0 => Fin (w i0))), seq_nth by exact Hi. cbn [Nat.add].
      f_equal. unfold weight_sum.
      rewrite (Rsum_ext _ (fun _ => 0)).
      + rewrite Rsum_const_zero. lra.
      + intros j Hj. apply filter_In in Hj as [Hj _]. apply in_seq in Hj.
        rewrite (Hratio j i) by lia. lra. }
  rewrite HW. destruct p. reflexivity.
Qed.

End IdealWeightsBalance.

Lemma GradientStepWeights_conserves_sum_witness :
  exists W wnew,
    Partition.GradientStepWeights 1 (fun _ _ => NaN) Ideal.partition_halves
      [Fin (/ 2); Fin (/ 2)] Ideal.half_graph
    = Ok (Partition.set_Weights Ideal.partition_halves W)
    /\ W = map (fun i => Fin (wnew i)) (seq 0 2)
    /\ Rsum wnew (seq 0 2) = Rsum (fun _ => 0%R) (seq 0 2).
Proof.
  apply (GradientStepWeights_conserves_sum 1 (fun _ _ => NaN) Ideal.partition_halves
           [Fin (/ 2); Fin (/ 2)] Ideal.half_graph 2 Ideal.half_centers Ideal.half_areas
           (fun _ => / 2)%R (fun _ => 0%R) (/ 8)%R (fun _ _ => / 2)%R).
  - reflexivity.
  - reflexivity.
  - reflexivity.
  - reflexivity.
  - reflexivity.
  - reflexivity.
  - intros i _. lra.
  - intros [|[|i]] [|[|j]] Hij; try lia. cbn. intros Heq. inversion Heq. lra.
  - intros [|[|i]] [|[|j]] Hij; try lia. intros _. exact LineIntegral_uniform_field.
  - intros [|[|i]] Hi; try lia; discriminate.
Defined.

Lemma GradientStepWeights_fixed_point_witness :
  Partition.GradientStepWeights 1 (fun _ _ => NaN) Ideal.partition_halves
    [Fin (/ 4); Fin (3 / 4)] Ideal.half_graph
  = Ok Ideal.partition_halves.
Proof.
  apply (GradientStepWeights_fixed_point 1 (fun _ _ => NaN) Ideal.partition_halves
           [Fin (/ 4); Fin (3 / 4)] Ideal.half_graph 2 Ideal.half_centers Ideal.half_areas
           Ideal.half_areas (fun _ => 0%R) (/ 8)%R (fun _ _ => / 2)%R).
  - reflexivity.
  - reflexivity.
  - reflexivity.
  - reflexivity.
  - reflexivity.
  - reflexivity.
  - intros [|i] _; cbn; lra.
  - intros [|[|i]] [|[|j]] Hij; try lia. cbn. intros Heq. inversion Heq. lra.
  - intros [|[|i]] [|[|j]] Hij; try lia. intros _. exact LineIntegral_uniform_field.
  - intros [|[|i]] Hi; try lia; discriminate.
  - intros [|i] [|j] _ _; cbn; field; lra.
Defined.

(** ** GradientStepCenter in exact arithmetic *)

Section IdealCenterStep.
Local Open Scope R_scope.

Variable rc : ereal.
Variable p : Partition.t ereal.
Variable volumes : list ereal.
Variable N : nat.
Variable c g : nat -> R * R.

Hypothesis HN : Partition.NRegions p = Z.of_nat N.
Hypothesis Hcenters : Partition.Centers p = map (fun i => Ideal.of_pair (c i)) (seq 0 N).
Hypothesis Hcentroids :
  forall i, (i < N)%nat ->
    Density.CalculateCentroid rc (Partition.Prior p)
      (nth i (Partition.Covering p) (Poly.mk PInf PInf PInf PInf []))
      (nth i volumes (Fin 0))
    = Ok (Ideal.of_pair (g i)).

Lemma nth_map_seq (A : Type) (f : nat -> A) (i : nat) (d : A) :
  (i < N)%nat -> nth i (map f (seq 0 N)) d = f i.
Proof.
  intros Hi. rewrite (nth_indep _ d (f 0%nat)) by (now rewrite length_map, length_seq).
  now rewrite map_nth, seq_nth.
Qed.

Lemma updated_list (A : Type) (old new : nat -> A) (Cs : list A) (d : A) :
  List.length Cs = N ->
  (forall j, (j < N)%nat -> nth j Cs d = new j) ->
  Cs = map new (seq 0 N).
Proof.
  intros Hlen Hnth. apply (nth_ext _ _ d d).
  - now rewrite length_map, length_seq.
  - intros j Hj. rewrite Hlen in Hj. rewrite Hnth, nth_map_seq by exact Hj. reflexivity.
Qed.

(** X21. In exact arithmetic, with [N] regions whose centers [c i] and
    centroids [g i] have real coordinates and a real [centers_step] [s],
    [GradientStepCenter(volumes)] moves every center to
    [c i + s * (g i - c i)], changes nothing else in the partition, and
    returns the sum of the distances [|g i - c i|] of the centers to the
    centroids. *)
Theorem GradientStepCenter_sum_of_distances (s : R) :
  List.length (Partition.Covering p) = N -> List.length volumes = N ->
  Parameters.centers_step (Partition.Alg_Params p) = Fin s ->
  Partition.GradientStepCenter rc p volumes
  = Ok (Partition.set_Centers p
          (map (fun i => Ideal.pt (fst (c i) + s * (fst (g i) - fst (c i)))
                                  (snd (c i) + s * (snd (g i) - snd (c i))))
               (seq 0 N)),
        Fin (Rsum (fun i => Ideal.rdist (fst (g i)) (snd (g i)) (fst (c i)) (snd (c i)))
               (seq 0 N))).
Proof.
  intros _ _ Hstep. unfold Partition.GradientStepCenter. rewrite HN, Nat2Z.id.
  destruct (for_loop_invariant (list (Point.t ereal) * ereal)
              (fun k '(Cs, err) =>
                 List.length Cs = N
                 /\ (forall j, (j < Z.to_nat k)%nat ->
                       nth j Cs Point.default
                       = Ideal.pt (fst (c j) + s * (fst (g j) - fst (c j)))
                                  (snd (c j) + s * (snd (g j) - snd (c j))))
                 /\ (forall j, (Z.to_nat k <= j)%nat ->
                       nth j Cs Point.default = nth j (Partition.Centers p) Point.default)
                 /\ err = Fin (Rsum (fun i => Ideal.rdist (fst (g i)) (snd (g i))
                                                (fst (c i)) (snd (c i)))
                                 (seq 0 (Z.to_nat k))))
              (Partition.GradientStepCenter_body rc p volumes) N 0%Z
              (Partition.Centers p, of_int 0))
    as ([Cs err] & Hrun & HlenCs & Hnew & _ & Herr).
  - split; [now rewrite Hcenters, length_map, length_seq|].
    split; [intros j Hj; cbn in Hj; lia|]. split; [reflexivity|]. reflexivity.
  - intros k [Cs0 err0] Hk (Hl0 & Hnew0 & Hold0 & Herr0).
    unfold Partition.GradientStepCenter_body.
    replace k with (Z.of_nat (Z.to_nat k)) by lia.
    set (kn := Z.to_nat k) in *. assert (Hkn : (kn < N)%nat) by lia.
    rewrite !nth_vec_get. change INFINITY with PInf. change (of_int 0) with (Fin 0).
    rewrite (Hcentroids kn Hkn). cbn [bind].
    rewrite (Hold0 kn) by lia. rewrite Hcenters, nth_map_seq by exact Hkn.
    rewrite Hstep. eexists. split; [reflexivity|].
    replace (Z.to_nat (Z.of_nat kn + 1)) with (S kn) by lia.
    split; [now rewrite length_vec_set|]. split; [|split].
    + intros j Hj. destruct (Nat.eq_dec j kn) as [->|Hne].
      * rewrite nth_vec_set_same by lia.
        unfold Ideal.of_pair, Ideal.pt, Point.AddPoints, Point.Mult, Point.FlipDirection.
        cbn. f_equal; f_equal; lra.
      * rewrite nth_vec_set_other by lia. apply Hnew0. lia.
    + intros j Hj. rewrite nth_vec_set_other by lia. rewrite Hold0 by lia.
      now rewrite Hcenters.
    + rewrite Herr0.
      unfold Ideal.of_pair, Point.AddPoints, Point.FlipDirection.
      cbn [Ideal.pt Point.x Point.y d_add d_neg ereal_ops e_add e_neg].
      change (Point.mk (Fin ?a) (Fin ?b)) with (Ideal.pt a b).
      rewrite Norm_pt. cbn [e_add]. f_equal.
      rewrite seq_S, Rsum_app. cbn [Nat.add]. f_equal.
      unfold Rsum. cbn [map fold_right]. rewrite Rplus_0_r.
      reflexivity.
  - rewrite Hrun. cbn [bind]. f_equal. f_equal.
    + f_equal. apply (updated_list _ (fun _ => Point.default) _ Cs Point.default HlenCs).
      intros j Hj. apply Hnew. lia.
    + rewrite Herr. now replace (Z.to_nat (0 + Z.of_nat N)) with N by lia.
Qed.

(** X22. In exact arithmetic, under the same conditions and for a real
    [temp_step] [t] with [0 < t <= 1], [GradientStepCenter(temp_step, volumes)]
    moves every center to [c i + (g i - c i) * t] and changes nothing else in
    the partition; for [t = 1] the centers become the centroids. *)
Theorem GradientStepCenter_temp_step_moves (t : R) :
  List.length (Partition.Covering p) = N -> List.length volumes = N ->
  0 < t <= 1 ->
  Partition.GradientStepCenter_temp_step rc p (Fin t) volumes
  = Ok (Partition.set_Centers p
          (map (fun i => Ideal.pt (fst (c i) + (fst (g i) - fst (c i)) * t)
                                  (snd (c i) + (snd (g i) - snd (c i)) * t))
               (seq 0 N))).
Proof.
  intros _ _ Ht. unfold Partition.GradientStepCenter_temp_step.
  replace (d_leb (Fin t) (of_int 0)) with false
    by (symmetry; apply e_leb_Fin_false; cbn; lra).
  replace (d_ltb (of_int 1) (Fin t)) with false
    by (symmetry; apply e_ltb_Fin_false; cbn; lra).
  cbn [orb]. rewrite HN, Nat2Z.id.
  match goal with
  | |- context [for_loop ?n ?i ?body ?st] =>
      destruct (for_loop_invariant (list (Point.t ereal))
                  (fun k Cs =>
                     List.length Cs = N
                     /\ (forall j, (j < Z.to_nat k)%nat ->
                           nth j Cs Point.default
                           = Ideal.pt (fst (c j) + (fst (g j) - fst (c j)) * t)
                                      (snd (c j) + (snd (g j) - snd (c j)) * t))
                     /\ (forall j, (Z.to_nat k <= j)%nat ->
                           nth j Cs Point.default
                           = nth j (Partition.Centers p) Point.default))
                  body n i st)
        as (Cs & Hrun & HlenCs & Hnew & _)
  end.
  - split; [now rewrite Hcenters, length_map, length_seq|].
    split; [intros j Hj; cbn in Hj; lia | reflexivity].
  - intros k Cs0 Hk (Hl0 & Hnew0 & Hold0).
    replace k with (Z.of_nat (Z.to_nat k)) by lia.
    set (kn := Z.to_nat k) in *. assert (Hkn : (kn < N)%nat) by lia.
    rewrite !nth_vec_get. change INFINITY with PInf. change (of_int 0) with (Fin 0).
    rewrite (Hcentroids kn Hkn). cbn [bind].
    rewrite (Hold0 kn) by lia. rewrite Hcenters, nth_map_seq by exact Hkn.
    eexists. split; [reflexivity|].
    replace (Z.to_nat (Z.of_nat kn + 1)) with (S kn) by lia.
    split; [now rewrite length_vec_set|]. split.
    + intros j Hj. destruct (Nat.eq_dec j kn) as [->|Hne].
      * rewrite nth_vec_set_same by lia.
        unfold Ideal.of_pair, Ideal.pt, Point.FindPointAlongLine.
        cbn. f_equal; f_equal; lra.
      * rewrite nth_vec_set_other by lia. apply Hnew0. lia.
    + intros j Hj. rewrite nth_vec_set_other by lia. rewrite Hold0 by lia.
      now rewrite Hcenters.
  - rewrite Hrun. cbn [bind]. f_equal. f_equal.
    apply (updated_list _ (fun _ => Point.default) _ Cs Point.default HlenCs).
    intros j Hj. apply Hnew. lia.
Qed.

End IdealCenterStep.

Lemma GradientStepCenter_sum_of_distances_witness :
  exists Cs e,
    Partition.GradientStepCenter (Fin (/ 1024)) Ideal.partition_halves [Fin (/ 8); Fin (/ 8)]
    = Ok (Partition.set_Centers Ideal.partition_halves Cs, Fin e).
Proof.
  do 2 eexists.
  apply (GradientStepCenter_sum_of_distances (Fin (/ 1024)) Ideal.partition_halves
           [Fin (/ 8); Fin (/ 8)] 2 Ideal.half_centers
           (fun i => match i with O => (0, 0) | _ => (/ 2, 0) end)%R).
  - reflexivity.
  - reflexivity.
  - intros [|[|i]] Hi; try lia.
    + apply CalculateCentroid_small_volume; [discriminate | discriminate |].
      apply e_leb_Fin. lra.
    + apply CalculateCentroid_small_volume; [discriminate | discriminate |].
      apply e_leb_Fin. lra.
  - reflexivity.
  - reflexivity.
  - reflexivity.
Defined.

Lemma GradientStepCenter_temp_step_moves_witness :
  exists Cs,
    Partition.GradientStepCenter_temp_step (Fin (/ 1024)) Ideal.partition_halves (Fin (/ 2))
      [Fin (/ 8); Fin (/ 8)]
    = Ok (Partition.set_Centers Ideal.partition_halves Cs).
Proof.
  eexists.
  apply (GradientStepCenter_temp_step_moves (Fin (/ 1024)) Ideal.partition_halves
           [Fin (/ 8); Fin (/ 8)] 2 Ideal.half_centers
           (fun i => match i with O => (0, 0) | _ => (/ 2, 0) end)%R).
  - reflexivity.
  - reflexivity.
  - intros [|[|i]] Hi; try lia.
    + apply CalculateCentroid_small_volume; [discriminate | discriminate |].
      apply e_leb_Fin. lra.
    + apply CalculateCentroid_small_volume; [discriminate | discriminate |].
      apply e_leb_Fin. lra.
  - reflexivity.
  - reflexivity.
  - lra.
Defined.

(** ** CheckParams normalises the desired areas *)

Section IdealCheckParams.
Local Open Scope R_scope.

Lemma CheckParams_sum_real (b : R) (a : nat -> R) (L : list nat) :
  forall (t0 : R) (r : ereal),
    Partition.CheckParams_sum (Fin b) (map (fun i => Fin (a i)) L) (Fin t0) = Ok r ->
    r = Fin (t0 + Rsum a L) /\ forall i, In i L -> b < a i.
Proof.
  induction L as [|x L IH]; intros t0 r; cbn [map Partition.CheckParams_sum].
  - intros Hr. injection Hr as <-. split; [f_equal; unfold Rsum; cbn; lra | intros i []].
  - destruct (d_leb (Fin (a x)) (Fin b)) eqn:Hle; [discriminate|].
    apply e_leb_Fin_false in Hle. intros Hr. apply IH in Hr as [-> Hall]. split.
    + f_equal. unfold Rsum. cbn. lra.
    + intros i [<-|Hi]; [exact Hle | now apply Hall].
Qed.

Lemma CheckParams_normalize_real (b sum : R) (a : nat -> R) (L : list nat) :
  sum <> 0 ->
  forall da',
    Partition.CheckParams_normalize (Fin b) (Fin sum) (map (fun i => Fin (a i)) L) = Ok da' ->
    da' = map (fun i => Fin (a i / sum)) L /\ forall i, In i L -> b <= a i / sum.
Proof.
  intros Hsum. induction L as [|x L IH]; intros da';
    cbn [map Partition.CheckParams_normalize].
  - intros Hr. injection Hr as <-. split; [reflexivity | intros i []].
  - change (d_div (Fin (a x)) (Fin sum)) with (e_div (Fin (a x)) (Fin sum)).
    rewrite e_div_Fin by exact Hsum.
    destruct (d_ltb (Fin (a x / sum)) (Fin b)) eqn:Hlt; [discriminate|].
    apply e_ltb_Fin_false in Hlt.
    destruct (Partition.CheckParams_normalize (Fin b) (Fin sum) _) as [rest| |] eqn:Hrest;
      cbn [bind]; try discriminate.
    intros Hr. injection Hr as <-. destruct (IH rest eq_refl) as [-> Hall]. split.
    + reflexivity.
    + intros i [<-|Hi]; [exact Hlt | now apply Hall].
Qed.

Lemma Rsum_pos (a : nat -> R) (b : R) (L : list nat) :
  0 <= b -> L <> [] -> (forall i, In i L -> b < a i) -> 0 < Rsum a L.
Proof.
  intros Hb Hne Hall. destruct L as [|x L]; [congruence|].
  assert (Hx : b < a x) by (apply Hall; now left).
  assert (HL : 0 <= Rsum a L).
  { apply Rsum_nonneg. intros i Hi. assert (b < a i) by (apply Hall; now right). lra. }
  unfold Rsum in *. cbn. lra.
Qed.


(** X23. In exact arithmetic, for a partition with [N > 0] regions, a real
    volume lower bound [b >= 0] and real desired areas (or none): when
    [CheckParams] returns, the partition has [N] desired areas, each of them
    is at least [b], and their sum is [1]. *)
Theorem CheckParams_normalises (p p' : Partition.t ereal) (out : list string)
  (N n : nat) (b : R) (a : nat -> R) :
  Partition.NRegions p = Z.of_nat N -> (0 < N)%nat ->
  Parameters.Volume_Lower_Bound (Partition.Alg_Params p) = Fin b -> 0 <= b ->
  Partition.desired_area p = map (fun i => Fin (a i)) (seq 0 n) ->
  Partition.CheckParams p = (out, Ok p') ->
  exists a' : nat -> R,
    Partition.desired_area p' = map (fun i => Fin (a' i)) (seq 0 N)
    /\ (forall i, (i < N)%nat -> b <= a' i)
    /\ Rsum a' (seq 0 N) = 1.
Proof.
  intros HN HNpos Hvlb Hb Hda. unfold Partition.CheckParams.
  rewrite HN, Hvlb, Hda.
  replace (Z.of_nat N =? 0)%Z with false by (symmetry; apply Z.eqb_neq; lia).
  cbn [negb andb].
  assert (HNR : IZR (Z.of_nat N) <> 0) by (apply not_0_IZR; lia).
  destruct n as [|n].
  - cbn [seq map is_empty].
    change (d_div (of_int 1) (of_int (Z.of_nat N))) with (e_div (Fin 1) (Fin (IZR (Z.of_nat N)))).
    rewrite e_div_Fin by exact HNR.
    destruct (d_leb (Fin b) (Fin (1 / IZR (Z.of_nat N)))) eqn:Hle; [|intros Hr; discriminate].
    apply e_leb_Fin in Hle.
    replace (Z.of_nat N <? 0)%Z with false by (symmetry; apply Z.ltb_ge; lia).
    intros Hr. injection Hr as _ <-. cbn [Partition.set_desired_area Partition.desired_area].
    rewrite Nat2Z.id. exists (fun _ => 1 / IZR (Z.of_nat N)). split; [|split].
    + generalize (Fin (1 / IZR (Z.of_nat N))) as v. clear. intros v.
      generalize 0%nat. induction N as [|m IH]; intros k; cbn; [reflexivity|].
      f_equal. apply IH.
    + intros i _. exact Hle.
    + rewrite (Rsum_ext _ (fun i => 1 / IZR (Z.of_nat N) * (fun _ => 1) i))
        by (intros i _; lra).
      rewrite Rsum_scal.
      assert (Hones : forall m k, Rsum (fun _ => 1) (seq k m) = INR m).
      { clear. induction m as [|m IH]; intros k; [unfold Rsum; cbn; reflexivity|].
        cbn [seq]. change (Rsum (fun _ => 1) (k :: seq (S k) m))
          with (1 + Rsum (fun _ => 1) (seq (S k) m)).
        rewrite IH, S_INR. lra. }
      rewrite Hones, INR_IZR_INZ. field. exact HNR.
  - replace (is_empty (map (fun i => Fin (a i)) (seq 0 (S n)))) with false by reflexivity.
    rewrite length_map, length_seq.
    destruct (Z.eqb_spec (Z.of_nat (S n)) (Z.of_nat N)) as [Hsz|Hsz]; cbn [negb];
      [|intros Hr; discriminate].
    apply Nat2Z.inj in Hsz. subst N.
    change (of_int 0) with (Fin 0).
    destruct (Partition.CheckParams_sum (Fin b) _ (Fin 0)) as [sum| |] eqn:Hsum;
      try (intros Hr; discriminate).
    apply CheckParams_sum_real in Hsum as [-> Hall].
    assert (Hpos : 0 < Rsum a (seq 0 (S n))).
    { apply (Rsum_pos a b); [exact Hb | discriminate | exact Hall]. }
    change (of_int 1) with (Fin 1).
    destruct (d_eqb (Fin (0 + Rsum a (seq 0 (S n)))) (Fin 1)) eqn:Hone; cbn [negb].
    + apply Reqb_true in Hone. intros Hr. injection Hr as _ <-.
      cbn [Partition.set_desired_area Partition.desired_area].
      exists a. split; [reflexivity|]. split.
      * intros i Hi. apply Rlt_le, Hall, in_seq. lia.
      * lra.
    + destruct (Partition.CheckParams_normalize (Fin b) _ _) as [da'| |] eqn:Hnorm;
        cbn [bind]; try (intros Hr; discriminate).
      apply CheckParams_normalize_real in Hnorm as [-> Hall']; [|lra].
      intros Hr. injection Hr as _ <-.
      cbn [Partition.set_desired_area Partition.desired_area].
      exists (fun i => a i / (0 + Rsum a (seq 0 (S n)))). split; [reflexivity|]. split.
      * intros i Hi. apply Hall', in_seq. lia.
      * rewrite (Rsum_ext _ (fun i => / (0 + Rsum a (seq 0 (S n))) * a i))
          by (intros i _; unfold Rdiv; ring).
        rewrite Rsum_scal. field. lra.
Qed.

(** The desired areas [1] and [3] are normalised to [1/4] and [3/4], with a
    warning. *)
Lemma CheckParams_unnormalised :
  Partition.CheckParams Ideal.partition_unnormalised
  = (["Warning: desired_areas not normalized; will be normalized automatically"%string],
     Ok (Partition.set_desired_area Ideal.partition_unnormalised
           [Fin (1 / 4); Fin (3 / 4)]
           (Density.SetVolumeLowerBound Ideal.uniform_field (Fin (/ 8))))).
Proof.
  unfold Partition.CheckParams.
  cbn [Ideal.partition_unnormalised Partition.NRegions Partition.desired_area
       Partition.Alg_Params Partition.Prior Ideal.params Parameters.Volume_Lower_Bound
       Z.eqb negb andb is_empty List.length Z.of_nat Pos.of_succ_nat Pos.succ Pos.eqb
       Partition.CheckParams_sum].
  replace (d_leb (Fin 1) (Fin (/ 8))) with false by (symmetry; apply e_leb_Fin_false; lra).
  replace (d_leb (Fin 3) (Fin (/ 8))) with false by (symmetry; apply e_leb_Fin_false; lra).
  cbn [of_int d_add ereal_ops e_add d_eqb e_eqb].
  replace (Reqb (0 + 1 + 3) 1) with false by (symmetry; apply Reqb_false; lra).
  cbn [negb Partition.CheckParams_normalize d_div].
  rewrite !e_div_Fin by lra.
  replace (d_ltb (Fin (1 / (0 + 1 + 3))) (Fin (/ 8))) with false
    by (symmetry; apply e_ltb_Fin_false; lra).
  replace (d_ltb (Fin (3 / (0 + 1 + 3))) (Fin (/ 8))) with false
    by (symmetry; apply e_ltb_Fin_false; lra).
  cbn [bind]. do 4 f_equal; [|f_equal]; f_equal; lra.
Qed.
End IdealCheckParams.

Lemma CheckParams_normalises_witness :
  exists a' : nat -> R,
    [Fin (1 / 4); Fin (3 / 4)] = map (fun i => Fin (a' i)) (seq 0 2)
    /\ (forall i, (i < 2)%nat -> (/ 8 <= a' i)%R)
    /\ Rsum a' (seq 0 2) = 1%R.
Proof.
  apply (CheckParams_normalises Ideal.partition_unnormalised
           (Partition.set_desired_area Ideal.partition_unnormalised
              [Fin (1 / 4); Fin (3 / 4)]
              (Density.SetVolumeLowerBound Ideal.uniform_field (Fin (/ 8))))
           ["Warning: desired_areas not normalized; will be normalized automatically"%string]
           2 2 (/ 8)%R (fun i => match i with O => 1 | _ => 3 end)%R).
  - reflexivity.
  - lia.
  - reflexivity.
  - lra.
  - reflexivity.
  - exact CheckParams_unnormalised.
Defined.

(** ** AreCollinear on coincident points *)

Section IdealCoincident.
Local Open Scope R_scope.

Lemma inf_of_sign_zero (r : R) : r = 0 -> inf_of_sign r = NaN.
Proof.
  intros ->. unfold inf_of_sign.
  replace (Rltb 0 0) with false by (symmetry; apply Rltb_false; lra). reflexivity.
Qed.

(** X24. In exact arithmetic, whatever the robustness constant, three points
    with the same real coordinates are not collinear for [AreCollinear], and
    the point is not between itself and itself for [AreBetween]: the largest
    of the three distances is [0], the quotient of the distance to the line
    by it is a NaN, and a NaN is below no tolerance. *)
Theorem AreCollinear_coincident_points (rc : ereal) (x y : R) :
  Point.AreCollinear rc (Ideal.pt x y) (Ideal.pt x y) (Ideal.pt x y) = false
  /\ Point.AreBetween rc (Ideal.pt x y) (Ideal.pt x y) (Ideal.pt x y) = false.
Proof.
  assert (Hd : Ideal.rdist x y x y = 0) by (apply rdist_zero; split; reflexivity).
  assert (Hc : Point.AreCollinear rc (Ideal.pt x y) (Ideal.pt x y) (Ideal.pt x y) = false).
  { unfold Point.AreCollinear, Point.max_dist, Point.PerpDistanceToLine.
    rewrite !Distance_pt, Hd.
    repeat match goal with
           | |- context [if ?c then Fin 0 else Fin 0] =>
               replace (if c then Fin 0 else Fin 0) with (Fin 0) by (destruct c; reflexivity)
           end.
    unfold Ideal.pt. cbn [Point.x Point.y d_sub d_fabs d_mul d_add ereal_ops e_sub e_neg e_add
                          e_fabs e_mul].
    assert (Hnan : forall r, r = 0 -> d_ltb (d_div (Fin r) (Fin 0)) rc = false).
    { intros r Hr. cbn [d_div ereal_ops e_div].
      replace (Reqb 0 0) with true by (symmetry; apply Reqb_true; reflexivity).
      rewrite inf_of_sign_zero by exact Hr. reflexivity. }
    assert (Ha : forall a, Rabs (a + - a) = 0)
      by (intros a; replace (a + - a) with 0 by lra; apply Rabs_R0).
    destruct (d_ltb (Fin (Rabs (y + - y))) rc); [now rewrite Hnan by apply Ha|].
    destruct (d_ltb (Fin (Rabs (x + - x))) rc); [now rewrite Hnan by apply Ha|].
    cbn [d_div ereal_ops e_div].
    replace (Reqb 0 0) with true by (symmetry; apply Reqb_true; reflexivity).
    rewrite inf_of_sign_zero; [reflexivity|].
    replace ((y + - y) * x + - ((x + - x) * y) + x * y + - (y * x)) with 0 by ring.
    apply Rabs_R0. }
  split; [exact Hc|]. unfold Point.AreBetween. now rewrite Hc.
Qed.
End IdealCoincident.

(** The same in binary64 arithmetic. *)
Lemma AreCollinear_coincident_binary64 :
  Point.AreCollinear Example.rc (Example.pt 1 2) (Example.pt 1 2) (Example.pt 1 2) = false.
Proof. vm_compute. reflexivity. Qed.
